(** * An interactive 2D presentation engine: store, units, scheduler, gestures

    A shallow embedding of the engine's core classes ([DataStore], [Unit],
    [ScheduledTask], [AnimationTask], [TaskScheduler], [GestureDetector] and
    the default hit test), followed by the properties established for them.

    Conventions of the embedding.

    - A JavaScript number is an IEEE double.  Geometry (positions, sizes,
      angles) is modelled over the real numbers [R], because the hit test
      uses [Math.sin] and [Math.cos]; time stamps and animation values are
      modelled over the rationals [Q], on which the scheduler computes.
      Rounding is not modelled; the non-finite results of a division by zero
      are written out where the source divides.
    - Objects are held in a heap indexed by references ([nat]); a function
      value is a reference into a table of closures, so that callback
      identity ([f !== fn]) is equality of references.
    - A plain object used as a dictionary is a [gmap]; keys are assumed not
      to collide with the property names every object inherits.
    - Code that can throw returns an [outcome]; the store re-enters itself
      through its listeners, so [DataStore_set] carries a recursion budget. *)

From Stdlib Require Import Reals QArith Lia Psatz.
From stdpp Require Import gmap strings list fin_maps.

(** ** Geometry over the reals *)

Record Point := mkPoint { px : R; py : R }.
Record Size := mkSize { width : R; height : R }.

Definition Rleb (a b : R) : bool := if Rle_dec a b then true else false.
Definition Rgeb (a b : R) : bool := if Rge_dec a b then true else false.

(** [a / b] on doubles is infinite or NaN when [b] is zero; [None] stands
    for those non-finite results. *)
Definition jsdiv (a b : R) : option R :=
  if Req_dec_T b 0%R then None else Some (a / b)%R.

(** ** Units *)

Inductive hit_test :=
| HitDefault                         (* hitTestDefaultFactory(unit) *)
| HitCustom (f : R -> R -> bool).    (* a replacement installed by the host *)

Module Unit.
Record t := mk {
  name : string;
  pos : Point;
  size : Size;
  scale : Point;
  rot : Point;
  zOrder : Z;
  enabled : bool;
  hitTest : hit_test;
  onClick : option nat;
  _boundPositionListeners : option (list (string * nat))
}.

Definition with_pos (p : Point) (u : t) : t :=
  mk (name u) p (size u) (scale u) (rot u) (zOrder u) (enabled u)
     (hitTest u) (onClick u) (_boundPositionListeners u).
Definition with_size (s : Size) (u : t) : t :=
  mk (name u) (pos u) s (scale u) (rot u) (zOrder u) (enabled u)
     (hitTest u) (onClick u) (_boundPositionListeners u).
Definition with_scale (p : Point) (u : t) : t :=
  mk (name u) (pos u) (size u) p (rot u) (zOrder u) (enabled u)
     (hitTest u) (onClick u) (_boundPositionListeners u).
Definition with_rot (p : Point) (u : t) : t :=
  mk (name u) (pos u) (size u) (scale u) p (zOrder u) (enabled u)
     (hitTest u) (onClick u) (_boundPositionListeners u).
Definition with_enabled (b : bool) (u : t) : t :=
  mk (name u) (pos u) (size u) (scale u) (rot u) (zOrder u) b
     (hitTest u) (onClick u) (_boundPositionListeners u).
Definition with_bound (l : option (list (string * nat))) (u : t) : t :=
  mk (name u) (pos u) (size u) (scale u) (rot u) (zOrder u) (enabled u)
     (hitTest u) (onClick u) l.
End Unit.

(** The values a freshly constructed unit has.  Its name is drawn at random
    by the constructor and is a parameter here, as is the reference of the
    function the constructor installs as [onClick]. *)
Definition Unit_new (name : string) (onClick : nat) : Unit.t :=
  Unit.mk name (mkPoint 10 10) (mkSize 100 100) (mkPoint 1 1) (mkPoint 0 0)
          0%Z true HitDefault (Some onClick) None.

(** calculateCenterPosFactory *)
Definition getCenterPos (unit : Unit.t) : Point :=
  mkPoint (px (Unit.pos unit) + width (Unit.size unit) / 2)
          (py (Unit.pos unit) + height (Unit.size unit) / 2).

(** hitTestDefaultFactory *)
Definition hitTestDefault (unit : Unit.t) (x y : R) : bool :=
  let c := getCenterPos unit in
  (* Step 1: move to local coords *)
  let lx := (x - px c)%R in
  let ly := (y - py c)%R in
  (* Step 2: inverse rotation *)
  let sin := sin (- px (Unit.rot unit)) in
  let cos := cos (- px (Unit.rot unit)) in
  let rx := (lx * cos - ly * sin)%R in
  let ry := (lx * sin + ly * cos)%R in
  (* Step 3: inverse scale; a non-finite quotient fails one of the four
     comparisons below whatever the size is *)
  match jsdiv rx (px (Unit.scale unit)), jsdiv ry (py (Unit.scale unit)) with
  | Some rx, Some ry =>
      (* Step 4: shift into local bounding box space *)
      let finalX := (rx + width (Unit.size unit) / 2)%R in
      let finalY := (ry + height (Unit.size unit) / 2)%R in
      Rgeb finalX 0 && Rgeb finalY 0
      && Rleb finalX (width (Unit.size unit))
      && Rleb finalY (height (Unit.size unit))
  | _, _ => false
  end.

(** [unit.hitTest(x, y)] *)
Definition Unit_hitTest (unit : Unit.t) (x y : R) : bool :=
  match Unit.hitTest unit with
  | HitDefault => hitTestDefault unit x y
  | HitCustom f => f x y
  end.

(** ** Values, exceptions, function values *)

Inductive value :=
| VUndefined
| VNull
| VBool (b : bool)
| VNum (r : R)
| VStr (s : string)
| VPoint (p : Point)              (* an object with fields x and y *)
| VSize (s : Size)                (* an object with fields width and height *)
| VEvent (clientX clientY : R)    (* a pointer event of the drawing surface *)
| VBuiltin (name : string).       (* what Object.prototype yields under [name] *)

Inductive error :=
| Error (message : string)        (* new Error(message) *)
| TypeError (message : string).   (* raised by the language itself *)

(** The function values that reach the store and the units.  A host
    callback is opaque: a call is recorded and either returns or throws,
    depending on its argument.  [UpdatePosition] is the closure
    [updatePosition] that [bindPositionRelativeTo] creates; it captures the
    two units, the direction and the offsets. *)
Inductive closure :=
| Host (throws : value -> option error)
| UpdatePosition (this otherUnit : nat) (direction : string) (padX padY : R).

(** A call of the function value [fn] with argument [arg]. *)
Inductive event := Invoked (fn : nat) (arg : value).

(** ** The program state *)

Record DataStore := mkDataStore {
  _data : gmap string value;
  _listeners : gmap string (list nat)
}.

Record World := mkWorld {
  heap : gmap nat Unit.t;          (* the Unit objects *)
  _units : list nat;               (* context._units *)
  canvasRect : Point;              (* canvas.getBoundingClientRect(): left, top *)
  store : DataStore;               (* context.store *)
  functions : gmap nat closure;    (* the function values *)
  calls : list event               (* every call made so far, oldest first *)
}.

Definition with_heap (h : gmap nat Unit.t) (w : World) : World :=
  mkWorld h (_units w) (canvasRect w) (store w) (functions w) (calls w).
Definition with_store (s : DataStore) (w : World) : World :=
  mkWorld (heap w) (_units w) (canvasRect w) s (functions w) (calls w).
Definition with_functions (f : gmap nat closure) (w : World) : World :=
  mkWorld (heap w) (_units w) (canvasRect w) (store w) f (calls w).
Definition with_calls (c : list event) (w : World) : World :=
  mkWorld (heap w) (_units w) (canvasRect w) (store w) (functions w) c.

(** How a piece of code ends: normally, by an exception that leaves the
    state as it was when thrown, or by exhausting the recursion budget. *)
Inductive outcome :=
| Done (w : World)
| Throws (e : error) (w : World)
| OutOfFuel.

Definition andThen (o : outcome) (k : World -> outcome) : outcome :=
  match o with
  | Done w => k w
  | Throws e w => Throws e w
  | OutOfFuel => OutOfFuel
  end.

(** [list.forEach(f)] for an [f] that does not change [list] itself. *)
Fixpoint forEach (f : nat -> World -> outcome) (l : list nat) (w : World)
  : outcome :=
  match l with
  | [] => Done w
  | fn :: rest => andThen (f fn w) (forEach f rest)
  end.

(** ** DataStore: the operations that do not call back *)

(** [v == null]: true of null and of undefined only. *)
Definition looseNull (v : value) : bool :=
  match v with
  | VUndefined | VNull => true
  | _ => false
  end.

(** The names an object created by [{}] inherits from [Object.prototype]:
    the properties of the language standard, with the legacy accessors
    that browsers carry. *)
Definition Object_prototype : list string :=
  [ "constructor"; "hasOwnProperty"; "isPrototypeOf"; "propertyIsEnumerable";
    "toLocaleString"; "toString"; "valueOf"; "__proto__";
    "__defineGetter__"; "__defineSetter__"; "__lookupGetter__";
    "__lookupSetter__" ].

(** [this._data[key]], the object having been created by [{}]: the store's
    own value under the key; without one, what [Object.prototype] holds
    under that name (a function, or for "__proto__" the prototype itself);
    undefined otherwise. *)
Definition DataStore_read (key : string) (s : DataStore) : value :=
  match _data s !! key with
  | Some v => v
  | None =>
      if bool_decide (key ∈ Object_prototype) then VBuiltin key
      else VUndefined
  end.

(** An assignment under "__proto__" does not create a property: it goes to
    the accessor and replaces the prototype, after which a read of a
    missing key sees what the assigned object has.  The reads above are
    those of a store that has seen no such assignment. *)
Definition prototype_untouched (s : DataStore) : Prop :=
  _data s !! "__proto__" = None.

(** DataStore.get *)
Definition DataStore_get (key : string) (s : DataStore) : value + error :=
  let v := DataStore_read key s in
  if looseNull v then inr (Error ("Empty key in store: " +:+ key))
  else inl v.

(** DataStore.added *)
Definition DataStore_added (key : string) (s : DataStore) : bool :=
  bool_decide (is_Some (_data s !! key)).

(** DataStore.onChange *)
Definition DataStore_onChange (key : string) (fn : nat) (s : DataStore)
  : DataStore :=
  mkDataStore (_data s)
              (<[key := default [] (_listeners s !! key) ++ [fn]]> (_listeners s)).

(** DataStore.removeOnChange *)
Definition DataStore_removeOnChange (key : string) (fn : nat) (s : DataStore)
  : DataStore :=
  match _listeners s !! key with
  | Some lst =>
      mkDataStore (_data s)
                  (<[key := filter (fun f => f ≠ fn) lst]> (_listeners s))
  | None => s
  end.

(** ** Unit.update and the position binding, over a given [store.set] *)

Inductive attribute :=
| AttrPos (p : Point)
| AttrSize (s : Size)
| AttrRot (p : Point)
| AttrScale (p : Point)
| AttrEnabled (b : bool).

Definition attribute_name (a : attribute) : string :=
  match a with
  | AttrPos _ => "pos"
  | AttrSize _ => "size"
  | AttrRot _ => "rot"
  | AttrScale _ => "scale"
  | AttrEnabled _ => "enabled"
  end.

(** [this[attr] = value] *)
Definition assign (a : attribute) (u : Unit.t) : Unit.t :=
  match a with
  | AttrPos p => Unit.with_pos p u
  | AttrSize s => Unit.with_size s u
  | AttrRot p => Unit.with_rot p u
  | AttrScale p => Unit.with_scale p u
  | AttrEnabled b => Unit.with_enabled b u
  end.

(** [attributeName.split(".").reduce((obj, key) => obj?.[key], this)] for
    the attributes of the model; any other path reads [undefined]. *)
Definition readAttribute (u : Unit.t) (attributeName : string) : value :=
  if decide (attributeName = "pos") then VPoint (Unit.pos u)
  else if decide (attributeName = "size") then VSize (Unit.size u)
  else if decide (attributeName = "rot") then VPoint (Unit.rot u)
  else if decide (attributeName = "scale") then VPoint (Unit.scale u)
  else if decide (attributeName = "enabled") then VBool (Unit.enabled u)
  else if decide (attributeName = "name") then VStr (Unit.name u)
  else if decide (attributeName = "pos.x") then VNum (px (Unit.pos u))
  else if decide (attributeName = "pos.y") then VNum (py (Unit.pos u))
  else if decide (attributeName = "size.width") then VNum (width (Unit.size u))
  else if decide (attributeName = "size.height") then VNum (height (Unit.size u))
  else VUndefined.

(** Unit.getAttributeStoreName *)
Definition getAttributeStoreName (u : Unit.t) (attributeName : string) : string :=
  Unit.name u +:+ "::" +:+ attributeName.

Definition dangling : error := TypeError "Cannot read properties of undefined".

Section UnitOverStore.
(** [store.set], as far as the recursion budget lets it run. *)
Variable store_set : string -> value -> World -> outcome.

(** Unit.updateInStore *)
Definition Unit_updateInStore (this : nat) (attributeName : string) (w : World)
  : outcome :=
  match heap w !! this with
  | None => Throws dangling w
  | Some u =>
      store_set (getAttributeStoreName u attributeName)
                (readAttribute u attributeName) w
  end.

(** Unit.update *)
Definition Unit_update (this : nat) (a : attribute) (w : World) : outcome :=
  match heap w !! this with
  | None => Throws dangling w
  | Some u =>
      Unit_updateInStore this (attribute_name a)
                         (with_heap (<[this := assign a u]> (heap w)) w)
  end.

(** The placement computed by the closure [updatePosition]. *)
Definition placement (direction : string) (thisBox otherBox : Point * Size)
  : Point :=
  let x := px (fst otherBox) in
  let y := py (fst otherBox) in
  let ow := width (snd otherBox) in
  let oh := height (snd otherBox) in
  let tw := width (snd thisBox) in
  let th := height (snd thisBox) in
  if decide (direction = "top-left") then mkPoint (x - tw) (y - th)
  else if decide (direction = "top-right") then mkPoint (x + ow) (y - th)
  else if decide (direction = "bottom-left") then mkPoint (x - tw) (y + oh)
  else if decide (direction = "bottom-right") then mkPoint (x + ow) (y + oh)
  else if decide (direction = "left") then mkPoint (x - tw) (y + (oh - th) / 2)
  else if decide (direction = "right") then mkPoint (x + ow) (y + (oh - th) / 2)
  else if decide (direction = "top") then mkPoint (x + (ow - tw) / 2) (y - th)
  else if decide (direction = "bottom") then mkPoint (x + (ow - tw) / 2) (y + oh)
  else mkPoint (x + (ow - tw) / 2) (y + (oh - th) / 2).

(** The body of [updatePosition]. *)
Definition updatePosition (this otherUnit : nat) (direction : string)
           (padX padY : R) (w : World) : outcome :=
  match heap w !! this, heap w !! otherUnit with
  | Some t, Some o =>
      let thisBox := (Unit.pos t, Unit.size t) in
      let otherBox := (Unit.pos o, Unit.size o) in
      let new := placement direction thisBox otherBox in
      (* Apply offset *)
      let newX := (px new + padX)%R in
      let newY := (py new + padY)%R in
      Unit_update this (AttrPos (mkPoint newX newY)) w
  | _, _ => Throws dangling w
  end.

(** A call [fn(arg)]. *)
Definition invoke (fn : nat) (arg : value) (w : World) : outcome :=
  match functions w !! fn with
  | None => Throws (TypeError "fn is not a function") w
  | Some c =>
      let w := with_calls (calls w ++ [Invoked fn arg]) w in
      match c with
      | Host throws =>
          match throws arg with
          | None => Done w
          | Some e => Throws e w
          end
      | UpdatePosition this otherUnit direction padX padY =>
          updatePosition this otherUnit direction padX padY w
      end
  end.
End UnitOverStore.

(** DataStore.set *)
Fixpoint DataStore_set (fuel : nat) (key : string) (v : value) (w : World)
  : outcome :=
  match fuel with
  | O => OutOfFuel
  | S fuel =>
      let s := store w in
      let w := with_store (mkDataStore (<[key := v]> (_data s)) (_listeners s)) w in
      forEach (fun fn => invoke (DataStore_set fuel) fn v)
              (default [] (_listeners s !! key)) w
  end.

(** ** Unit.bindPositionRelativeTo and the click listener *)

(** The [offset] argument: either field may be missing. *)
Record Offset := mkOffset { offset_x : option R; offset_y : option R }.

Section BindingOverStore.
Variable store_set : string -> value -> World -> outcome.

(** The helper [watch] of bindPositionRelativeTo: subscribe the closure
    and record the subscription on the unit. *)
Definition watch (this : nat) (fn : nat) (w : World) (key : string) : World :=
  let w := with_store (DataStore_onChange key fn (store w)) w in
  match heap w !! this with
  | Some t =>
      let l := default [] (Unit._boundPositionListeners t) ++ [(key, fn)] in
      with_heap (<[this := Unit.with_bound (Some l) t]> (heap w)) w
  | None => w
  end.

(** Unit.bindPositionRelativeTo *)
Definition Unit_bindPositionRelativeTo (this otherUnit : nat)
           (direction : string) (offset : Offset) (w : World) : outcome :=
  match heap w !! this, heap w !! otherUnit with
  | Some t, Some o =>
      let padX := default 0%R (offset_x offset) in
      let padY := default 0%R (offset_y offset) in
      let bound := default [] (Unit._boundPositionListeners t) in
      let w := with_heap (<[this := Unit.with_bound (Some bound) t]> (heap w)) w in
      let fn := fresh (dom (functions w)) in
      let w := with_functions
                 (<[fn := UpdatePosition this otherUnit direction padX padY]>
                    (functions w)) w in
      let w := foldl (watch this fn) w
                     [ getAttributeStoreName o "pos";
                       getAttributeStoreName o "size";
                       getAttributeStoreName o "rot";
                       getAttributeStoreName o "scale";
                       getAttributeStoreName t "size";
                       getAttributeStoreName t "rot";
                       getAttributeStoreName t "scale" ] in
      (* Initial placement *)
      invoke store_set fn VUndefined w
  | _, _ => Throws dangling w
  end.

(** GestureDetector._getMousePos *)
Definition _getMousePos (clientX clientY : R) (w : World) : Point :=
  mkPoint (clientX - px (canvasRect w)) (clientY - py (canvasRect w)).

(** The loop of the "click" listener over the reversed copy of the unit
    list; delivering the event ends the loop ([break]). *)
Fixpoint click_scan (event : value) (x y : R) (units : list nat) (w : World)
  : outcome :=
  match units with
  | [] => Done w
  | r :: rest =>
      match heap w !! r with
      | None => Throws dangling w
      | Some unit =>
          if Unit_hitTest unit x y && Unit.enabled unit then
            match Unit.onClick unit with       (* unit.onClick?.(event) *)
            | Some fn => invoke store_set fn event w
            | None => Done w
            end
          else click_scan event x y rest w
      end
  end.

(** The "click" listener that GestureDetector registers on the canvas. *)
Definition onCanvasClick (clientX clientY : R) (w : World) : outcome :=
  let p := _getMousePos clientX clientY w in
  click_scan (VEvent clientX clientY) (px p) (py p) (reverse (_units w)) w.
End BindingOverStore.

(** ** Scheduler: tasks over rational time *)

(** A number that reaches a callback: finite, or NaN. *)
Inductive number := Finite (q : Q) | NaN.

Definition Math_max (a b : Q) : Q := if Qle_bool a b then b else a.
Definition Math_min (a b : Q) : Q := if Qle_bool a b then a else b.
Definition Qltb (a b : Q) : bool := negb (Qle_bool b a).

Definition INFINITE : Z := (-1)%Z.

Module Task.
(** The fields an AnimationTask adds. *)
Record animation := mkAnimation {
  startVal : Q;
  endVal : Q;
  curve : Q -> Q;
  duration : Q;
  animStart : Q
}.

Record t := mk {
  name : string;
  delay : Q;
  repeat : Z;
  fn : nat;
  remaining : Z;
  lastRun : Q;
  channels : list string;
  pausedAt : option Q;
  totalPausedTime : Q;
  anim : option animation      (* [Some] for an AnimationTask *)
}.

Definition with_lastRun (q : Q) (x : t) : t :=
  mk (name x) (delay x) (repeat x) (fn x) (remaining x) q (channels x)
     (pausedAt x) (totalPausedTime x) (anim x).
Definition with_remaining (z : Z) (x : t) : t :=
  mk (name x) (delay x) (repeat x) (fn x) z (lastRun x) (channels x)
     (pausedAt x) (totalPausedTime x) (anim x).
Definition with_pausedAt (p : option Q) (x : t) : t :=
  mk (name x) (delay x) (repeat x) (fn x) (remaining x) (lastRun x)
     (channels x) p (totalPausedTime x) (anim x).
Definition with_totalPausedTime (q : Q) (x : t) : t :=
  mk (name x) (delay x) (repeat x) (fn x) (remaining x) (lastRun x)
     (channels x) (pausedAt x) q (anim x).
End Task.

(** A call of a task's callback: [fn()] for a plain task, [fn(value)] for
    an animation. *)
Inductive fired := Fired (task : string) (fn : nat) (arg : option number).

(** new ScheduledTask(...); [clock] is what performance.now() returns. *)
Definition ScheduledTask_new (name : string) (delay : Q) (repeat : Z) (fn : nat)
           (channels : list string) (clock : Q) : Task.t :=
  Task.mk name delay repeat fn repeat clock channels None 0 None.

(** new AnimationTask(...); [startTime] is read before the base
    constructor reads the clock again. *)
Definition AnimationTask_new (name : string) (startVal endVal : Q)
           (curve : option (Q -> Q)) (duration : Q) (fn : nat)
           (channels : list string) (startTime clock : Q) : Task.t :=
  Task.mk name 0 INFINITE fn INFINITE clock channels None 0
          (Some (Task.mkAnimation startVal endVal
                                  (default (fun t => t) curve)
                                  duration startTime)).

(** shouldRun *)
Definition shouldRun (task : Task.t) (now : Q) : bool :=
  Qle_bool (Task.delay task) (now - Task.lastRun task).

(** [Math.min(1, Math.max(0, elapsed / duration))], with the division by a
    zero duration written out: 0/0 is NaN and stays NaN, a positive
    numerator gives +Infinity (cut to 1), a negative one -Infinity (raised
    to 0). *)
Definition rawProgress (elapsed duration : Q) : number :=
  if Qeq_bool duration 0 then
    if Qeq_bool elapsed 0 then NaN
    else if Qle_bool 0 elapsed then Finite 1
    else Finite 0
  else Finite (Math_min 1 (Math_max 0 (elapsed / duration))).

(** The value an animation passes to its callback at [now].  On NaN the
    curve is taken to return NaN, which the identity and the three curves
    of the source do; what a curve that maps NaN to a number would give is
    not described. *)
Definition animationValue (a : Task.animation) (elapsed : Q) : number :=
  match rawProgress elapsed (Task.duration a) with
  | Finite rawProgress =>
      let curvedProgress := Task.curve a rawProgress in
      Finite (Task.startVal a
              + (Task.endVal a - Task.startVal a) * curvedProgress)
  | NaN => NaN
  end.

Definition elapsedAt (task : Task.t) (a : Task.animation) (now : Q) : Q :=
  now - Task.animStart a - Task.totalPausedTime task.

(** ScheduledTask.run and its override AnimationTask.run: the call made,
    the task afterwards, and whether it is still active. *)
Definition run (task : Task.t) (now : Q) : fired * Task.t * bool :=
  match Task.anim task with
  | None =>
      let task' := Task.with_lastRun now task in
      let task' :=
        if bool_decide (Task.repeat task ≠ INFINITE)
        then Task.with_remaining (Task.remaining task - 1)%Z task'
        else task' in
      (Fired (Task.name task) (Task.fn task) None, task',
       bool_decide (Task.remaining task' ≠ 0%Z))
  | Some a =>
      let elapsed := elapsedAt task a now in
      let value := animationValue a elapsed in
      (Fired (Task.name task) (Task.fn task) (Some value),
       Task.with_lastRun now task,
       Qltb elapsed (Task.duration a))
  end.

(** notifyPaused (the same in both classes) *)
Definition notifyPaused (now : Q) (task : Task.t) : Task.t :=
  Task.with_pausedAt (Some now) task.

(** notifyResumed: a plain task shifts [lastRun], an animation adds to
    [totalPausedTime]. *)
Definition notifyResumed (now : Q) (task : Task.t) : Task.t :=
  match Task.pausedAt task with
  | Some pausedAt =>
      let task' :=
        match Task.anim task with
        | None => Task.with_lastRun (Task.lastRun task + (now - pausedAt)) task
        | Some _ =>
            Task.with_totalPausedTime
              (Task.totalPausedTime task + (now - pausedAt)) task
        end in
      Task.with_pausedAt None task'
  | None => task
  end.

(** ** TaskScheduler *)

Record TaskScheduler := mkTaskScheduler {
  tasks : list Task.t;
  running : bool;
  now : Q;
  pausedChannels : gset string;
  fires : list fired          (* the callbacks called so far, oldest first *)
}.

Definition TaskScheduler_new : TaskScheduler :=
  mkTaskScheduler [] false 0 ∅ [].

Definition with_tasks (l : list Task.t) (s : TaskScheduler) : TaskScheduler :=
  mkTaskScheduler l (running s) (now s) (pausedChannels s) (fires s).
Definition with_now (q : Q) (s : TaskScheduler) : TaskScheduler :=
  mkTaskScheduler (tasks s) (running s) q (pausedChannels s) (fires s).
Definition with_fires (l : list fired) (s : TaskScheduler) : TaskScheduler :=
  mkTaskScheduler (tasks s) (running s) (now s) (pausedChannels s) l.

(** remove *)
Definition remove (name : string) (s : TaskScheduler) : TaskScheduler :=
  with_tasks (filter (fun task => Task.name task ≠ name) (tasks s)) s.

(** add *)
Definition add (name : string) (delay : Q) (repeat : Z) (fn : nat)
           (channels : list string) (clock : Q) (s : TaskScheduler)
  : TaskScheduler :=
  let s := remove name s in
  with_tasks (tasks s ++ [ScheduledTask_new name delay repeat fn channels clock]) s.

(** addAnim *)
Definition addAnim (name : string) (startVal endVal : Q)
           (curve : option (Q -> Q)) (duration : Q) (fn : nat)
           (channels : list string) (startTime clock : Q) (s : TaskScheduler)
  : TaskScheduler :=
  let s := remove name s in
  with_tasks (tasks s ++ [AnimationTask_new name startVal endVal curve duration
                                            fn channels startTime clock]) s.

(** A task object changed in place; within the scheduler a task is
    identified by its name. *)
Definition mutate (task' : Task.t) (s : TaskScheduler) : TaskScheduler :=
  with_tasks ((fun x => if decide (Task.name x = Task.name task')
                        then task' else x) <$> tasks s) s.

Definition isPaused (s : TaskScheduler) (task : Task.t) : bool :=
  existsb (fun ch => bool_decide (ch ∈ pausedChannels s)) (Task.channels task).

(** The [for] loop of one frame over the copy [currentTasks]. *)
Fixpoint loop_tasks (now : Q) (currentTasks : list Task.t) (s : TaskScheduler)
  : TaskScheduler :=
  match currentTasks with
  | [] => s
  | task :: rest =>
      (* Skip if any of the task's channels are paused *)
      if isPaused s task then loop_tasks now rest s
      else if shouldRun task now then
        let '(call, task', stillActive) := run task now in
        let s := mutate task' s in
        let s := with_fires (fires s ++ [call]) s in
        let s := if stillActive then s else remove (Task.name task) s in
        loop_tasks now rest s
      else loop_tasks now rest s
  end.

(** One call of [loop] by requestAnimationFrame. *)
Definition loop (now : Q) (s : TaskScheduler) : TaskScheduler :=
  if running s then
    let s := with_now now s in
    loop_tasks now (tasks s) s
  else s.

(** start *)
Definition start (s : TaskScheduler) : TaskScheduler :=
  mkTaskScheduler (tasks s) true (now s) (pausedChannels s) (fires s).

(** pause *)
Definition pause (channel : string) (s : TaskScheduler) : TaskScheduler :=
  mkTaskScheduler
    ((fun task => if bool_decide (channel ∈ Task.channels task)
                  then notifyPaused (now s) task else task) <$> tasks s)
    (running s) (now s) ({[channel]} ∪ pausedChannels s) (fires s).

(** resume *)
Definition resume (channel : string) (s : TaskScheduler) : TaskScheduler :=
  start
    (mkTaskScheduler
       ((fun task => if bool_decide (channel ∈ Task.channels task)
                     then notifyResumed (now s) task else task) <$> tasks s)
       (running s) (now s) (pausedChannels s ∖ {[channel]}) (fires s)).

(** stop *)
Definition stop (channel : option string) (s : TaskScheduler) : TaskScheduler :=
  match channel with
  | None => mkTaskScheduler [] false (now s) ∅ (fires s)
  | Some channel =>
      mkTaskScheduler
        (filter (fun t => channel ∉ Task.channels t) (tasks s))
        (running s) (now s) (pausedChannels s ∖ {[channel]}) (fires s)
  end.

(** ** Sequences of scheduler calls *)

Inductive call :=
| Add (name : string) (delay : Q) (repeat : Z) (fn : nat)
      (channels : list string) (clock : Q)
| AddAnim (name : string) (startVal endVal : Q) (curve : option (Q -> Q))
          (duration : Q) (fn : nat) (channels : list string)
          (startTime clock : Q)
| Remove (name : string)
| Start
| Frame (now : Q)
| Pause (channel : string)
| Resume (channel : string)
| Stop (channel : option string).

Definition perform (s : TaskScheduler) (c : call) : TaskScheduler :=
  match c with
  | Add name delay repeat fn channels clock =>
      add name delay repeat fn channels clock s
  | AddAnim name startVal endVal curve duration fn channels startTime clock =>
      addAnim name startVal endVal curve duration fn channels startTime clock s
  | Remove name => remove name s
  | Start => start s
  | Frame now => loop now s
  | Pause channel => pause channel s
  | Resume channel => resume channel s
  | Stop channel => stop channel s
  end.

Definition performAll (calls : list call) (s : TaskScheduler) : TaskScheduler :=
  foldl perform s calls.

(** The task scheduled under a name, and how often the callback of the
    task of that name has been called. *)
Definition scheduled (name : string) (s : TaskScheduler) : option Task.t :=
  head (filter (fun task => Task.name task = name) (tasks s)).

Definition fired_task (f : fired) : string :=
  match f with Fired task _ _ => task end.

Definition fireCount (name : string) (s : TaskScheduler) : nat :=
  length (filter (fun f => fired_task f = name) (fires s)).

(** What one frame does with one task of the copy while the channels
    [paused] are paused: the call it makes, if any, and the task it leaves
    scheduled, if any. *)
Definition visit (now : Q) (paused : gset string) (task : Task.t)
  : option fired * option Task.t :=
  if existsb (fun ch => bool_decide (ch ∈ paused)) (Task.channels task)
  then (None, Some task)
  else if shouldRun task now then
    let '(call, task', stillActive) := run task now in
    (Some call, if stillActive then Some task' else None)
  else (None, Some task).

(** A call that neither replaces nor discards the task [name], whose
    channels are [channels]. *)
Definition untouched (name : string) (channels : list string) (c : call) : Prop :=
  match c with
  | Add name' _ _ _ _ _ => name' ≠ name
  | AddAnim name' _ _ _ _ _ _ _ _ => name' ≠ name
  | Remove name' => name' ≠ name
  | Stop None => False
  | Stop (Some channel) => channel ∉ channels
  | Start | Frame _ | Pause _ | Resume _ => True
  end.

(** The state of a plain task added with [repeat = n] under [name] once
    its callback has been called [k] more times than the [base] count. *)
Definition countdown (name : string) (channels : list string) (n : Z)
           (base : nat) (s : TaskScheduler) : Prop :=
  NoDup (Task.name <$> tasks s)
  /\ (base <= fireCount name s)%nat
  /\ let k := Z.of_nat (fireCount name s - base) in
     match scheduled name s with
     | Some t =>
         Task.anim t = None /\ Task.repeat t = n /\ Task.channels t = channels
         /\ Task.remaining t = (n - k)%Z /\ (1 <= n -> k < n)%Z
     | None => (1 <= n)%Z /\ k = n
     end.

(** ** The hit region, as the specification describes it *)

Definition translate (p d : Point) : Point :=
  mkPoint (px p + px d) (py p + py d).

Definition negate (p : Point) : Point := mkPoint (- px p) (- py p).

(** Rotation of the plane by the angle [a] about the origin. *)
Definition rotate (a : R) (p : Point) : Point :=
  mkPoint (px p * cos a - py p * sin a) (px p * sin a + py p * cos a).

(** Its inverse. *)
Definition inverse_rotate (a : R) (p : Point) : Point :=
  mkPoint (px p * cos a + py p * sin a) (- px p * sin a + py p * cos a).

(** Componentwise division, defined when neither divisor is zero. *)
Definition divide (p s : Point) : option Point :=
  if Req_dec_T (px s) 0 then None
  else if Req_dec_T (py s) 0 then None
  else Some (mkPoint (px p / px s) (py p / py s)).

Definition half (s : Size) : Point := mkPoint (width s / 2) (height s / 2).

Definition inside_box (p : Point) (s : Size) : Prop :=
  (0 <= px p <= width s)%R /\ (0 <= py p <= height s)%R.

(** Translate by the negative centre, inverse-rotate by [rot.x], divide by
    the scale, shift by half the size, test the box. *)
Definition hit_region (unit : Unit.t) (q : Point) : Prop :=
  let local := translate q (negate (getCenterPos unit)) in
  let unrotated := inverse_rotate (px (Unit.rot unit)) local in
  match divide unrotated (Unit.scale unit) with
  | Some unscaled => inside_box (translate unscaled (half (Unit.size unit)))
                                (Unit.size unit)
  | None => False
  end.

(** A unit 200 wide and 20 high with its top-left corner at the origin. *)
Definition bar (angle : R) : Unit.t :=
  Unit.with_rot (mkPoint angle angle)
    (Unit.with_size (mkSize 200 20)
       (Unit.with_pos (mkPoint 0 0) (Unit_new "bar" 0))).

(** ** Vocabulary for the properties of the store and the units *)

(** [fn] is a host callback that returns normally when called with [v]. *)
Definition returns (w : World) (v : value) (fn : nat) : Prop :=
  exists throws, functions w !! fn = Some (Host throws) /\ throws v = None.

(** [fn] is a host callback that throws [e] when called with [v]. *)
Definition throwing (w : World) (v : value) (e : error) (fn : nat) : Prop :=
  exists throws, functions w !! fn = Some (Host throws) /\ throws v = Some e.

(** [fn] is a host callback that never throws. *)
Definition quiet (w : World) (fn : nat) : Prop :=
  exists throws, functions w !! fn = Some (Host throws)
                 /\ forall v, throws v = None.

(** The listeners registered for a key, in the order of the array. *)
Definition listenersOf (key : string) (s : DataStore) : list nat :=
  default [] (_listeners s !! key).


(** What the specification asks of a [set] whose listeners may throw: the
    call returns normally and every listener of the key has been called
    with the value. *)
Definition isolates_listener_errors (fuel : nat) (key : string) (v : value)
           (w : World) : Prop :=
  exists w', DataStore_set fuel key v w = Done w'
             /\ forall fn, fn ∈ listenersOf key (store w) ->
                           Invoked fn v ∈ calls w'.

(** A store with two listeners on "k": the first throws, the second does
    not. *)
Definition boom : error := Error "boom".

Definition two_listeners : World :=
  mkWorld ∅ [] (mkPoint 0 0)
          (mkDataStore ∅ {[ "k" := [0%nat; 1%nat] ]})
          {[ 0%nat := Host (fun _ => Some boom); 1%nat := Host (fun _ => None) ]}
          [].

(** The same store with two listeners that return. *)
Definition two_quiet_listeners : World :=
  mkWorld ∅ [] (mkPoint 0 0)
          (mkDataStore ∅ {[ "k" := [0%nat; 1%nat] ]})
          {[ 0%nat := Host (fun _ => None); 1%nat := Host (fun _ => None) ]}
          [].

Definition empty_world : World :=
  mkWorld ∅ [] (mkPoint 0 0) (mkDataStore ∅ ∅) ∅ [].

(** The click listener, unit by unit: whether a unit takes the click, and
    what delivering the click to it does. *)
Definition accepts (w : World) (x y : R) (r : nat) : bool :=
  match heap w !! r with
  | Some unit => Unit_hitTest unit x y && Unit.enabled unit
  | None => false
  end.

Definition deliver (store_set : string -> value -> World -> outcome)
           (event : value) (w : World) (r : nat) : outcome :=
  match heap w !! r with
  | Some unit =>
      match Unit.onClick unit with
      | Some fn => invoke store_set fn event w
      | None => Done w
      end
  | None => Throws dangling w
  end.

(** Successive calls [unit.update("pos", p)]. *)
Definition moveAll (store_set : string -> value -> World -> outcome)
           (unit : nat) (ps : list Point) (w : World) : outcome :=
  foldl (fun o p => andThen o (Unit_update store_set unit (AttrPos p)))
        (Done w) ps.

Definition posOf (w : World) (r : nat) : option Point :=
  Unit.pos <$> heap w !! r.

(** Unit [b] is kept to the right of unit [a], 5 apart, by the closure
    [fn]; [na], [nb] are the names of the two units and [sa], [sb] their
    sizes.  Any other listener of the two position keys is a host callback
    that never throws. *)
Definition bound_right (a b fn : nat) (na nb : string) (sa sb : Size)
           (w : World) : Prop :=
  (exists A, heap w !! a = Some A /\ Unit.name A = na /\ Unit.size A = sa)
  /\ (exists B, heap w !! b = Some B /\ Unit.name B = nb /\ Unit.size B = sb)
  /\ functions w !! fn = Some (UpdatePosition b a "right" 5 0)
  /\ (exists la, listenersOf (na +:+ "::" +:+ "pos") (store w) = la ++ [fn]
                 /\ Forall (quiet w) la)
  /\ Forall (quiet w) (listenersOf (nb +:+ "::" +:+ "pos") (store w)).

(** Where the binding "right" with offset [{x: 5}] puts a unit of size
    [sb] next to a unit of size [sa] at [p]. *)
Definition right_of (sa sb : Size) (p : Point) : Point :=
  mkPoint (px p + width sa + 5) (py p + (height sa - height sb) / 2).

(** ** Concrete scenes used to exercise the properties *)

(** Two units as constructed, hence overlapping, each with a click handler
    that returns; unit 1 was registered after unit 0. *)
Definition two_units : World :=
  mkWorld {[ 0%nat := Unit_new "A" 0; 1%nat := Unit_new "B" 1 ]}
          [0%nat; 1%nat] (mkPoint 0 0)
          (mkDataStore ∅ ∅)
          {[ 0%nat := Host (fun _ => None); 1%nat := Host (fun _ => None) ]}
          [].

(** A repeating task with a delay of 100, added at time 0 to a scheduler
    that is then started and has seen one frame at time 50. *)
Definition ticking : list call :=
  [Add "tick" 100 INFINITE 0%nat ["global"] 0; Start; Frame 50].

Definition tick_task : Task.t :=
  ScheduledTask_new "tick" 100 INFINITE 0%nat ["global"] 0.

(** A repeating task with a delay of 100, created when the clock reads
    1000 on a new scheduler that is then started: no frame has come yet. *)
Definition before_first_frame : list call :=
  [Add "tick" 100 INFINITE 0%nat ["global"] 1000; Start].

Definition late_tick : Task.t :=
  ScheduledTask_new "tick" 100 INFINITE 0%nat ["global"] 1000.

(** An animation from 0 to 10 over 500, created at time 0. *)
Definition fade_task : Task.t :=
  AnimationTask_new "fade" 0 10 None 500 7%nat ["global"; "animation"] 0 0.

Definition fade_animation : Task.animation :=
  Task.mkAnimation 0 10 (fun t => t) 500 0.

(** * Further definitions: the rest of the scheduler, the units and the
      helpers around them *)

From stdpp Require sorting.

(** ** Scheduler: how one call changes one task *)

(** A call that does not schedule a task under [name]. *)
Definition not_adding (name : string) (c : call) : Prop :=
  match c with
  | Add name' _ _ _ _ _ => name' ≠ name
  | AddAnim name' _ _ _ _ _ _ _ _ => name' ≠ name
  | _ => True
  end.

(** What a call that leaves the task [t] alone (see [untouched]) makes of
    it in the scheduler [s]: a frame visits it, [pause] and [resume] notify
    it when it carries the channel, every other call keeps it. *)
Definition evolve (c : call) (s : TaskScheduler) (t : Task.t) : option Task.t :=
  match c with
  | Frame frame =>
      if running s then (visit frame (pausedChannels s) t).2 else Some t
  | Pause channel =>
      Some (if bool_decide (channel ∈ Task.channels t)
            then notifyPaused (now s) t else t)
  | Resume channel =>
      Some (if bool_decide (channel ∈ Task.channels t)
            then notifyResumed (now s) t else t)
  | _ => Some t
  end.

(** A plain task that repeats for ever, scheduled under [name]. *)
Definition forever (name : string) (channels : list string) (delay : Q)
           (s : TaskScheduler) : Prop :=
  NoDup (Task.name <$> tasks s)
  /\ exists t, scheduled name s = Some t
               /\ Task.anim t = None /\ Task.repeat t = INFINITE
               /\ Task.remaining t = INFINITE
               /\ Task.channels t = channels /\ Task.delay t = delay.

(** ** Units: unbinding, the unit list of the context, deletion *)

(** Unit.unbindPositionRelativeTo; an empty array is truthy, so only a
    unit that was never bound returns early. *)
Definition Unit_unbindPositionRelativeTo (this : nat) (w : World) : outcome :=
  match heap w !! this with
  | None => Throws dangling w
  | Some t =>
      match Unit._boundPositionListeners t with
      | None => Done w
      | Some l =>
          let s := foldl (fun s kf => DataStore_removeOnChange kf.1 kf.2 s)
                         (store w) l in
          Done (with_heap (<[this := Unit.with_bound (Some []) t]> (heap w))
                          (with_store s w))
      end
  end.

Definition with_units (l : list nat) (w : World) : World :=
  mkWorld (heap w) l (canvasRect w) (store w) (functions w) (calls w).

Definition nameOf (w : World) (r : nat) : option string :=
  Unit.name <$> heap w !! r.

Definition zOrderOf (w : World) (r : nat) : Z :=
  default 0%Z (Unit.zOrder <$> heap w !! r).

(** Context.addUnit (the flag [zSorted] it clears is never set, see
    [Context_zSortUnits]). *)
Definition Context_addUnit (unit : nat) (w : World) : World :=
  with_units (_units w ++ [unit]) w.

(** Context.removeUnit: every unit of that name goes. *)
Definition Context_removeUnit (name : string) (w : World) : World :=
  with_units (filter (fun r => nameOf w r ≠ Some name) (_units w)) w.

(** Unit.delete *)
Definition Unit_delete (this : nat) (w : World) : outcome :=
  andThen (Unit_unbindPositionRelativeTo this w)
          (fun w => match heap w !! this with
                    | Some t => Done (Context_removeUnit (Unit.name t) w)
                    | None => Throws dangling w
                    end).

(** [Array.prototype.sort] with a comparator [(a, b) => key(a) - key(b)]:
    the language requires the sort to be stable, which fixes its result;
    insertion from the right is one stable sort. *)
Fixpoint insert_by (key : nat -> Z) (x : nat) (l : list nat) : list nat :=
  match l with
  | [] => [x]
  | y :: l' => if (key x <=? key y)%Z then x :: y :: l'
               else y :: insert_by key x l'
  end.

Definition stable_sort (key : nat -> Z) (l : list nat) : list nat :=
  foldr (insert_by key) [] l.

(** Context.zSortUnits.  [zSorted] is the context's flag; the source only
    ever assigns it [false] (constructor and addUnit), so the early return
    is never taken. *)
Definition Context_zSortUnits (zSorted : bool) (w : World) : World :=
  if zSorted then w
  else with_units (stable_sort (zOrderOf w) (_units w)) w.

(** ** Vocabulary for position bindings in general *)

(** The character ":" that separates the name from the attribute. *)
Definition colon : Ascii.ascii :=
  Ascii.Ascii false true false true true true false false.

(** The keys [bindPositionRelativeTo] subscribes to, given the names of
    the other unit and of this unit. *)
Definition watchedKeys (other this : string) : list string :=
  [ other +:+ "::" +:+ "pos"; other +:+ "::" +:+ "size";
    other +:+ "::" +:+ "rot"; other +:+ "::" +:+ "scale";
    this +:+ "::" +:+ "size"; this +:+ "::" +:+ "rot";
    this +:+ "::" +:+ "scale" ].

(** Unit [b] (named [nb]) is bound to unit [a] (named [na]) by the closure
    [fn] with the given direction and offsets; [base key] are the other
    listeners of each key, all of them host callbacks that never throw. *)
Definition bound_to (a b fn : nat) (direction : string) (padX padY : R)
           (na nb : string) (base : string -> list nat) (w : World) : Prop :=
  (exists A, heap w !! a = Some A /\ Unit.name A = na)
  /\ (exists B, heap w !! b = Some B /\ Unit.name B = nb)
  /\ functions w !! fn = Some (UpdatePosition b a direction padX padY)
  /\ (forall key, Forall (quiet w) (base key))
  /\ (forall key, listenersOf key (store w)
                  = base key ++ (if bool_decide (key ∈ watchedKeys na nb)
                                 then [fn] else [])).

(** Where a binding puts this unit, given the two boxes. *)
Definition placed (direction : string) (padX padY : R)
           (this other : Unit.t) : Point :=
  let p := placement direction (Unit.pos this, Unit.size this)
                     (Unit.pos other, Unit.size other) in
  mkPoint (px p + padX) (py p + padY).

(** Units [a] and [b] are bound to each other: [fab] moves [b] when [a]
    moves, [fba] moves [a] when [b] moves. *)
Definition bound_in_a_cycle (a b fab fba : nat) (na nb : string) (w : World)
  : Prop :=
  (exists A, heap w !! a = Some A /\ Unit.name A = na)
  /\ (exists B, heap w !! b = Some B /\ Unit.name B = nb)
  /\ (exists d px py, functions w !! fab = Some (UpdatePosition b a d px py))
  /\ (exists d px py, functions w !! fba = Some (UpdatePosition a b d px py))
  /\ (exists la, listenersOf (na +:+ "::" +:+ "pos") (store w) = la ++ [fab]
                 /\ Forall (quiet w) la)
  /\ (exists lb, listenersOf (nb +:+ "::" +:+ "pos") (store w) = lb ++ [fba]
                 /\ Forall (quiet w) lb).

(** A sequence of [unit.update(attribute, value)] calls on one unit. *)
Definition updateAll (store_set : string -> value -> World -> outcome)
           (unit : nat) (avs : list attribute) (w : World) : outcome :=
  foldl (fun o av => andThen o (Unit_update store_set unit av)) (Done w) avs.

(** The unit after the assignments of such a sequence. *)
Definition assignAll (avs : list attribute) (u : Unit.t) : Unit.t :=
  foldl (fun u av => assign av u) u avs.

(** ** Further scenes *)

(** The animation of [fade_task], added at time 0 to a scheduler that is
    then started and has seen one frame at time 50. *)
Definition fading : list call :=
  [AddAnim "fade" 0 10 None 500 7%nat ["global"; "animation"] 0 0;
   Start; Frame 50].

(** An animation of no duration, created at time 0. *)
Definition blink_task : Task.t :=
  AnimationTask_new "blink" 0 10 None 0 7%nat ["global"] 0 0.

Definition blink_animation : Task.animation :=
  Task.mkAnimation 0 10 (fun t => t) 0 0.

(** ** GestureDetector: the listeners besides "click" *)

(** The handlers of a unit that the detector calls, and what it passes
    them: the DOM event, the object [{event, start, current}] of a drag or
    drop, or the point [{x, y}] of the hover loop. *)
Inductive handler :=
| OnDoubleClick | OnMouseDown | OnMouseUp | OnDrag | OnDrop | OnLongPress
| OnHover | OnMouseLeave.

Inductive payload :=
| OfEvent (clientX clientY : R)
| OfDrag (clientX clientY : R) (start : option Point) (current : Point)
| OfPoint (p : Point).

(** [unit.handler?.(arg)] *)
Inductive handled := Handled (unit : nat) (h : handler) (arg : payload).

Module Gesture.
Record t := mk {
  _isDragging : bool;
  _dragStart : option Point;
  _dragUnit : option nat;
  _longPressTimeout : option nat;
  _hoveredUnit : option nat;
  _lastMousePos : option Point
}.
End Gesture.

(** new GestureDetector(context), fields only. *)
Definition GestureDetector_new : Gesture.t :=
  Gesture.mk false None None None None None.

(** The detector together with the host's side: the timeouts that are
    pending (for each id, the unit and the event its callback captured),
    the next timeout id, and the handler calls made so far.  Handlers are
    taken not to touch the detector, the units or the timeouts. *)
Record Gestures := mkGestures {
  detector : Gesture.t;
  timeouts : gmap nat (nat * payload);
  nextTimeout : nat;
  handlerCalls : list handled
}.

Definition Gestures_new : Gestures :=
  mkGestures GestureDetector_new ∅ 0 [].

(** [clearTimeout(id)]; an id that is null or not pending is ignored. *)
Definition clearTimeout (id : option nat) (t : gmap nat (nat * payload))
  : gmap nat (nat * payload) :=
  match id with Some id => delete id t | None => t end.

(** The loop [for (let unit of [...units].reverse())] up to its [break],
    with the test of the mouse listeners... *)
Fixpoint firstHit (w : World) (x y : R) (units : list nat) : option nat :=
  match units with
  | [] => None
  | r :: rest => if accepts w x y r then Some r else firstHit w x y rest
  end.

(** ... and with the test of the hover loop, [unit.enabled &&
    unit.hitTest(x, y)]. *)
Definition hovers (w : World) (x y : R) (r : nat) : bool :=
  match heap w !! r with
  | Some unit => Unit.enabled unit && Unit_hitTest unit x y
  | None => false
  end.

Fixpoint firstHover (w : World) (x y : R) (units : list nat) : option nat :=
  match units with
  | [] => None
  | r :: rest => if hovers w x y r then Some r else firstHover w x y rest
  end.

(** The "dblclick" listener. *)
Definition onDblClick (clientX clientY : R) (w : World) (g : Gestures)
  : Gestures :=
  let p := _getMousePos clientX clientY w in
  match firstHit w (px p) (py p) (reverse (_units w)) with
  | Some unit =>
      mkGestures (detector g) (timeouts g) (nextTimeout g)
                 (handlerCalls g
                  ++ [Handled unit OnDoubleClick (OfEvent clientX clientY)])
  | None => g
  end.

(** The "mousedown" listener; [setTimeout] hands out the next id. *)
Definition onMouseDown (clientX clientY : R) (w : World) (g : Gestures)
  : Gestures :=
  let p := _getMousePos clientX clientY w in
  match firstHit w (px p) (py p) (reverse (_units w)) with
  | Some unit =>
      let id := nextTimeout g in
      mkGestures
        (Gesture.mk true (Some p) (Some unit) (Some id)
                    (Gesture._hoveredUnit (detector g))
                    (Gesture._lastMousePos (detector g)))
        (<[id := (unit, OfEvent clientX clientY)]> (timeouts g))
        (S id)
        (handlerCalls g ++ [Handled unit OnMouseDown (OfEvent clientX clientY)])
  | None => g
  end.

(** The "mouseup" listener. *)
Definition onMouseUp (clientX clientY : R) (w : World) (g : Gestures)
  : Gestures :=
  let d := detector g in
  let pending := clearTimeout (Gesture._longPressTimeout d) (timeouts g) in
  let p := _getMousePos clientX clientY w in
  match Gesture._isDragging d, Gesture._dragUnit d with
  | true, Some unit =>
      mkGestures
        (Gesture.mk false None None None
                    (Gesture._hoveredUnit d) (Gesture._lastMousePos d))
        pending (nextTimeout g)
        (handlerCalls g
         ++ [Handled unit OnMouseUp (OfEvent clientX clientY);
             Handled unit OnDrop
                     (OfDrag clientX clientY (Gesture._dragStart d) p)])
  | _, _ =>
      mkGestures
        (Gesture.mk (Gesture._isDragging d) (Gesture._dragStart d)
                    (Gesture._dragUnit d) None
                    (Gesture._hoveredUnit d) (Gesture._lastMousePos d))
        pending (nextTimeout g) (handlerCalls g)
  end.

(** The "mousemove" listener. *)
Definition onMouseMove (clientX clientY : R) (w : World) (g : Gestures)
  : Gestures :=
  let d := detector g in
  let p := _getMousePos clientX clientY w in
  let d' := Gesture.mk (Gesture._isDragging d) (Gesture._dragStart d)
                       (Gesture._dragUnit d) (Gesture._longPressTimeout d)
                       (Gesture._hoveredUnit d) (Some p) in
  mkGestures d' (timeouts g) (nextTimeout g)
    (handlerCalls g
     ++ match Gesture._isDragging d, Gesture._dragUnit d with
        | true, Some unit =>
            [Handled unit OnDrag
                     (OfDrag clientX clientY (Gesture._dragStart d) p)]
        | _, _ => []
        end).

(** The "mouseleave" listener; [_dragStart] is left as it is. *)
Definition onMouseLeave (clientX clientY : R) (g : Gestures) : Gestures :=
  let d := detector g in
  mkGestures
    (Gesture.mk false (Gesture._dragStart d) None None None None)
    (clearTimeout (Gesture._longPressTimeout d) (timeouts g))
    (nextTimeout g)
    (handlerCalls g
     ++ match Gesture._hoveredUnit d with
        | Some unit => [Handled unit OnMouseLeave (OfEvent clientX clientY)]
        | None => []
        end).

(** The host runs the callback of a timeout, once, if it is pending. *)
Definition onTimeout (id : nat) (g : Gestures) : Gestures :=
  match timeouts g !! id with
  | Some (unit, event) =>
      mkGestures (detector g) (delete id (timeouts g)) (nextTimeout g)
                 (handlerCalls g ++ [Handled unit OnLongPress event])
  | None => g
  end.

(** The callback of the scheduler task "hover-polling". *)
Definition hoverPolling (w : World) (g : Gestures) : Gestures :=
  let d := detector g in
  match Gesture._lastMousePos d with
  | None => g
  | Some p =>
      let newHoveredUnit := firstHover w (px p) (py p) (reverse (_units w)) in
      let entered :=
        match newHoveredUnit with
        | Some unit =>
            if bool_decide (Some unit ≠ Gesture._hoveredUnit d)
            then [Handled unit OnHover (OfPoint p)] else []
        | None => []
        end in
      let left :=
        match Gesture._hoveredUnit d with
        | Some unit =>
            if bool_decide (Some unit ≠ newHoveredUnit)
            then [Handled unit OnMouseLeave (OfPoint p)] else []
        | None => []
        end in
      mkGestures
        (Gesture.mk (Gesture._isDragging d) (Gesture._dragStart d)
                    (Gesture._dragUnit d) (Gesture._longPressTimeout d)
                    newHoveredUnit (Gesture._lastMousePos d))
        (timeouts g) (nextTimeout g)
        (handlerCalls g ++ entered ++ left)
  end.

(** What reaches the detector: the canvas events, a timeout that runs,
    a run of the hover task.  Each comes with the scene at that moment. *)
Inductive gesture :=
| DblClick (clientX clientY : R)
| MouseDown (clientX clientY : R)
| MouseUp (clientX clientY : R)
| MouseMove (clientX clientY : R)
| MouseLeave (clientX clientY : R)
| TimeoutRuns (id : nat)
| HoverPolling.

Definition react (g : Gestures) (we : World * gesture) : Gestures :=
  let w := we.1 in
  match we.2 with
  | DblClick x y => onDblClick x y w g
  | MouseDown x y => onMouseDown x y w g
  | MouseUp x y => onMouseUp x y w g
  | MouseMove x y => onMouseMove x y w g
  | MouseLeave x y => onMouseLeave x y g
  | TimeoutRuns id => onTimeout id g
  | HoverPolling => hoverPolling w g
  end.

Definition reactAll (es : list (World * gesture)) (g : Gestures) : Gestures :=
  foldl react g es.

(** Reading the calls of one unit's [onHover] and [onMouseLeave] from the
    left: [Some true] when the unit ends hovered, [Some false] when it ends
    not hovered, [None] when some [onHover] came while it was hovered or
    some [onMouseLeave] while it was not. *)
Definition hoverStep (u : nat) (st : option bool) (c : handled) : option bool :=
  match st, c with
  | Some st, Handled u' OnHover _ =>
      if decide (u' = u) then (if st then None else Some true) else Some st
  | Some st, Handled u' OnMouseLeave _ =>
      if decide (u' = u) then (if st then Some false else None) else Some st
  | st, _ => st
  end.

Definition hoverTrace (u : nat) (calls : list handled) : option bool :=
  foldl (hoverStep u) (Some false) calls.

(** Gestures during which the mouse button is neither pressed nor
    released and the pointer stays on the canvas. *)
Definition held (e : World * gesture) : Prop :=
  match e.2 with
  | MouseDown _ _ | MouseUp _ _ | MouseLeave _ _ => False
  | _ => True
  end.

(** The calls a drag makes while the button is held: one [onDrag] per
    "mousemove". *)
Definition dragCalls (u : nat) (start : Point) (es : list (World * gesture))
  : list handled :=
  omap (fun we : World * gesture =>
          match we.2 with
          | MouseMove x y =>
              Some (Handled u OnDrag
                            (OfDrag x y (Some start) (_getMousePos x y we.1)))
          | _ => None
          end) es.

Definition isDragCall (c : handled) : bool :=
  match c with
  | Handled _ (OnMouseUp | OnDrag | OnDrop) _ => true
  | _ => false
  end.

Definition isLongPress (c : handled) : bool :=
  match c with Handled _ OnLongPress _ => true | _ => false end.

(** The detector is in the middle of a drag of [u] begun at [start]. *)
Definition dragging (u : nat) (start : Point) (g : Gestures) : Prop :=
  Gesture._isDragging (detector g) = true
  /\ Gesture._dragStart (detector g) = Some start
  /\ Gesture._dragUnit (detector g) = Some u.

(** No drag is going on. *)
Definition idle (g : Gestures) : Prop :=
  Gesture._isDragging (detector g) = false
  \/ Gesture._dragUnit (detector g) = None.

(** Gestures other than a press, and the two that end a press. *)
Definition notPress (e : World * gesture) : Prop :=
  match e.2 with MouseDown _ _ => False | _ => True end.

Definition isRelease (e : World * gesture) : Prop :=
  match e.2 with MouseUp _ _ | MouseLeave _ _ => True | _ => False end.

(** The pointer moves and the hover task runs, over [two_units]. *)
Definition move_and_poll : list (World * gesture) :=
  [(two_units, MouseMove 60 70); (two_units, HoverPolling)].

(** ** Measured bounds *)

(** The object [{x, y, width, height}]. *)
Record Bounds := mkBounds {
  bounds_x : R; bounds_y : R; bounds_width : R; bounds_height : R
}.

(** [Math.min(...xs)] and [Math.max(...xs)] of a list that is not empty
    (of the empty list they are the two infinities; the lists below have
    four elements). *)
Definition Math_min_of (xs : list R) : R :=
  match xs with
  | [] => 0
  | x :: xs => foldl Rmin x xs
  end.

Definition Math_max_of (xs : list R) : R :=
  match xs with
  | [] => 0
  | x :: xs => foldl Rmax x xs
  end.

(** measuredBoundsDefaultFactory; the unit has its [scale] and [rot]. *)
Definition measuredBoundsDefault (unit : Unit.t) : Bounds :=
  let w := width (Unit.size unit) in
  let h := height (Unit.size unit) in
  let scaleX := px (Unit.scale unit) in
  let scaleY := py (Unit.scale unit) in
  let angle := px (Unit.rot unit) in
  (* Center of rotation *)
  let cx := (px (Unit.pos unit) + w / 2)%R in
  let cy := (py (Unit.pos unit) + h / 2)%R in
  (* Define the 4 corners relative to center *)
  let halfW := (w * scaleX / 2)%R in
  let halfH := (h * scaleY / 2)%R in
  let corners := [ mkPoint (- halfW) (- halfH); mkPoint halfW (- halfH);
                   mkPoint halfW halfH; mkPoint (- halfW) halfH ] in
  (* Rotate each corner and translate to absolute position *)
  let rotated :=
    (fun c => let rx := (px c * cos angle - py c * sin angle)%R in
              let ry := (px c * sin angle + py c * cos angle)%R in
              mkPoint (cx + rx) (cy + ry)) <$> corners in
  (* Find bounding box *)
  let xs := px <$> rotated in
  let ys := py <$> rotated in
  let minX := Math_min_of xs in
  let maxX := Math_max_of xs in
  let minY := Math_min_of ys in
  let maxY := Math_max_of ys in
  mkBounds minX minY (maxX - minX) (maxY - minY).

(** ** The hit test of a plotted line *)

Definition Rltb (a b : R) : bool := if Rlt_dec a b then true else false.

(** The helper [distToSegmentSquared] of hitTestLineFactory. *)
Definition distToSegmentSquared (px' py' x1 y1 x2 y2 : R) : R :=
  let l2 := ((x2 - x1) * (x2 - x1) + (y2 - y1) * (y2 - y1))%R in
  if Req_dec_T l2 0%R then
    ((px' - x1) * (px' - x1) + (py' - y1) * (py' - y1))%R
  else
    let t := (((px' - x1) * (x2 - x1) + (py' - y1) * (y2 - y1)) / l2)%R in
    let t := Rmax 0 (Rmin 1 t) in
    let projX := (x1 + t * (x2 - x1))%R in
    let projY := (y1 + t * (y2 - y1))%R in
    ((px' - projX) * (px' - projX) + (py' - projY) * (py' - projY))%R.

(** The fields of a unit that hitTestLineFactory reads. *)
Record LineUnit := mkLineUnit {
  startPos : Point;
  endPos : Point;
  fn : R -> R;
  segments : nat
}.

(** The point the loop computes for index [i]. *)
Definition linePoint (unit : LineUnit) (i : nat) : Point :=
  let dx := (px (endPos unit) - px (startPos unit))%R in
  let dy := (py (endPos unit) - py (startPos unit))%R in
  let t := (INR i / INR (segments unit))%R in
  mkPoint (px (startPos unit) + dx * t)
          (py (startPos unit) + dy * t + fn unit t).

(** The loop once [last] is set: it returns at the first segment that is
    near enough. *)
Fixpoint hitTestLine_from (tolerance x y : R) (last : Point)
         (points : list Point) : bool :=
  match points with
  | [] => false
  | p :: rest =>
      let distSq :=
        distToSegmentSquared x y (px last) (py last) (px p) (py p) in
      if Rltb distSq (tolerance * tolerance) then true
      else hitTestLine_from tolerance x y p rest
  end.

(** hitTestLineFactory, for [i] from 0 to [segments]; the first round
    only sets [last]. *)
Definition hitTestLine (unit : LineUnit) (x y : R) : bool :=
  let tolerance := 6%R in
  match linePoint unit <$> seq 0 (S (segments unit)) with
  | [] => false
  | p0 :: rest => hitTestLine_from tolerance x y p0 rest
  end.

(** The point at parameter [s] of the segment from [a] to [b], and the
    squared distance of two points. *)
Definition along (a b : Point) (s : R) : Point :=
  mkPoint (px a + s * (px b - px a)) (py a + s * (py b - py a)).

Definition distSquared (p q : Point) : R :=
  ((px p - px q) * (px p - px q) + (py p - py q) * (py p - py q))%R.

(** ** Interpolation functions, over the reals *)

(** sinusoidal function *)
Definition easeInOut1 (x : R) : R := (sin (PI * x - PI / 2) / 2 + 0.5)%R.

(** faster, sigmoid function; [Math.pow(Math.E, y)] is [exp y]. *)
Definition easeInOut2 (x : R) : R := (1 / (1 + exp (-10 * (x - 0.5))))%R.

(** ** debugConsole (the runner scripts) *)

(** The [Set] of listeners that [window.debugConsole] closes over, in
    insertion order. *)
Record DebugConsole := mkDebugConsole { listeners : list nat }.

Definition DebugConsole_new : DebugConsole := mkDebugConsole [].

(** [listeners.add(listener)]: a member keeps its place. *)
Definition subscribe (listener : nat) (c : DebugConsole) : DebugConsole :=
  if bool_decide (listener ∈ listeners c) then c
  else mkDebugConsole (listeners c ++ [listener]).

(** The function [subscribe] returns: [listeners.delete(listener)]. *)
Definition unsubscribe (listener : nat) (c : DebugConsole) : DebugConsole :=
  mkDebugConsole (filter (fun l => l ≠ listener) (listeners c)).

(** The loop of [log]: each listener is called inside [try], and what it
    throws is handed to [console.warn].  The result is the state after the
    calls together with the exceptions warned about; there is none when a
    listener exhausts the recursion budget. *)
Fixpoint log_each (store_set : string -> value -> World -> outcome)
         (msg : string) (ls : list nat) (w : World) (warned : list error)
  : option (World * list error) :=
  match ls with
  | [] => Some (w, warned)
  | listener :: rest =>
      match invoke store_set listener (VStr msg) w with
      | Done w' => log_each store_set msg rest w' warned
      | Throws e w' => log_each store_set msg rest w' (warned ++ [e])
      | OutOfFuel => None
      end
  end.

(** [log(...args)], the arguments given as their [String(arg)] images. *)
Definition log (store_set : string -> value -> World -> outcome)
           (args : list string) (c : DebugConsole) (w : World)
  : option (World * list error) :=
  let msg := String.concat " " args in
  log_each store_set msg (listeners c) w [].

(** What a host callback throws when called with [v], if anything. *)
Definition thrown (w : World) (v : value) (fn : nat) : option error :=
  match functions w !! fn with
  | Some (Host throws) => throws v
  | _ => None
  end.

Definition isHost (w : World) (fn : nat) : Prop :=
  exists throws, functions w !! fn = Some (Host throws).

(** ** createSliderUnit: the value and the thumb *)

(** What [onClick] of the track and [onDrag], [onDrop] of the thumb pass
    to [store.set], [relX] being the pointer's x relative to the track. *)
Definition sliderValue (min max width relX : R) : option R :=
  let range := (max - min)%R in
  let clampedX := Rmax 0 (Rmin relX width) in
  match jsdiv clampedX width with
  | Some progress => Some (min + progress * range)%R
  | None => None
  end.

(** The x the thumb's [onDataChange] handler gives the thumb. *)
Definition thumbX (min max width trackX thumbSize val : R) : option R :=
  let range := (max - min)%R in
  match jsdiv (val - min) range with
  | Some progress => Some (trackX + progress * width - thumbSize / 2)%R
  | None => None
  end.

(** The function an entry of the call log names, and the calls made
    between two states. *)
Definition callee (e : event) : nat :=
  match e with Invoked fn _ => fn end.

Definition newCalls (w w' : World) : list event :=
  drop (length (calls w)) (calls w').

(** ** createBarChart: one bar *)

(** What the bar's [onDataChange] handler reads and writes: the variable
    [observedMax] it closes over, and [bar.size.height], [bar.pos.y]. *)
Record Bar := mkBar { observedMax : R; bar_height : R; bar_y : R }.

(** The bar as created: [observedMax = 1], height 0, [pos.y = baseY]. *)
Definition Bar_new (baseY : R) : Bar := mkBar 1 0 baseY.

(** The handler.  [observedMax] starts at 1 and never decreases, so the
    division is by a number that is not zero. *)
Definition barDataChange (baseY barHeight : R) (b : Bar) (val : R) : Bar :=
  let observedMax := if Rltb (observedMax b) val then val else observedMax b in
  let h := (val / observedMax * barHeight)%R in
  mkBar observedMax h (baseY + (barHeight - h))%R.

(** * Properties *)

(** ** TaskScheduler: names stay unique *)

Section SchedulerLists.
Implicit Types (l : list Task.t) (s : TaskScheduler) (n : string).

Lemma names_filter_NoDup (P : Task.t -> Prop) `{!∀ x, Decision (P x)} l :
  NoDup (Task.name <$> l) -> NoDup (Task.name <$> filter P l).
Proof.
  induction l as [|t l IH]; simpl; [done|].
  rewrite NoDup_cons. intros [Hnotin Hnd].
  rewrite filter_cons. destruct (decide (P t)); [|auto].
  rewrite fmap_cons. apply NoDup_cons. split; [|auto].
  intros Hin. apply Hnotin.
  apply list_elem_of_fmap in Hin as (x & -> & Hx).
  apply list_elem_of_filter in Hx as [_ Hx].
  apply list_elem_of_fmap. eauto.
Qed.

Lemma remove_names_NoDup n s :
  NoDup (Task.name <$> tasks s) -> NoDup (Task.name <$> tasks (remove n s)).
Proof. apply names_filter_NoDup. Qed.

Lemma remove_absent n s : n ∉ Task.name <$> tasks (remove n s).
Proof.
  simpl. intros Hin. apply list_elem_of_fmap in Hin as (x & -> & Hx).
  apply list_elem_of_filter in Hx as [Hx _]. by apply Hx.
Qed.

Lemma push_names_NoDup n s (t : Task.t) :
  Task.name t = n ->
  NoDup (Task.name <$> tasks s) ->
  NoDup (Task.name <$> (tasks (remove n s) ++ [t])).
Proof.
  intros Hn Hnd. rewrite fmap_app. apply NoDup_app. split_and!.
  - by apply remove_names_NoDup.
  - intros x Hx Hx'. simpl in Hx'. apply list_elem_of_singleton in Hx'.
    subst x. rewrite Hn in Hx. by apply (remove_absent n s).
  - simpl. apply NoDup_singleton.
Qed.

Lemma names_fmap_same (g : Task.t -> Task.t) l :
  (forall x, Task.name (g x) = Task.name x) ->
  Task.name <$> (g <$> l) = Task.name <$> l.
Proof.
  intros Hg. rewrite <- list_fmap_compose. apply list_fmap_ext.
  intros _ x _. apply Hg.
Qed.

Lemma run_name (t : Task.t) now :
  Task.name (run t now).1.2 = Task.name t.
Proof.
  unfold run. destruct (Task.anim t); simpl; [done|].
  by case_bool_decide.
Qed.

Lemma notifyResumed_name now (t : Task.t) :
  Task.name (notifyResumed now t) = Task.name t.
Proof.
  unfold notifyResumed. destruct (Task.pausedAt t); [|done].
  by destruct (Task.anim t).
Qed.

Lemma loop_tasks_names_NoDup now l s :
  NoDup (Task.name <$> tasks s) ->
  NoDup (Task.name <$> tasks (loop_tasks now l s)).
Proof.
  revert s. induction l as [|t l IH]; intros s Hnd; simpl; [done|].
  destruct (isPaused s t); [by apply IH|].
  destruct (shouldRun t now); [|by apply IH].
  destruct (run t now) as [[c t'] active]. apply IH.
  destruct active; simpl.
  - rewrite (names_fmap_same _ (tasks s)); [done|]. intros x. by case_decide.
  - apply names_filter_NoDup.
    rewrite (names_fmap_same _ (tasks s)); [done|]. intros x. by case_decide.
Qed.

Lemma perform_names_NoDup s (c : call) :
  NoDup (Task.name <$> tasks s) ->
  NoDup (Task.name <$> tasks (perform s c)).
Proof.
  intros Hnd. destruct c; simpl.
  - by apply push_names_NoDup.
  - by apply push_names_NoDup.
  - by apply names_filter_NoDup.
  - done.
  - unfold loop. destruct (running s); [|done].
    by apply loop_tasks_names_NoDup.
  - rewrite names_fmap_same; [done|]. intros x. by case_bool_decide.
  - rewrite names_fmap_same; [done|]. intros x.
    case_bool_decide; [apply notifyResumed_name|done].
  - destruct channel; simpl; [|apply NoDup_nil_2].
    by apply names_filter_NoDup.
Qed.

Lemma performAll_names_NoDup (cs : list call) s :
  NoDup (Task.name <$> tasks s) ->
  NoDup (Task.name <$> tasks (performAll cs s)).
Proof.
  revert s. induction cs as [|c cs IH]; intros s Hnd; simpl; [done|].
  apply IH. by apply perform_names_NoDup.
Qed.

Lemma reachable_names_NoDup (cs : list call) :
  NoDup (Task.name <$> tasks (performAll cs TaskScheduler_new)).
Proof. apply performAll_names_NoDup. simpl. apply NoDup_nil_2. Qed.

Lemma push_scheduled n s (t : Task.t) :
  Task.name t = n ->
  filter (fun x => Task.name x = n) (tasks (remove n s) ++ [t]) = [t].
Proof.
  intros Hn. rewrite filter_app.
  assert (filter (fun x => Task.name x = n) (tasks (remove n s)) = []) as ->.
  { simpl. induction (tasks s) as [|x l IH]; [done|].
    rewrite filter_cons. destruct (decide (Task.name x ≠ n)) as [Hx|Hx].
    - rewrite filter_cons. by destruct (decide (Task.name x = n)).
    - done. }
  rewrite filter_cons, decide_True by done. done.
Qed.
End SchedulerLists.

(** C4. Whatever calls have been made on a new scheduler, no two scheduled
    tasks share a name; and [add] or [addAnim] under a name leaves exactly
    one task of that name scheduled, the new one, whether or not the name
    was taken before. *)
Theorem task_names_unique (cs : list call) :
  let s := performAll cs TaskScheduler_new in
  NoDup (Task.name <$> tasks s)
  /\ (forall name delay repeat fn channels clock,
         filter (fun x => Task.name x = name)
                (tasks (add name delay repeat fn channels clock s))
         = [ScheduledTask_new name delay repeat fn channels clock]
         /\ NoDup (Task.name <$>
                     tasks (add name delay repeat fn channels clock s)))
  /\ (forall name startVal endVal curve duration fn channels startTime clock,
         filter (fun x => Task.name x = name)
                (tasks (addAnim name startVal endVal curve duration fn
                                channels startTime clock s))
         = [AnimationTask_new name startVal endVal curve duration fn
                              channels startTime clock]
         /\ NoDup (Task.name <$>
                     tasks (addAnim name startVal endVal curve duration fn
                                    channels startTime clock s))).
Proof.
  intros s. pose proof (reachable_names_NoDup cs) as Hnd. fold s in Hnd.
  split; [exact Hnd|]. split.
  - intros. split; [by apply push_scheduled|by apply push_names_NoDup].
  - intros. split; [by apply push_scheduled|by apply push_names_NoDup].
Qed.

(** ** TaskScheduler: one frame, task by task *)

Section Frames.
Implicit Types (l : list Task.t) (s : TaskScheduler) (n : string).

Lemma filter_all {A} (P : A -> Prop) `{!∀ x, Decision (P x)} (l : list A) :
  Forall P l -> filter P l = l.
Proof.
  induction 1 as [|x l Hx _ IH]; [done|].
  by rewrite filter_cons, decide_True, IH.
Qed.

Lemma filter_none {A} (P : A -> Prop) `{!∀ x, Decision (P x)} (l : list A) :
  Forall (fun x => ~ P x) l -> filter P l = [].
Proof.
  induction 1 as [|x l Hx _ IH]; [done|].
  by rewrite filter_cons, decide_False.
Qed.

Lemma visit_name now paused (t t' : Task.t) :
  (visit now paused t).2 = Some t' -> Task.name t' = Task.name t.
Proof.
  unfold visit. destruct (existsb _ _); simpl; [congruence|].
  destruct (shouldRun t now); simpl; [|congruence].
  pose proof (run_name t now) as Hn.
  destruct (run t now) as [[c t1] active]; simpl in *.
  destruct active; [|done]. congruence.
Qed.

Lemma visit_fired now paused (t : Task.t) c :
  (visit now paused t).1 = Some c -> fired_task c = Task.name t.
Proof.
  unfold visit. destruct (existsb _ _); simpl; [congruence|].
  destruct (shouldRun t now); simpl; [|congruence].
  unfold run. destruct (Task.anim t); simpl; intros [= <-]; done.
Qed.

Lemma mutate_unique (done todo : list Task.t) (t t' : Task.t) :
  Task.name t' = Task.name t ->
  NoDup (Task.name <$> (done ++ t :: todo)) ->
  (fun x => if decide (Task.name x = Task.name t') then t' else x)
    <$> (done ++ t :: todo) = done ++ t' :: todo.
Proof.
  intros Hn Hnd. rewrite fmap_app, fmap_cons in Hnd.
  apply NoDup_app in Hnd as (_ & Hdisj & Hnd).
  apply NoDup_cons in Hnd as [Hnotin _].
  rewrite fmap_app, fmap_cons. rewrite decide_True by done.
  f_equal; [|f_equal].
  - rewrite <- (list_fmap_id done) at 2. apply list_fmap_ext.
    intros i x Hx. case_decide as Hd; [|done]. exfalso.
    apply (Hdisj (Task.name x)).
    + apply list_elem_of_fmap. exists x. split; [done|].
      by eapply list_elem_of_lookup_2.
    + rewrite Hd, Hn. apply list_elem_of_here.
  - rewrite <- (list_fmap_id todo) at 2. apply list_fmap_ext.
    intros i x Hx. case_decide as Hd; [|done]. exfalso.
    apply Hnotin. rewrite <- Hn, <- Hd.
    apply list_elem_of_fmap. exists x. split; [done|].
    by eapply list_elem_of_lookup_2.
Qed.

Lemma remove_unique (done todo : list Task.t) (t : Task.t) n :
  Task.name t = n ->
  NoDup (Task.name <$> (done ++ t :: todo)) ->
  filter (fun x => Task.name x ≠ n) (done ++ t :: todo) = done ++ todo.
Proof.
  intros Hn Hnd. rewrite fmap_app, fmap_cons in Hnd.
  apply NoDup_app in Hnd as (_ & Hdisj & Hnd).
  apply NoDup_cons in Hnd as [Hnotin _].
  rewrite filter_app, filter_cons, decide_False by (intros H; by apply H).
  f_equal.
  - apply filter_all. apply Forall_forall. intros x Hx Hd.
    apply (Hdisj (Task.name x)).
    + apply list_elem_of_fmap. eauto.
    + rewrite Hd, <- Hn. apply list_elem_of_here.
  - apply filter_all. apply Forall_forall. intros x Hx Hd.
    apply Hnotin. rewrite Hn, <- Hd. apply list_elem_of_fmap. eauto.
Qed.

Lemma visit_paused now s (t : Task.t) :
  isPaused s t = true -> visit now (pausedChannels s) t = (None, Some t).
Proof. unfold isPaused, visit. by intros ->. Qed.

Lemma visit_idle now s (t : Task.t) :
  isPaused s t = false -> shouldRun t now = false ->
  visit now (pausedChannels s) t = (None, Some t).
Proof. unfold isPaused, visit. by intros -> ->. Qed.

Lemma visit_run now s (t t' : Task.t) c active :
  isPaused s t = false -> shouldRun t now = true ->
  run t now = (c, t', active) ->
  visit now (pausedChannels s) t
  = (Some c, if active then Some t' else None).
Proof. unfold isPaused, visit. by intros -> -> ->. Qed.

Lemma omap_cons_eq {A B} (f : A -> option B) x (l : list A) :
  omap f (x :: l)
  = match f x with Some y => y :: omap f l | None => omap f l end.
Proof. done. Qed.

Lemma loop_tasks_visit now (todo : list Task.t) :
  forall (done : list Task.t) s,
    tasks s = done ++ todo ->
    NoDup (Task.name <$> (done ++ todo)) ->
    loop_tasks now todo s
    = with_fires
        (fires s ++ omap (fun t => (visit now (pausedChannels s) t).1) todo)
        (with_tasks
           (done ++ omap (fun t => (visit now (pausedChannels s) t).2) todo)
           s).
Proof.
  induction todo as [|t todo IH]; intros done s Hs Hnd.
  - destruct s; simpl in *; subst. by rewrite !app_nil_r.
  - cbn [loop_tasks]. rewrite !omap_cons_eq.
    destruct (isPaused s t) eqn:Hp.
    { rewrite visit_paused by done. cbn [fst snd].
      rewrite (IH (done ++ [t]) s).
      - by rewrite <- app_assoc.
      - by rewrite <- app_assoc.
      - by rewrite <- app_assoc. }
    destruct (shouldRun t now) eqn:Hdue.
    2:{ rewrite visit_idle by done. cbn [fst snd].
      rewrite (IH (done ++ [t]) s).
      - by rewrite <- app_assoc.
      - by rewrite <- app_assoc.
      - by rewrite <- app_assoc. }
    pose proof (run_name t now) as Hname.
    destruct (run t now) as [[c t'] active] eqn:Hrun; simpl in Hname.
    rewrite (visit_run now s t t' c active) by done. cbn [fst snd].
    assert (tasks (mutate t' s) = done ++ t' :: todo) as Hmut.
    { simpl. rewrite Hs. by apply mutate_unique. }
    assert (NoDup (Task.name <$> (done ++ t' :: todo))) as Hnd'.
    { revert Hnd. rewrite !fmap_app, !fmap_cons. by rewrite Hname. }
    destruct active.
    + rewrite (IH (done ++ [t'])).
      * destruct s; simpl in *. rewrite <- !app_assoc. done.
      * simpl. simpl in Hmut. rewrite Hmut. by rewrite <- app_assoc.
      * by rewrite <- app_assoc.
    + rewrite (IH done).
      * destruct s; simpl in *. rewrite <- !app_assoc. done.
      * simpl. simpl in Hmut. rewrite Hmut.
        apply remove_unique; [done|]. done.
      * revert Hnd'. rewrite !fmap_app, !fmap_cons.
        intros H. apply NoDup_app in H as (H1 & H2 & H3).
        apply NoDup_cons in H3 as [H3 H4].
        apply NoDup_app. split_and!; [done| |done].
        intros x Hx Hx'. apply (H2 x Hx). by apply list_elem_of_further.
Qed.

(** One frame of a running scheduler with distinct names visits every
    task once, independently of the others. *)
Lemma loop_visit now s :
  running s = true ->
  NoDup (Task.name <$> tasks s) ->
  loop now s
  = mkTaskScheduler
      (omap (fun t => (visit now (pausedChannels s) t).2) (tasks s))
      true now (pausedChannels s)
      (fires s ++ omap (fun t => (visit now (pausedChannels s) t).1) (tasks s)).
Proof.
  intros Hr Hnd. unfold loop. rewrite Hr.
  rewrite (loop_tasks_visit now _ [] (with_now now s)); [|done|done].
  destruct s; simpl in *. by subst.
Qed.

Lemma loop_stopped now s : running s = false -> loop now s = s.
Proof. intros Hr. unfold loop. by rewrite Hr. Qed.

Lemma scheduled_omap (f : Task.t -> option Task.t) n l :
  (forall t t', f t = Some t' -> Task.name t' = Task.name t) ->
  NoDup (Task.name <$> l) ->
  head (filter (fun x => Task.name x = n) (omap f l))
  = head (filter (fun x => Task.name x = n) l) ≫= f.
Proof.
  intros Hf. induction l as [|t l IH]; intros Hnd; [done|].
  rewrite fmap_cons in Hnd. apply NoDup_cons in Hnd as [Hnotin Hnd].
  rewrite filter_cons, omap_cons_eq.
  destruct (decide (Task.name t = n)) as [Hn|Hn]; simpl.
  - destruct (f t) as [t'|] eqn:Hft.
    + rewrite filter_cons, decide_True; [done|].
      by rewrite (Hf _ _ Hft).
    + rewrite IH by done.
      assert (filter (fun x => Task.name x = n) l = []) as ->; [|done].
      apply filter_none. apply Forall_forall. intros x Hx Hd.
      apply Hnotin. rewrite Hn, <- Hd. apply list_elem_of_fmap. eauto.
  - destruct (f t) as [t'|] eqn:Hft.
    + rewrite filter_cons, decide_False; [by apply IH|].
      by rewrite (Hf _ _ Hft).
    + by apply IH.
Qed.

Lemma scheduled_fmap (g : Task.t -> Task.t) n l :
  (forall t, Task.name (g t) = Task.name t) ->
  head (filter (fun x => Task.name x = n) (g <$> l))
  = g <$> head (filter (fun x => Task.name x = n) l).
Proof.
  intros Hg. induction l as [|t l IH]; [done|].
  rewrite fmap_cons, !filter_cons, Hg.
  destruct (decide (Task.name t = n)); [done|apply IH].
Qed.

Lemma fired_omap (h : Task.t -> option fired) n l :
  (forall t c, h t = Some c -> fired_task c = Task.name t) ->
  NoDup (Task.name <$> l) ->
  length (filter (fun c => fired_task c = n) (omap h l))
  = match head (filter (fun x => Task.name x = n) l) ≫= h with
    | Some _ => 1%nat
    | None => 0%nat
    end.
Proof.
  intros Hh. induction l as [|t l IH]; intros Hnd; [done|].
  rewrite fmap_cons in Hnd. apply NoDup_cons in Hnd as [Hnotin Hnd].
  rewrite filter_cons, omap_cons_eq.
  destruct (decide (Task.name t = n)) as [Hn|Hn]; simpl.
  - assert (filter (fun x => Task.name x = n) l = []) as Hnone.
    { apply filter_none. apply Forall_forall. intros x Hx Hd.
      apply Hnotin. rewrite Hn, <- Hd. apply list_elem_of_fmap. eauto. }
    specialize (IH Hnd). rewrite Hnone in IH. simpl in IH.
    destruct (h t) as [c|] eqn:Hht; [|done].
    rewrite filter_cons, decide_True by (by rewrite (Hh _ _ Hht)).
    simpl. by rewrite IH.
  - destruct (h t) as [c|] eqn:Hht; [|by apply IH].
    rewrite filter_cons, decide_False by (by rewrite (Hh _ _ Hht)).
    by apply IH.
Qed.

(** The effect of one frame on the task of a given name. *)
Lemma loop_scheduled now s n :
  running s = true ->
  NoDup (Task.name <$> tasks s) ->
  scheduled n (loop now s)
  = scheduled n s ≫= (fun t => (visit now (pausedChannels s) t).2).
Proof.
  intros Hr Hnd. rewrite loop_visit by done. unfold scheduled. simpl.
  apply scheduled_omap; [|done]. intros t t'. apply visit_name.
Qed.

Lemma loop_fireCount now s n :
  running s = true ->
  NoDup (Task.name <$> tasks s) ->
  fireCount n (loop now s)
  = (fireCount n s
     + match scheduled n s ≫= (fun t => (visit now (pausedChannels s) t).1) with
       | Some _ => 1
       | None => 0
       end)%nat.
Proof.
  intros Hr Hnd. rewrite loop_visit by done. unfold fireCount, scheduled.
  simpl. rewrite filter_app, length_app. f_equal.
  apply fired_omap; [|done]. intros t c. apply visit_fired.
Qed.
End Frames.

(** ** ScheduledTask: the repeat count *)

Section RepeatCount.
Implicit Types (l : list Task.t) (s : TaskScheduler).

Lemma scheduled_unique n l (x : Task.t) :
  NoDup (Task.name <$> l) -> x ∈ l -> Task.name x = n ->
  head (filter (fun y => Task.name y = n) l) = Some x.
Proof.
  induction l as [|t l IH]; intros Hnd Hx Hn; [by apply elem_of_nil in Hx|].
  rewrite fmap_cons in Hnd. apply NoDup_cons in Hnd as [Hnotin Hnd].
  rewrite filter_cons. apply elem_of_cons in Hx as [->|Hx].
  - by rewrite decide_True.
  - rewrite decide_False; [by apply IH|].
    intros Ht. apply Hnotin. rewrite Ht, <- Hn.
    apply list_elem_of_fmap. eauto.
Qed.

Lemma scheduled_elem n s (t : Task.t) :
  scheduled n s = Some t -> t ∈ tasks s /\ Task.name t = n.
Proof.
  unfold scheduled. intros H.
  assert (t ∈ filter (fun y => Task.name y = n) (tasks s)) as Hin.
  { destruct (filter _ (tasks s)); simplify_eq/=. apply list_elem_of_here. }
  by apply list_elem_of_filter in Hin as [? ?].
Qed.

Lemma scheduled_filter (P : Task.t -> Prop) `{!∀ x, Decision (P x)} n l :
  (forall x, x ∈ l -> Task.name x = n -> P x) ->
  filter (fun y => Task.name y = n) (filter P l)
  = filter (fun y => Task.name y = n) l.
Proof.
  induction l as [|t l IH]; intros HP; [done|].
  rewrite !filter_cons.
  destruct (decide (P t)) as [Ht|Ht].
  - rewrite filter_cons. rewrite IH; [done|].
    intros x Hx. apply HP. by apply list_elem_of_further.
  - rewrite decide_False.
    + apply IH. intros x Hx. apply HP. by apply list_elem_of_further.
    + intros Hn. apply Ht. apply HP; [apply list_elem_of_here|done].
Qed.

Lemma scheduled_remove_other n n' s :
  n' ≠ n -> scheduled n (remove n' s) = scheduled n s.
Proof.
  intros Hne. unfold scheduled. simpl. rewrite scheduled_filter; [done|].
  intros x _ Hx. by rewrite Hx.
Qed.

Lemma scheduled_push_other n s (t : Task.t) :
  Task.name t ≠ n ->
  scheduled n (with_tasks (tasks s ++ [t]) s) = scheduled n s.
Proof.
  intros Hne. unfold scheduled. simpl.
  rewrite filter_app, filter_cons, decide_False by done.
  by rewrite filter_nil, app_nil_r.
Qed.

Context (name : string) (channels : list string) (n : Z) (base : nat).
Hypothesis n_nonneg : (0 <= n)%Z.

Lemma countdown_frame now s :
  countdown name channels n base s ->
  countdown name channels n base (loop now s).
Proof.
  intros (Hnd & Hbase & Hinv).
  destruct (running s) eqn:Hr; [|by rewrite loop_stopped].
  pose proof (loop_scheduled now s name Hr Hnd) as Hs.
  pose proof (loop_fireCount now s name Hr Hnd) as Hc.
  pose proof (perform_names_NoDup s (Frame now) Hnd) as Hnd'.
  simpl in Hnd'.
  split; [done|]. split; [lia|].
  cbv zeta in Hinv |- *. rewrite Hs, Hc.
  destruct (scheduled name s) as [t|] eqn:Hsch; simpl.
  2:{ by rewrite Nat.add_0_r. }
  destruct Hinv as (Ha & Hrep & Hch & Hrem & Hlt).
  destruct (isPaused s t) eqn:Hp.
  { rewrite visit_paused by done. simpl. by rewrite Nat.add_0_r. }
  destruct (shouldRun t now) eqn:Hdue.
  2:{ rewrite visit_idle by done. simpl. by rewrite Nat.add_0_r. }
  destruct (run t now) as [[c t'] active] eqn:Hrun.
  rewrite (visit_run now s t t' c active) by done. simpl.
  unfold run in Hrun. rewrite Ha in Hrun.
  rewrite bool_decide_true in Hrun by (rewrite Hrep; unfold INFINITE; lia).
  simpl in Hrun. injection Hrun as <- <- <-.
  case_bool_decide as Hact; simpl.
  - split_and!; try done; lia.
  - simpl in Hact. lia.
Qed.

Lemma countdown_perform s (c : call) :
  untouched name channels c ->
  countdown name channels n base s ->
  countdown name channels n base (perform s c).
Proof.
  intros Hu Hinv. destruct c; try (by apply countdown_frame).
  - destruct Hinv as (Hnd & Hbase & Hinv). simpl in Hu.
    split; [by apply (perform_names_NoDup s (Add _ _ _ _ _ _))|].
    split; [done|]. cbv zeta in Hinv |- *. simpl perform. unfold add.
    rewrite scheduled_push_other by done.
    by rewrite scheduled_remove_other.
  - destruct Hinv as (Hnd & Hbase & Hinv). simpl in Hu.
    split; [by apply (perform_names_NoDup s (AddAnim _ _ _ _ _ _ _ _ _))|].
    split; [done|]. cbv zeta in Hinv |- *. simpl perform. unfold addAnim.
    rewrite scheduled_push_other by done.
    by rewrite scheduled_remove_other.
  - destruct Hinv as (Hnd & Hbase & Hinv). simpl in Hu.
    split; [by apply (perform_names_NoDup s (Remove _))|].
    split; [done|]. cbv zeta in Hinv |- *. simpl perform.
    by rewrite scheduled_remove_other.
  - destruct Hinv as (Hnd & Hbase & Hinv). split; [done|]. by split.
  - destruct Hinv as (Hnd & Hbase & Hinv).
    split; [by apply (perform_names_NoDup s (Pause _))|].
    split; [done|]. cbv zeta in Hinv |- *. simpl perform.
    unfold scheduled at 1, pause. cbn [tasks].
    rewrite scheduled_fmap by (intros x; by case_bool_decide).
    fold (scheduled name s). change (fireCount name _) with (fireCount name s).
    destruct (scheduled name s) as [t|]; simpl; [|done].
    by case_bool_decide.
  - destruct Hinv as (Hnd & Hbase & Hinv).
    split; [by apply (perform_names_NoDup s (Resume _))|].
    split; [done|]. cbv zeta in Hinv |- *. simpl perform.
    unfold scheduled at 1, resume, start. cbn [tasks].
    rewrite scheduled_fmap
      by (intros x; case_bool_decide; [apply notifyResumed_name|done]).
    fold (scheduled name s). change (fireCount name _) with (fireCount name s).
    destruct (scheduled name s) as [t|]; simpl; [|done].
    case_bool_decide; [|done].
    destruct Hinv as (Ha & Hrep & Hch & Hrem & Hlt).
    unfold notifyResumed. destruct (Task.pausedAt t); [|done].
    rewrite Ha. done.
  - destruct Hinv as (Hnd & Hbase & Hinv).
    destruct channel as [ch|]; [|done]. simpl in Hu.
    split; [by apply (perform_names_NoDup s (Stop _))|].
    split; [done|]. cbv zeta in Hinv |- *. simpl perform.
    unfold scheduled at 1, stop. cbn [tasks].
    change (fireCount name _) with (fireCount name s).
    rewrite scheduled_filter; [done|].
    intros x Hx Hn.
    pose proof (scheduled_unique name (tasks s) x Hnd Hx Hn) as Hsch.
    fold (scheduled name s) in Hsch. rewrite Hsch in Hinv.
    destruct Hinv as (_ & _ & -> & _). done.
Qed.

Lemma countdown_performAll (cs : list call) s :
  Forall (untouched name channels) cs ->
  countdown name channels n base s ->
  countdown name channels n base (performAll cs s).
Proof.
  revert s. induction cs as [|c cs IH]; intros s Hu Hinv; [done|].
  apply Forall_cons in Hu as [Hc Hu]. simpl.
  apply IH; [done|]. by apply countdown_perform.
Qed.
End RepeatCount.

Lemma countdown_add name delay n fn channels clock s :
  NoDup (Task.name <$> tasks s) ->
  let s1 := add name delay n fn channels clock s in
  countdown name channels n (fireCount name s1) s1.
Proof.
  intros Hnd s1. split; [by apply push_names_NoDup|]. split; [done|].
  cbv zeta. unfold scheduled, s1, add. cbn [tasks with_tasks].
  rewrite push_scheduled by done. simpl.
  rewrite Nat.sub_diag. split_and!; try done; lia.
Qed.

(** C10. A plain task added with [repeat = n]: when [n >= 1] its callback
    is called at most [n] times, it stays scheduled with [n - k] runs
    remaining while it has been called [k < n] times, and it is no longer
    scheduled once it has been called [n] times.  When [n = 0] it is never
    removed: after [k] calls its [remaining] is [-k], which a run never
    brings to zero.  In both cases every frame of a running scheduler at
    which the task is scheduled, unpaused and due calls the callback once
    more.  The calls made in between may be any that leave this task's
    name and channels alone. *)
Theorem repeat_count (cs cs' : list call) name delay (n : Z) fn channels clock :
  (0 <= n)%Z ->
  Forall (untouched name channels) cs' ->
  let s1 := add name delay n fn channels clock
                (performAll cs TaskScheduler_new) in
  let s2 := performAll cs' s1 in
  let k := Z.of_nat (fireCount name s2 - fireCount name s1) in
  ((1 <= n)%Z ->
     (k <= n)%Z
     /\ ((k < n)%Z ->
         exists t, scheduled name s2 = Some t
                   /\ Task.remaining t = (n - k)%Z)
     /\ (k = n -> scheduled name s2 = None))
  /\ (n = 0%Z ->
        exists t, scheduled name s2 = Some t /\ Task.remaining t = (- k)%Z)
  /\ (forall t now,
         scheduled name s2 = Some t -> running s2 = true ->
         isPaused s2 t = false -> shouldRun t now = true ->
         fireCount name (loop now s2) = S (fireCount name s2)
         /\ (scheduled name (loop now s2) = None
             <-> Task.remaining t = 1%Z)).
Proof.
  intros Hn Hu s1 s2 k.
  pose proof (countdown_add name delay n fn channels clock _
                            (reachable_names_NoDup cs)) as H1.
  cbv zeta in H1. fold s1 in H1.
  pose proof (countdown_performAll name channels n _ Hn cs' s1 Hu H1) as H2.
  fold s2 in H2. destruct H2 as (Hnd & Hbase & Hinv).
  cbv zeta in Hinv. fold k in Hinv.
  split; [|split].
  - intros Hpos. destruct (scheduled name s2) as [t|].
    + destruct Hinv as (_ & _ & _ & Hrem & Hlt). split; [lia|].
      split; [eauto|]. lia.
    + destruct Hinv as [_ ->]. split; [lia|]. split; [lia|done].
  - intros ->. destruct (scheduled name s2) as [t|].
    + destruct Hinv as (_ & _ & _ & Hrem & _). exists t. split; [done|lia].
    + lia.
  - intros t now Hs Hr Hp Hdue.
    rewrite loop_fireCount, loop_scheduled by done. rewrite Hs in Hinv |- *.
    destruct Hinv as (Ha & Hrep & _ & Hrem & _). simpl.
    destruct (run t now) as [[c t'] active] eqn:Hrun.
    rewrite (visit_run now s2 t t' c active) by done. simpl.
    split; [lia|].
    unfold run in Hrun. rewrite Ha in Hrun.
    rewrite bool_decide_true in Hrun by (rewrite Hrep; unfold INFINITE; lia).
    simpl in Hrun. injection Hrun as <- <- <-.
    case_bool_decide as Hact; simpl.
    + split; [done|lia].
    + simpl in Hact. split; [lia|done].
Qed.

(** ** Pausing and resuming a channel *)

Section SchedulerTime.
Local Open Scope Q_scope.

Section PauseResume.
Implicit Types (s : TaskScheduler).

Lemma loop_pausedChannels now s :
  pausedChannels (loop now s) = pausedChannels s.
Proof.
  unfold loop. destruct (running s); [|done].
  assert (forall l s', pausedChannels (loop_tasks now l s') = pausedChannels s')
    as H; [|by rewrite H].
  induction l as [|t l IH]; intros s'; simpl; [done|].
  destruct (isPaused s' t); [apply IH|].
  destruct (shouldRun t now); [|apply IH].
  destruct (run t now) as [[c t'] active]. rewrite IH. by destruct active.
Qed.

Lemma isPaused_member s (t : Task.t) channel :
  channel ∈ Task.channels t -> channel ∈ pausedChannels s ->
  isPaused s t = true.
Proof.
  intros Hc Hp. unfold isPaused. apply existsb_exists.
  exists channel. split; [by apply list_elem_of_In|by apply bool_decide_eq_true].
Qed.

(** While one of its channels is paused, frames leave a task alone. *)
Lemma frames_while_paused name channel (t : Task.t) (nows : list Q) s :
  NoDup (Task.name <$> tasks s) ->
  scheduled name s = Some t ->
  channel ∈ Task.channels t -> channel ∈ pausedChannels s ->
  NoDup (Task.name <$> tasks (performAll (Frame <$> nows) s))
  /\ scheduled name (performAll (Frame <$> nows) s) = Some t
  /\ fireCount name (performAll (Frame <$> nows) s) = fireCount name s.
Proof.
  revert s. induction nows as [|now nows IH]; intros s Hnd Hs Hc Hp; [done|].
  change (performAll (Frame <$> now :: nows) s)
    with (performAll (Frame <$> nows) (loop now s)).
  destruct (running s) eqn:Hr.
  - assert (visit now (pausedChannels s) t = (None, Some t)) as Hv.
    { apply visit_paused. by eapply isPaused_member. }
    destruct (IH (loop now s)) as (H1 & H2 & H3).
    + by apply (perform_names_NoDup s (Frame now)).
    + rewrite loop_scheduled by done. rewrite Hs. simpl. by rewrite Hv.
    + done.
    + by rewrite loop_pausedChannels.
    + split; [done|]. split; [done|]. rewrite H3.
      rewrite loop_fireCount by done. rewrite Hs. simpl. rewrite Hv. simpl.
      lia.
  - rewrite loop_stopped by done. by apply IH.
Qed.
End PauseResume.

(** What pause and resume do to a plain task [T], on the scheduler's own
    clock [now], which is the time of the last frame seen while running
    and 0 before the first: the frames in between do not run the task,
    resuming moves [lastRun] forward by the difference [P] of that clock
    between resume and pause and clears [pausedAt], and afterwards the
    task is due exactly from [lastRun + delay + P] on. *)
Lemma pause_resume_on_scheduler_clock (cs : list call) (name channel : string)
        (T : Task.t) (nows : list Q) :
  let s := performAll cs TaskScheduler_new in
  scheduled name s = Some T ->
  Task.anim T = None ->
  channel ∈ Task.channels T ->
  let s1 := pause channel s in
  let s2 := performAll (Frame <$> nows) s1 in
  let s3 := resume channel s2 in
  let P := now s2 - now s in
  let T' := Task.with_pausedAt None
              (Task.with_lastRun (Task.lastRun T + P) T) in
  fireCount name s2 = fireCount name s
  /\ scheduled name s3 = Some T'
  /\ (forall t, shouldRun T t = true
                <-> Task.lastRun T + Task.delay T <= t)
  /\ (forall t, shouldRun T' t = true
                <-> Task.lastRun T + Task.delay T + P <= t).
Proof.
  intros s Hs Hplain Hch s1 s2 s3 P T'.
  pose proof (reachable_names_NoDup cs) as Hnd. fold s in Hnd.
  assert (scheduled name s1 = Some (notifyPaused (now s) T)) as Hs1.
  { unfold scheduled, s1, pause. cbn [tasks].
    rewrite scheduled_fmap by (intros x; by case_bool_decide).
    fold (scheduled name s). rewrite Hs. simpl. by rewrite bool_decide_true. }
  destruct (frames_while_paused name channel (notifyPaused (now s) T) nows s1)
    as (Hnd2 & Hs2 & Hc2).
  { by apply (perform_names_NoDup s (Pause channel)). }
  { done. }
  { done. }
  { simpl. set_solver. }
  fold s2 in Hnd2, Hs2, Hc2.
  split; [by rewrite Hc2|]. split; [|split].
  - unfold scheduled, s3, resume, start. cbn [tasks].
    rewrite scheduled_fmap
      by (intros x; case_bool_decide; [apply notifyResumed_name|done]).
    fold (scheduled name s2). rewrite Hs2. simpl.
    rewrite bool_decide_true by done.
    unfold notifyResumed. simpl. rewrite Hplain. done.
  - intros t. unfold shouldRun. rewrite Qle_bool_iff. split; intros H; lra.
  - intros t. unfold shouldRun, T'. simpl. rewrite Qle_bool_iff.
    split; intros H; lra.
Qed.

(** C5.  The shift is not the paused duration.  [lastRun] is stamped with
    the real clock, but pause and resume hand [notifyPaused] and
    [notifyResumed] the scheduler's [now], the time of the last frame,
    which is 0 until the first frame.  A task with a delay of 100 is
    created at 1000; the scheduler is started and "global" is paused
    before the first frame, frames come at 2000 and 6000, and "global" is
    resumed.  The pause is recorded at 0 and the resume at 6000, so
    [lastRun] becomes 1000 + 6000 = 7000: the frames at 6500 and 7000 do
    not call the task, the frame at 7100 does.  Shifted by the paused
    duration [t_r - t_p], [lastRun] would be 1000 + (t_r - t_p): with the
    pause no earlier than the creation and the resume no later than 6400,
    the task would be due at the frame at 6500, whatever the two
    instants. *)
Theorem pause_before_first_frame_overshoots :
  let s := performAll before_first_frame TaskScheduler_new in
  let s1 := pause "global" s in
  let s2 := performAll [Frame 2000; Frame 6000] s1 in
  let s3 := resume "global" s2 in
  let T' := Task.with_pausedAt None
              (Task.with_lastRun (1000 + (6000 - 0)) late_tick) in
  scheduled "tick" s = Some late_tick
  /\ now s = 0
  /\ scheduled "tick" s1 = Some (Task.with_pausedAt (Some 0) late_tick)
  /\ now s2 = 6000
  /\ scheduled "tick" s3 = Some T'
  /\ shouldRun T' 6500 = false
  /\ shouldRun T' 7000 = false
  /\ fireCount "tick" (performAll [Frame 6500; Frame 7000] s3) = 0%nat
  /\ fireCount "tick" (performAll [Frame 6500; Frame 7000; Frame 7100] s3)
     = 1%nat
  /\ (forall t_p t_r : Q,
         1000 <= t_p -> t_r <= 6400 ->
         shouldRun (Task.with_lastRun (1000 + (t_r - t_p)) late_tick) 6500
         = true).
Proof.
  cbv zeta. repeat (split; [by vm_compute|]).
  intros t_p t_r Hp Hr. unfold shouldRun. apply Qle_bool_iff. simpl. lra.
Qed.

(** ** AnimationTask: interpolation and completion *)

Section Animation.
Lemma Qle_bool_false (a b : Q) : Qle_bool a b = false <-> b < a.
Proof.
  split.
  - intros H. apply Qnot_le_lt. intros Hle.
    apply Qle_bool_iff in Hle. congruence.
  - intros H. destruct (Qle_bool a b) eqn:E; [|done].
    apply Qle_bool_iff in E. lra.
Qed.

Lemma Qltb_true (a b : Q) : Qltb a b = true <-> a < b.
Proof.
  unfold Qltb. rewrite negb_true_iff. apply Qle_bool_false.
Qed.

Lemma Qltb_false (a b : Q) : Qltb a b = false <-> b <= a.
Proof.
  unfold Qltb. rewrite negb_false_iff. apply Qle_bool_iff.
Qed.

Lemma clamp_bounds (x : Q) :
  0 <= Math_min 1 (Math_max 0 x) <= 1.
Proof.
  unfold Math_min, Math_max.
  destruct (Qle_bool 0 x) eqn:E0.
  - apply Qle_bool_iff in E0. destruct (Qle_bool 1 x) eqn:E1; [lra|].
    apply Qle_bool_false in E1. lra.
  - simpl. lra.
Qed.

Lemma clamp_inside (x : Q) :
  0 <= x <= 1 -> Math_min 1 (Math_max 0 x) == x.
Proof.
  intros [H0 H1]. unfold Math_min, Math_max.
  apply Qle_bool_iff in H0 as ->.
  destruct (Qle_bool 1 x) eqn:E1; [|reflexivity].
  apply Qle_bool_iff in E1. lra.
Qed.

Lemma rawProgress_finite (elapsed D : Q) :
  ~ D == 0 ->
  rawProgress elapsed D = Finite (Math_min 1 (Math_max 0 (elapsed / D))).
Proof.
  intros HD. unfold rawProgress.
  destruct (Qeq_bool D 0) eqn:E; [|done].
  by apply Qeq_bool_iff in E.
Qed.
End Animation.

(** C6. An animation task with the identity curve, start value 0, end
    value 10 and a non-zero duration [D], run at [now]: with
    [elapsed = now - animStart - totalPausedTime], the callback receives a
    value between 0 and 10, namely 0 when [elapsed = 0] and 10 when
    [elapsed = D]; the run reports the task inactive exactly when
    [elapsed >= D]; and a frame of a running scheduler in which the task is
    scheduled, unpaused and due makes that call and leaves the task
    scheduled exactly when [elapsed < D]. *)
Theorem animation_completion (T : Task.t) (a : Task.animation) (now : Q) :
  Task.anim T = Some a ->
  (forall x, Task.curve a x == x) ->
  Task.startVal a == 0 ->
  Task.endVal a == 10 ->
  ~ Task.duration a == 0 ->
  let D := Task.duration a in
  let elapsed := now - Task.animStart a - Task.totalPausedTime T in
  exists v active,
    run T now = (Fired (Task.name T) (Task.fn T) (Some (Finite v)),
                 Task.with_lastRun now T, active)
    /\ 0 <= v <= 10
    /\ (elapsed == 0 -> v == 0)
    /\ (elapsed == D -> v == 10)
    /\ (active = false <-> D <= elapsed)
    /\ (forall (cs : list call) (name : string),
           let s := performAll cs TaskScheduler_new in
           scheduled name s = Some T -> running s = true ->
           isPaused s T = false -> shouldRun T now = true ->
           Fired (Task.name T) (Task.fn T) (Some (Finite v)) ∈ fires (loop now s)
           /\ fireCount name (loop now s) = S (fireCount name s)
           /\ (scheduled name (loop now s) = None <-> D <= elapsed)).
Proof.
  intros Ha Hcurve Hstart Hend HD D elapsed.
  pose proof (clamp_bounds (elapsed / D)) as Hb.
  set (p := Math_min 1 (Math_max 0 (elapsed / D))) in *.
  exists (Task.startVal a + (Task.endVal a - Task.startVal a) * Task.curve a p).
  exists (Qltb elapsed D).
  assert (run T now
          = (Fired (Task.name T) (Task.fn T)
                   (Some (Finite (Task.startVal a
                                  + (Task.endVal a - Task.startVal a)
                                    * Task.curve a p))),
             Task.with_lastRun now T, Qltb elapsed D)) as Hrun.
  { unfold run. rewrite Ha. unfold animationValue, elapsedAt.
    fold elapsed. fold D. by rewrite rawProgress_finite. }
  split; [exact Hrun|].
  split; [rewrite Hcurve, Hstart, Hend; lra|].
  split.
  { intros He. rewrite Hcurve, Hstart, Hend.
    assert (p == 0) as ->; [|lra].
    unfold p. rewrite clamp_inside.
    - rewrite He. field. exact HD.
    - assert (elapsed / D == 0) as -> by (rewrite He; field; exact HD). lra. }
  split.
  { intros He. rewrite Hcurve, Hstart, Hend.
    assert (p == 1) as ->; [|lra].
    unfold p. rewrite clamp_inside.
    - rewrite He. field. exact HD.
    - assert (elapsed / D == 1) as -> by (rewrite He; field; exact HD). lra. }
  split; [apply Qltb_false|].
  intros cs name s Hs Hr Hp Hdue.
  pose proof (reachable_names_NoDup cs) as Hnd. fold s in Hnd.
  pose proof (visit_run now s T _ _ _ Hp Hdue Hrun) as Hv.
  split; [|split].
  - rewrite loop_visit by done. simpl. apply elem_of_app. right.
    apply list_elem_of_omap. exists T. split.
    + by apply (scheduled_elem name s).
    + by rewrite Hv.
  - rewrite loop_fireCount by done. rewrite Hs. simpl. rewrite Hv. simpl. lia.
  - rewrite loop_scheduled by done. rewrite Hs. simpl. rewrite Hv. simpl.
    destruct (Qltb elapsed D) eqn:E.
    + apply Qltb_true in E. split; [done|]. intros H. lra.
    + apply Qltb_false in E. done.
Qed.
End SchedulerTime.

(** ** The default hit test *)

Section HitTest.
Local Open Scope R_scope.

Lemma Rgeb_true (a b : R) : Rgeb a b = true <-> a >= b.
Proof. unfold Rgeb. destruct (Rge_dec a b); split; auto; discriminate. Qed.

Lemma Rleb_true (a b : R) : Rleb a b = true <-> a <= b.
Proof. unfold Rleb. destruct (Rle_dec a b); split; auto; discriminate. Qed.

Lemma sin_cos_one (a : R) : sin a * sin a + cos a * cos a = 1.
Proof. pose proof (sin2_cos2 a) as H. unfold Rsqr in H. exact H. Qed.

Lemma inverse_rotate_rotate (a : R) (p : Point) :
  inverse_rotate a (rotate a p) = p.
Proof.
  destruct p as [x y]. unfold inverse_rotate, rotate. simpl. f_equal.
  - replace ((x * cos a - y * sin a) * cos a + (x * sin a + y * cos a) * sin a)
      with (x * (sin a * sin a + cos a * cos a)) by ring.
    rewrite sin_cos_one. ring.
  - replace (- (x * cos a - y * sin a) * sin a + (x * sin a + y * cos a) * cos a)
      with (y * (sin a * sin a + cos a * cos a)) by ring.
    rewrite sin_cos_one. ring.
Qed.

Lemma rotate_inverse_rotate (a : R) (p : Point) :
  rotate a (inverse_rotate a p) = p.
Proof.
  destruct p as [x y]. unfold inverse_rotate, rotate. simpl. f_equal.
  - replace ((x * cos a + y * sin a) * cos a - (- x * sin a + y * cos a) * sin a)
      with (x * (sin a * sin a + cos a * cos a)) by ring.
    rewrite sin_cos_one. ring.
  - replace ((x * cos a + y * sin a) * sin a + (- x * sin a + y * cos a) * cos a)
      with (y * (sin a * sin a + cos a * cos a)) by ring.
    rewrite sin_cos_one. ring.
Qed.

(** The hit test in terms of the local coordinates it computes. *)
Lemma hitTestDefault_true (unit : Unit.t) (x y : R) :
  hitTestDefault unit x y = true
  <-> px (Unit.scale unit) <> 0 /\ py (Unit.scale unit) <> 0
      /\ let c := getCenterPos unit in
         let a := px (Unit.rot unit) in
         let rx := (x - px c) * cos a + (y - py c) * sin a in
         let ry := - (x - px c) * sin a + (y - py c) * cos a in
         0 <= rx / px (Unit.scale unit) + width (Unit.size unit) / 2
              <= width (Unit.size unit)
         /\ 0 <= ry / py (Unit.scale unit) + height (Unit.size unit) / 2
                <= height (Unit.size unit).
Proof.
  unfold hitTestDefault, jsdiv. cbv zeta. rewrite sin_neg, cos_neg.
  set (c := getCenterPos unit). set (a := px (Unit.rot unit)).
  replace ((x - px c) * cos a - (y - py c) * - sin a)
    with ((x - px c) * cos a + (y - py c) * sin a) by ring.
  replace ((x - px c) * - sin a + (y - py c) * cos a)
    with (- (x - px c) * sin a + (y - py c) * cos a) by ring.
  destruct (Req_dec_T (px (Unit.scale unit)) 0) as [Hx|Hx].
  { split; [discriminate|]. intros [H _]. contradiction. }
  destruct (Req_dec_T (py (Unit.scale unit)) 0) as [Hy|Hy].
  { split; [discriminate|]. intros (_ & H & _). contradiction. }
  rewrite !andb_true_iff, !Rgeb_true, !Rleb_true.
  set (fx := _ / px (Unit.scale unit) + _).
  set (fy := _ / py (Unit.scale unit) + _).
  clearbody fx fy.
  split.
  - intros [[[H1 H2] H3] H4]. repeat split; auto; lra.
  - intros (_ & _ & [H1 H2] & [H3 H4]). repeat split; auto; lra.
Qed.

Lemma hit_region_local (unit : Unit.t) (x y : R) :
  hit_region unit (mkPoint x y)
  <-> px (Unit.scale unit) <> 0 /\ py (Unit.scale unit) <> 0
      /\ let c := getCenterPos unit in
         let a := px (Unit.rot unit) in
         let rx := (x - px c) * cos a + (y - py c) * sin a in
         let ry := - (x - px c) * sin a + (y - py c) * cos a in
         0 <= rx / px (Unit.scale unit) + width (Unit.size unit) / 2
              <= width (Unit.size unit)
         /\ 0 <= ry / py (Unit.scale unit) + height (Unit.size unit) / 2
                <= height (Unit.size unit).
Proof.
  unfold hit_region, divide, inside_box, translate, negate, inverse_rotate, half.
  cbv zeta. simpl.
  destruct (Req_dec_T (px (Unit.scale unit)) 0) as [Hx|Hx].
  { split; [contradiction|]. intros [H _]. contradiction. }
  destruct (Req_dec_T (py (Unit.scale unit)) 0) as [Hy|Hy].
  { split; [contradiction|]. intros (_ & H & _). contradiction. }
  simpl. unfold Rminus. tauto.
Qed.

Lemma hitTestDefault_false (unit : Unit.t) (x y : R) :
  ~ hitTestDefault unit x y = true -> hitTestDefault unit x y = false.
Proof. by destruct (hitTestDefault unit x y). Qed.

Lemma hitTestDefault_rotated (unit : Unit.t) (a : R) (d : Point) :
  let q := translate (getCenterPos unit) (rotate a d) in
  let q0 := translate (getCenterPos unit) d in
  hitTestDefault (Unit.with_rot (mkPoint a a) unit) (px q) (py q)
  = hitTestDefault (Unit.with_rot (mkPoint 0 0) unit) (px q0) (py q0).
Proof.
  destruct d as [dx dy]. cbv zeta. apply eq_true_iff_eq.
  rewrite !hitTestDefault_true. cbv zeta.
  change (getCenterPos (Unit.with_rot _ unit)) with (getCenterPos unit).
  generalize (getCenterPos unit). intros c. simpl.
  rewrite sin_0, cos_0.
  replace ((px c + (dx * cos a - dy * sin a) - px c) * cos a
           + (py c + (dx * sin a + dy * cos a) - py c) * sin a)
    with (dx * (sin a * sin a + cos a * cos a)) by ring.
  replace (- (px c + (dx * cos a - dy * sin a) - px c) * sin a
           + (py c + (dx * sin a + dy * cos a) - py c) * cos a)
    with (dy * (sin a * sin a + cos a * cos a)) by ring.
  rewrite sin_cos_one.
  replace ((px c + dx - px c) * 1 + (py c + dy - py c) * 0) with (dx * 1) by ring.
  replace (- (px c + dx - px c) * 0 + (py c + dy - py c) * 1) with (dy * 1) by ring.
  reflexivity.
Qed.
End HitTest.

(** C9. The default hit test accepts a point exactly when the point,
    translated by the negative centre, inverse-rotated by [rot.x], divided
    by the scale and shifted by half the size, lies in the box
    [0,width] x [0,height].  A unit as constructed (position (10,10), size
    (100,100), no rotation, scale 1) contains (50,50) and not (200,200).
    Rotating a unit by [a] rotates its hit region by [a] about its centre;
    for instance a 200 by 20 bar at the origin contains (190,10) and not
    (100,100), and turned by a quarter turn it contains (100,100) and not
    (190,10). *)
Theorem default_hit_test :
  (forall (unit : Unit.t) (x y : R),
      hitTestDefault unit x y = true <-> hit_region unit (mkPoint x y))
  /\ (forall (name : string) (onClick : nat),
         hitTestDefault (Unit_new name onClick) 50 50 = true
         /\ hitTestDefault (Unit_new name onClick) 200 200 = false)
  /\ (forall (unit : Unit.t) (a : R) (d : Point),
         let q := translate (getCenterPos unit) (rotate a d) in
         let q0 := translate (getCenterPos unit) d in
         hitTestDefault (Unit.with_rot (mkPoint a a) unit) (px q) (py q)
         = hitTestDefault (Unit.with_rot (mkPoint 0 0) unit) (px q0) (py q0))
  /\ (hitTestDefault (bar 0) 190 10 = true
      /\ hitTestDefault (bar 0) 100 100 = false
      /\ hitTestDefault (bar (PI / 2)) 100 100 = true
      /\ hitTestDefault (bar (PI / 2)) 190 10 = false).
Proof.
  split; [|split; [|split]].
  - intros unit x y. rewrite hitTestDefault_true, hit_region_local. tauto.
  - intros name onClick. split.
    + apply hitTestDefault_true. simpl. rewrite sin_0, cos_0.
      repeat split; lra.
    + apply hitTestDefault_false. rewrite hitTestDefault_true. simpl.
      rewrite sin_0, cos_0. lra.
  - apply hitTestDefault_rotated.
  - split; [|split; [|split]].
    + apply hitTestDefault_true. simpl. rewrite sin_0, cos_0.
      repeat split; lra.
    + apply hitTestDefault_false. rewrite hitTestDefault_true. simpl.
      rewrite sin_0, cos_0. lra.
    + apply hitTestDefault_true. simpl. rewrite sin_PI2, cos_PI2.
      repeat split; lra.
    + apply hitTestDefault_false. rewrite hitTestDefault_true. simpl.
      rewrite sin_PI2, cos_PI2. lra.
Qed.

(** ** DataStore: notification *)

Section Store.
Implicit Types (w : World) (s : DataStore) (ls : list nat).

Lemma invoke_returns store_set w v fn :
  returns w v fn ->
  invoke store_set fn v w = Done (with_calls (calls w ++ [Invoked fn v]) w).
Proof. intros (throws & Hf & Hv). unfold invoke. by rewrite Hf, Hv. Qed.

Lemma invoke_throwing store_set w v e fn :
  throwing w v e fn ->
  invoke store_set fn v w = Throws e (with_calls (calls w ++ [Invoked fn v]) w).
Proof. intros (throws & Hf & Hv). unfold invoke. by rewrite Hf, Hv. Qed.

(** A run of listeners that all return only extends the list of calls. *)
Lemma forEach_returns store_set v ls w :
  Forall (returns w v) ls ->
  forEach (fun fn => invoke store_set fn v) ls w
  = Done (with_calls (calls w ++ ((fun fn => Invoked fn v) <$> ls)) w).
Proof.
  revert w. induction ls as [|fn ls IH]; intros w Hall.
  - simpl. rewrite app_nil_r. by destruct w.
  - apply Forall_cons in Hall as [Hfn Hall]. simpl.
    rewrite invoke_returns by done. simpl.
    rewrite IH by done. simpl. by rewrite <- app_assoc.
Qed.

(** A run of listeners stops at the first one that throws. *)
Lemma forEach_throwing store_set v e pre fn post w :
  Forall (returns w v) pre -> throwing w v e fn ->
  forEach (fun fn => invoke store_set fn v) (pre ++ fn :: post) w
  = Throws e (with_calls
                (calls w ++ ((fun fn => Invoked fn v) <$> (pre ++ [fn]))) w).
Proof.
  revert w. induction pre as [|g pre IH]; intros w Hall Hfn.
  - simpl. by rewrite (invoke_throwing _ _ _ e).
  - apply Forall_cons in Hall as [Hg Hall]. simpl.
    rewrite invoke_returns by done. simpl.
    rewrite IH by done. simpl. by rewrite <- app_assoc.
Qed.

Lemma set_returns fuel key v w :
  Forall (returns w v) (listenersOf key (store w)) ->
  DataStore_set (S fuel) key v w
  = Done (mkWorld (heap w) (_units w) (canvasRect w)
                  (mkDataStore (<[key := v]> (_data (store w)))
                               (_listeners (store w)))
                  (functions w)
                  (calls w ++ ((fun fn => Invoked fn v)
                                 <$> listenersOf key (store w)))).
Proof.
  intros Hall. simpl. fold (listenersOf key (store w)).
  by rewrite forEach_returns.
Qed.

Lemma set_throwing fuel key v e pre fn post w :
  listenersOf key (store w) = pre ++ fn :: post ->
  Forall (returns w v) pre -> throwing w v e fn ->
  DataStore_set (S fuel) key v w
  = Throws e (mkWorld (heap w) (_units w) (canvasRect w)
                      (mkDataStore (<[key := v]> (_data (store w)))
                                   (_listeners (store w)))
                      (functions w)
                      (calls w ++ ((fun fn => Invoked fn v) <$> (pre ++ [fn])))).
Proof.
  intros Hls Hall Hfn. simpl. fold (listenersOf key (store w)). rewrite Hls.
  by rewrite (forEach_throwing _ v e).
Qed.

Lemma listenersOf_onChange key fn s :
  listenersOf key (DataStore_onChange key fn s) = listenersOf key s ++ [fn].
Proof. unfold listenersOf, DataStore_onChange. simpl. by rewrite lookup_insert_eq. Qed.

Lemma listenersOf_onChange_ne key key' fn s :
  key' ≠ key ->
  listenersOf key (DataStore_onChange key' fn s) = listenersOf key s.
Proof.
  intros Hne. unfold listenersOf, DataStore_onChange. simpl.
  by rewrite lookup_insert_ne.
Qed.

Lemma listenersOf_removeOnChange key fn s :
  listenersOf key (DataStore_removeOnChange key fn s)
  = filter (fun f => f ≠ fn) (listenersOf key s).
Proof.
  unfold listenersOf, DataStore_removeOnChange.
  destruct (_listeners s !! key) as [lst|] eqn:E; simpl.
  - by rewrite lookup_insert_eq.
  - by rewrite E.
Qed.

Lemma read_own key s :
  key ∉ Object_prototype ->
  DataStore_read key s = default VUndefined (_data s !! key).
Proof.
  intros Hk. unfold DataStore_read.
  destruct (_data s !! key); [done|].
  by rewrite bool_decide_eq_false_2.
Qed.

Lemma read_inherited key s :
  key ∈ Object_prototype -> _data s !! key = None ->
  DataStore_read key s = VBuiltin key.
Proof.
  intros Hk H. unfold DataStore_read. rewrite H.
  by rewrite bool_decide_eq_true_2.
Qed.

Lemma get_missing key s :
  key ∉ Object_prototype ->
  _data s !! key = None ->
  DataStore_get key s = inr (Error ("Empty key in store: " +:+ key)).
Proof.
  intros Hk H. unfold DataStore_get. rewrite read_own by done.
  by rewrite H.
Qed.

Lemma get_present key s v :
  _data s !! key = Some v ->
  DataStore_get key s
  = if looseNull v then inr (Error ("Empty key in store: " +:+ key)) else inl v.
Proof. intros H. unfold DataStore_get, DataStore_read. by rewrite H. Qed.

Lemma proto_inherited : "__proto__" ∈ Object_prototype.
Proof. by apply (bool_decide_unpack _). Qed.
End Store.

(** C1. When every listener registered for [key] returns normally,
    [set(key, v)] stores [v], returns, and its calls are exactly one call
    with argument [v] per registration, in the order of the listener
    array; [onChange] appends to that array, so the order is the order of
    registration; and after [removeOnChange(key, fn)] a [set] makes the
    same calls except those of [fn], which is not called. *)
Theorem store_fan_out (w : World) (key : string) (v : value) (fuel : nat) :
  let Ls := listenersOf key (store w) in
  Forall (returns w v) Ls ->
  (forall fn, listenersOf key (DataStore_onChange key fn (store w)) = Ls ++ [fn])
  /\ (exists w', DataStore_set (S fuel) key v w = Done w'
                 /\ calls w' = calls w ++ ((fun fn => Invoked fn v) <$> Ls)
                 /\ _data (store w') !! key = Some v)
  /\ (forall fn,
         let w1 := with_store (DataStore_removeOnChange key fn (store w)) w in
         exists w', DataStore_set (S fuel) key v w1 = Done w'
                    /\ calls w' = calls w ++ ((fun f => Invoked f v)
                                                <$> filter (fun f => f ≠ fn) Ls)
                    /\ Invoked fn v ∉ drop (length (calls w)) (calls w')).
Proof.
  intros Ls Hall. split; [|split].
  - intros fn. apply listenersOf_onChange.
  - eexists. split; [by apply set_returns|]. simpl.
    split; [done|]. by rewrite lookup_insert_eq.
  - intros fn w1.
    assert (listenersOf key (store w1) = filter (fun f => f ≠ fn) Ls) as Hls.
    { unfold w1. simpl. apply listenersOf_removeOnChange. }
    eexists. split.
    + apply set_returns. rewrite Hls. apply Forall_forall. intros f Hf.
      apply list_elem_of_filter in Hf as [_ Hf].
      rewrite Forall_forall in Hall. apply (Hall f Hf).
    + rewrite Hls. simpl. split; [done|].
      rewrite drop_app_length. intros Hin.
      apply list_elem_of_fmap in Hin as (f & [= <-] & Hf).
      apply list_elem_of_filter in Hf as [Hf _]. by apply Hf.
Qed.

(** C2, as the code has it.  [set] has no handler around the calls of its
    listeners: when the listeners before [fn] return and [fn] throws [e],
    the value has been stored, the listeners up to and including [fn] have
    been called in order, [e] leaves [set], and no listener registered
    after [fn] is called by this [set]. *)
Theorem listener_error_propagates (w : World) (key : string) (v : value)
        (e : error) (pre post : list nat) (fn : nat) (fuel : nat) :
  listenersOf key (store w) = pre ++ fn :: post ->
  Forall (returns w v) pre ->
  throwing w v e fn ->
  exists w',
    DataStore_set (S fuel) key v w = Throws e w'
    /\ _data (store w') !! key = Some v
    /\ calls w' = calls w ++ ((fun f => Invoked f v) <$> (pre ++ [fn]))
    /\ (forall g, g ∈ post -> g ∉ pre -> g ≠ fn ->
                  Invoked g v ∉ drop (length (calls w)) (calls w')).
Proof.
  intros Hls Hpre Hfn. eexists. split; [by eapply set_throwing|]. simpl.
  split; [by rewrite lookup_insert_eq|]. split; [done|].
  intros g _ Hg Hne. rewrite drop_app_length. intros Hin.
  apply list_elem_of_fmap in Hin as (f & [= <-] & Hf).
  apply elem_of_app in Hf as [Hf|Hf]; [done|].
  apply list_elem_of_singleton in Hf. done.
Qed.

(** C2 as stated fails: with a first listener that throws, [set] ends by
    that exception after one call, and the second listener never runs. *)
Lemma listener_isolation_counterexample :
  (exists w', DataStore_set 1 "k" (VNum 1) two_listeners = Throws boom w'
              /\ calls w' = [Invoked 0 (VNum 1)])
  /\ ~ (exists fuel, isolates_listener_errors fuel "k" (VNum 1) two_listeners).
Proof.
  assert (forall fuel, exists w',
             DataStore_set (S fuel) "k" (VNum 1) two_listeners = Throws boom w'
             /\ calls w' = [Invoked 0 (VNum 1)]) as H.
  { intros fuel. eexists. split.
    - apply (set_throwing fuel "k" (VNum 1) boom [] 0%nat [1%nat]).
      + reflexivity.
      + constructor.
      + eexists. split; reflexivity.
    - reflexivity. }
  split; [apply H|].
  intros [fuel (w' & Hset & _)]. destruct fuel as [|fuel]; [discriminate|].
  destruct (H fuel) as (w'' & Hthrow & _). congruence.
Qed.

(** C3, as the code has it, for the keys that do not name a property of
    [Object.prototype], on a store whose data object still has that
    prototype.  [get(key)] raises exactly when the store holds no value
    for [key] or holds null or undefined; in particular it raises for a
    key that was never set.  After a [set(key, v)] whose listeners return
    without writing to the store, the prototype is as before and
    [get(key)] raises if [v] is null or undefined and returns [v]
    otherwise; so the falsy values [false], [0] and the empty string are
    returned. *)
Theorem missing_key_semantics (w : World) (key : string) (v : value)
        (fuel : nat) :
  prototype_untouched (store w) ->
  key ∉ Object_prototype ->
  Forall (returns w v) (listenersOf key (store w)) ->
  (forall s k, prototype_untouched s -> k ∉ Object_prototype ->
               (DataStore_get k s = inr (Error ("Empty key in store: " +:+ k))
                <-> looseNull (default VUndefined (_data s !! k)) = true))
  /\ (forall s k, prototype_untouched s -> k ∉ Object_prototype ->
                  _data s !! k = None ->
                  DataStore_get k s = inr (Error ("Empty key in store: " +:+ k)))
  /\ (exists w', DataStore_set (S fuel) key v w = Done w'
                 /\ prototype_untouched (store w')
                 /\ DataStore_get key (store w')
                    = if looseNull v
                      then inr (Error ("Empty key in store: " +:+ key))
                      else inl v)
  /\ looseNull (VBool false) = false
  /\ looseNull (VNum 0) = false
  /\ looseNull (VStr "") = false.
Proof.
  intros Hproto Hkey Hall. split; [|split; [|split]].
  - intros s k _ Hk. unfold DataStore_get. cbv zeta.
    rewrite read_own by done.
    destruct (looseNull _); split; congruence.
  - intros s k _. apply get_missing.
  - eexists. split; [by apply set_returns|]. split.
    + unfold prototype_untouched. simpl. rewrite lookup_insert_ne; [done|].
      intros ->. apply Hkey, proto_inherited.
    + apply get_present. simpl. by rewrite lookup_insert_eq.
  - done.
Qed.

(** C3 as stated fails, in two ways.  A key set to null has been set, yet
    [get] raises instead of returning the value; and on a new store, where
    no key has been set, [get("constructor")] does not raise: it returns
    what the data object inherits under that name. *)
Lemma missing_key_counterexample :
  (exists w', DataStore_set 1 "k" VNull empty_world = Done w'
              /\ _data (store w') !! "k" = Some VNull
              /\ DataStore_get "k" (store w') = inr (Error "Empty key in store: k")
              /\ DataStore_get "k" (store w') <> inl VNull)
  /\ _data (store empty_world) !! "constructor" = None
  /\ DataStore_get "constructor" (store empty_world) = inl (VBuiltin "constructor")
  /\ DataStore_get "constructor" (store empty_world)
     <> inr (Error "Empty key in store: constructor").
Proof.
  split.
  - eexists. split; [reflexivity|]. split; [reflexivity|].
    split; [reflexivity|]. discriminate.
  - split; [reflexivity|]. split; [|discriminate].
    unfold DataStore_get. rewrite read_inherited; [done| |done].
    by apply (bool_decide_unpack _).
Qed.

(** ** GestureDetector: the click listener *)

Section Click.
Variable store_set : string -> value -> World -> outcome.

Lemma click_scan_head (event : value) (x y : R) (units : list nat) (w : World) :
  Forall (fun r => is_Some (heap w !! r)) units ->
  click_scan store_set event x y units w
  = match head (filter (fun r => accepts w x y r = true) units) with
    | Some r => deliver store_set event w r
    | None => Done w
    end.
Proof.
  induction units as [|r units IH]; intros Hall; [done|].
  apply Forall_cons in Hall as [[unit Hr] Hall].
  assert (accepts w x y r = Unit_hitTest unit x y && Unit.enabled unit) as Ha.
  { unfold accepts. by rewrite Hr. }
  simpl. rewrite filter_cons, Hr, <- Ha.
  destruct (accepts w x y r) eqn:Hacc.
  - rewrite decide_True by done. simpl. unfold deliver. by rewrite Hr.
  - rewrite decide_False by done. by apply IH.
Qed.
End Click.

(** C8. A click is delivered to at most one unit: among the units of the
    context that are enabled and whose hit test accepts the click point,
    the one latest in the unit list (the first met by the reversed scan)
    has its [onClick] called, if it has one, and that is all the click
    listener does; when no unit takes the click nothing is called.  The
    chosen unit is such that no unit after it in the list takes the
    click, whatever the units before it would do. *)
Theorem topmost_wins (store_set : string -> value -> World -> outcome)
        (w : World) (clientX clientY : R) :
  Forall (fun r => is_Some (heap w !! r)) (_units w) ->
  let p := _getMousePos clientX clientY w in
  let takers := filter (fun r => accepts w (px p) (py p) r = true) (_units w) in
  onCanvasClick store_set clientX clientY w
  = match last takers with
    | Some r => deliver store_set (VEvent clientX clientY) w r
    | None => Done w
    end
  /\ (forall r, last takers = Some r ->
        exists before after unit,
          _units w = before ++ r :: after
          /\ heap w !! r = Some unit
          /\ Unit_hitTest unit (px p) (py p) = true
          /\ Unit.enabled unit = true
          /\ Forall (fun r' => accepts w (px p) (py p) r' = false) after)
  /\ (last takers = None ->
        Forall (fun r' => accepts w (px p) (py p) r' = false) (_units w)).
Proof.
  intros Hall p takers. split; [|split].
  - unfold onCanvasClick. fold p.
    rewrite click_scan_head by (by apply Forall_reverse).
    by rewrite filter_reverse, head_reverse.
  - intros r Hlast.
    pose proof (last_filter_Some _ _ _ Hlast) as (before & after & Hu & Hafter).
    assert (r ∈ takers) as Hin.
    { apply last_Some in Hlast as [l' ->]. apply elem_of_app. right.
      apply list_elem_of_here. }
    apply list_elem_of_filter in Hin as [Hacc _].
    unfold accepts in Hacc. destruct (heap w !! r) as [unit|] eqn:Hr; [|done].
    apply andb_true_iff in Hacc as [Hhit Hen].
    exists before, after, unit. split_and!; try done.
    eapply Forall_impl; [exact Hafter|]. intros r' H.
    by apply not_true_is_false.
  - intros Hnone. apply last_None in Hnone.
    apply Forall_forall. intros r' Hr'.
    destruct (accepts w (px p) (py p) r') eqn:E; [|done].
    assert (r' ∈ takers) as Hin by (by apply list_elem_of_filter).
    rewrite Hnone in Hin. by apply elem_of_nil in Hin.
Qed.

(** ** Position binding *)

Section StoreKeys.
Lemma to_list_app (s1 s2 : string) :
  String.list_ascii_of_string (s1 +:+ s2)
  = String.list_ascii_of_string s1 ++ String.list_ascii_of_string s2.
Proof. induction s1 as [|c s1 IH]; simpl; [done|]. by rewrite IH. Qed.

Lemma to_list_inj (s1 s2 : string) :
  String.list_ascii_of_string s1 = String.list_ascii_of_string s2 -> s1 = s2.
Proof.
  intros H. rewrite <- (String.string_of_list_ascii_of_string s1).
  rewrite <- (String.string_of_list_ascii_of_string s2). by rewrite H.
Qed.

Lemma storeName_name (n1 n2 attr : string) :
  n1 +:+ "::" +:+ attr = n2 +:+ "::" +:+ attr -> n1 = n2.
Proof.
  intros H. apply (f_equal String.list_ascii_of_string) in H.
  rewrite !to_list_app in H. apply app_inv_tail in H. by apply to_list_inj.
Qed.

Lemma storeName_last (n attr : string) c :
  last (String.list_ascii_of_string attr) = Some c ->
  last (String.list_ascii_of_string (n +:+ "::" +:+ attr)) = Some c.
Proof. intros H. rewrite !to_list_app, !last_app. by rewrite H. Qed.

Lemma storeName_attr (n1 n2 attr1 attr2 : string) :
  last (String.list_ascii_of_string attr1)
  ≠ last (String.list_ascii_of_string attr2) ->
  is_Some (last (String.list_ascii_of_string attr1)) ->
  is_Some (last (String.list_ascii_of_string attr2)) ->
  n1 +:+ "::" +:+ attr1 ≠ n2 +:+ "::" +:+ attr2.
Proof.
  intros Hne [c1 H1] [c2 H2] Heq.
  apply (f_equal (fun s => last (String.list_ascii_of_string s))) in Heq.
  rewrite (storeName_last _ _ _ H1), (storeName_last _ _ _ H2) in Heq.
  apply Hne. congruence.
Qed.
End StoreKeys.

Section Binding.
Implicit Types (w : World) (ls : list nat).

Ltac world_simpl :=
  cbn [with_heap with_store with_functions with_calls heap _units canvasRect
       store functions calls _data _listeners] in *.

Lemma forEach_app f l1 l2 w :
  forEach f (l1 ++ l2) w = andThen (forEach f l1 w) (forEach f l2).
Proof.
  revert w. induction l1 as [|x l1 IH]; intros w; simpl; [done|].
  destruct (f x w); simpl; auto.
Qed.

Lemma quiet_returns w v fn : quiet w fn -> returns w v fn.
Proof. intros (throws & Hf & Hq). exists throws. auto. Qed.

Lemma quiet_same w w' fn :
  functions w' = functions w -> quiet w fn -> quiet w' fn.
Proof. unfold quiet. by intros ->. Qed.

Lemma placement_right (thisBox otherBox : Point * Size) :
  placement "right" thisBox otherBox
  = mkPoint (px otherBox.1 + width otherBox.2)
            (py otherBox.1 + (height otherBox.2 - height thisBox.2) / 2).
Proof. reflexivity. Qed.

(** One run of the closure of a binding to the right. *)
Lemma updatePosition_right fuel a b (A B : Unit.t) w :
  a ≠ b ->
  heap w !! a = Some A -> heap w !! b = Some B ->
  Forall (quiet w) (listenersOf (Unit.name B +:+ "::" +:+ "pos") (store w)) ->
  let p := mkPoint (px (Unit.pos A) + width (Unit.size A) + 5)
                   (py (Unit.pos A)
                    + (height (Unit.size A) - height (Unit.size B)) / 2 + 0) in
  updatePosition (DataStore_set (S fuel)) b a "right" 5 0 w
  = Done (mkWorld
            (<[b := Unit.with_pos p B]> (heap w)) (_units w) (canvasRect w)
            (mkDataStore
               (<[Unit.name B +:+ "::" +:+ "pos" := VPoint p]> (_data (store w)))
               (_listeners (store w)))
            (functions w)
            (calls w ++ ((fun fn => Invoked fn (VPoint p))
                           <$> listenersOf (Unit.name B +:+ "::" +:+ "pos")
                                           (store w)))).
Proof.
  intros Hne Ha Hb Hq p. unfold updatePosition. rewrite Ha, Hb.
  rewrite placement_right. cbn [fst snd px py].
  unfold Unit_update. rewrite Hb. unfold Unit_updateInStore.
  cbn [heap with_heap]. rewrite lookup_insert_eq.
  change (readAttribute _ (attribute_name _)) with (VPoint p).
  change (getAttributeStoreName (assign _ B) (attribute_name _))
    with (Unit.name B +:+ "::" +:+ "pos").
  rewrite set_returns.
  - reflexivity.
  - eapply Forall_impl; [exact Hq|]. intros fn Hfn. apply quiet_returns.
    by eapply quiet_same; [|exact Hfn].
Qed.

Lemma set_unfold fuel key v w :
  DataStore_set (S fuel) key v w
  = forEach (fun fn => invoke (DataStore_set fuel) fn v)
            (listenersOf key (store w))
            (with_store (mkDataStore (<[key := v]> (_data (store w)))
                                     (_listeners (store w))) w).
Proof. reflexivity. Qed.

Lemma right_of_pad0 (sa sb : Size) (p : Point) :
  mkPoint (px p + width sa + 5) (py p + (height sa - height sb) / 2 + 0)
  = right_of sa sb p.
Proof. unfold right_of. f_equal. lra. Qed.

(** Moving the anchor unit moves the bound unit within the same call. *)
Lemma update_bound fuel a b fn na nb sa sb w (p : Point) :
  a ≠ b -> na ≠ nb ->
  bound_right a b fn na nb sa sb w ->
  exists w',
    Unit_update (DataStore_set (S (S fuel))) a (AttrPos p) w = Done w'
    /\ bound_right a b fn na nb sa sb w'
    /\ posOf w' a = Some p
    /\ posOf w' b = Some (right_of sa sb p)
    /\ _data (store w') !! (na +:+ "::" +:+ "pos") = Some (VPoint p)
    /\ _data (store w') !! (nb +:+ "::" +:+ "pos")
       = Some (VPoint (right_of sa sb p)).
Proof.
  intros Hab Hnames ((A & Ha & HnA & HsA) & (B & Hb & HnB & HsB) & Hfn
                     & (la & Hla & Hqa) & Hqb).
  assert (na +:+ "::" +:+ "pos" ≠ nb +:+ "::" +:+ "pos") as Hkeys.
  { intros H. by apply storeName_name in H. }
  destruct w as [h us rect [d l] fs cs]. world_simpl.
  unfold Unit_update, Unit_updateInStore. world_simpl.
  rewrite Ha, lookup_insert_eq.
  change (readAttribute _ (attribute_name _)) with (VPoint p).
  change (getAttributeStoreName (assign _ A) (attribute_name _))
    with (Unit.name A +:+ "::" +:+ "pos").
  rewrite HnA, set_unfold. world_simpl.
  rewrite Hla, forEach_app.
  rewrite forEach_returns.
  2:{ eapply Forall_impl; [exact Hqa|]. intros g Hg. apply quiet_returns.
      by eapply quiet_same; [|exact Hg]. }
  cbn [andThen forEach]. unfold invoke at 1. world_simpl. rewrite Hfn.
  rewrite (updatePosition_right fuel a b (Unit.with_pos p A) B).
  2:{ done. }
  2:{ world_simpl. by rewrite lookup_insert_eq. }
  2:{ world_simpl. by rewrite lookup_insert_ne. }
  2:{ world_simpl. rewrite HnB.
      eapply Forall_impl; [exact Hqb|]. intros g Hg.
      by eapply quiet_same; [|exact Hg]. }
  world_simpl.
  cbn [andThen Unit.pos Unit.size Unit.name Unit.with_pos px py].
  rewrite HsA, HsB, HnB, right_of_pad0.
  eexists. split; [reflexivity|].
  split; [|split; [|split; [|split]]].
  - unfold bound_right. world_simpl. split_and!.
    + exists (Unit.with_pos p A). rewrite lookup_insert_ne by done.
      by rewrite lookup_insert_eq.
    + exists (Unit.with_pos (right_of sa sb p) B).
      by rewrite lookup_insert_eq.
    + done.
    + exists la. split; [done|].
      eapply Forall_impl; [exact Hqa|]. intros g Hg.
      by eapply quiet_same; [|exact Hg].
    + eapply Forall_impl; [exact Hqb|]. intros g Hg.
      by eapply quiet_same; [|exact Hg].
  - unfold posOf. world_simpl. rewrite lookup_insert_ne by done.
    by rewrite lookup_insert_eq.
  - unfold posOf. world_simpl. by rewrite lookup_insert_eq.
  - world_simpl. rewrite lookup_insert_ne by done.
    by rewrite lookup_insert_eq.
  - world_simpl. by rewrite lookup_insert_eq.
Qed.

Lemma listenersOf_onChange_decide key key' fn (s : DataStore) :
  listenersOf key (DataStore_onChange key' fn s)
  = listenersOf key s ++ (if decide (key' = key) then [fn] else []).
Proof.
  case_decide as H.
  - subst. apply listenersOf_onChange.
  - rewrite app_nil_r. by apply listenersOf_onChange_ne.
Qed.

(** The subscriptions made by [watch] leave the units' geometry, the
    function table, the stored data and the calls as they are, and append
    the closure once to the listeners of every key watched. *)
Lemma foldl_watch b fn (keys : list string) :
  forall w (Bu : Unit.t),
    heap w !! b = Some Bu ->
    exists Bu',
      heap (foldl (watch b fn) w keys) = <[b := Bu']> (heap w)
      /\ Unit.name Bu' = Unit.name Bu /\ Unit.size Bu' = Unit.size Bu
      /\ Unit.pos Bu' = Unit.pos Bu
      /\ functions (foldl (watch b fn) w keys) = functions w
      /\ calls (foldl (watch b fn) w keys) = calls w
      /\ _data (store (foldl (watch b fn) w keys)) = _data (store w)
      /\ forall k,
           listenersOf k (store (foldl (watch b fn) w keys))
           = listenersOf k (store w)
             ++ ((fun _ => fn) <$> filter (fun key => key = k) keys).
Proof.
  induction keys as [|key keys IH]; intros w Bu Hb.
  - exists Bu. simpl. rewrite insert_id by done. split_and!; try done.
    intros k. by rewrite app_nil_r.
  - simpl.
    set (Bu1 := Unit.with_bound
                  (Some (default [] (Unit._boundPositionListeners Bu)
                         ++ [(key, fn)])) Bu).
    assert (watch b fn w key
            = mkWorld (<[b := Bu1]> (heap w)) (_units w) (canvasRect w)
                      (DataStore_onChange key fn (store w))
                      (functions w) (calls w)) as Hw.
    { unfold watch. world_simpl. by rewrite Hb. }
    rewrite Hw.
    destruct (IH (mkWorld (<[b := Bu1]> (heap w)) (_units w) (canvasRect w)
                          (DataStore_onChange key fn (store w))
                          (functions w) (calls w)) Bu1)
      as (Bu' & Hh & Hn & Hs & Hp & Hf & Hc & Hd & Hl).
    { world_simpl. by rewrite lookup_insert_eq. }
    world_simpl. exists Bu'. rewrite Hh, insert_insert_eq.
    split_and!; try done.
    intros k. rewrite Hl, listenersOf_onChange_decide, filter_cons.
    rewrite <- app_assoc. by case_decide.
Qed.

Lemma listenersOf_data key d (s : DataStore) :
  listenersOf key (mkDataStore d (_listeners s)) = listenersOf key s.
Proof. reflexivity. Qed.

Lemma quiet_insert_fresh w fn c g :
  functions w !! fn = None ->
  quiet w g ->
  quiet (with_functions (<[fn := c]> (functions w)) w) g.
Proof.
  intros Hfresh (throws & Hg & Hq). exists throws. split; [|done].
  world_simpl. rewrite lookup_insert_ne; [done|]. intros ->. congruence.
Qed.

Ltac key_ne :=
  first
    [ by (intros Hkey; apply storeName_name in Hkey)
    | apply storeName_attr;
      [ compute; congruence | by eexists | by eexists ] ].

(** Binding [b] to the right of [a] subscribes the closure and places [b]
    at once. *)
Lemma bind_right fuel a b (A B : Unit.t) w :
  heap w !! a = Some A -> heap w !! b = Some B ->
  a ≠ b -> Unit.name A ≠ Unit.name B ->
  Forall (quiet w) (listenersOf (getAttributeStoreName A "pos") (store w)) ->
  Forall (quiet w) (listenersOf (getAttributeStoreName B "pos") (store w)) ->
  exists w1 fn,
    Unit_bindPositionRelativeTo (DataStore_set (S fuel)) b a "right"
                                (mkOffset (Some 5%R) None) w = Done w1
    /\ bound_right a b fn (Unit.name A) (Unit.name B)
                   (Unit.size A) (Unit.size B) w1
    /\ posOf w1 a = Some (Unit.pos A)
    /\ posOf w1 b = Some (right_of (Unit.size A) (Unit.size B) (Unit.pos A)).
Proof.
  intros Ha Hb Hab Hnames Hqa Hqb.
  unfold getAttributeStoreName in Hqa, Hqb.
  unfold Unit_bindPositionRelativeTo. rewrite Ha, Hb.
  cbn [default offset_x offset_y].
  set (B0 := Unit.with_bound _ B).
  set (fn := fresh (dom (functions (with_heap (<[b := B0]> (heap w)) w)))).
  assert (functions w !! fn = None) as Hfresh.
  { apply not_elem_of_dom. apply is_fresh. }
  set (w0 := with_functions _ (with_heap _ w)).
  destruct (foldl_watch b fn
              [ getAttributeStoreName A "pos"; getAttributeStoreName A "size";
                getAttributeStoreName A "rot"; getAttributeStoreName A "scale";
                getAttributeStoreName B0 "size"; getAttributeStoreName B0 "rot";
                getAttributeStoreName B0 "scale" ] w0 B0)
    as (B1 & Hh & Hn & Hs & Hp & Hf & Hc & Hd & Hl).
  { unfold w0. world_simpl. by rewrite lookup_insert_eq. }
  set (w2 := foldl (watch b fn) w0 _) in *.
  assert (listenersOf (Unit.name A +:+ "::" +:+ "pos") (store w2)
          = listenersOf (Unit.name A +:+ "::" +:+ "pos") (store w) ++ [fn])
    as HlA.
  { rewrite Hl. unfold getAttributeStoreName.
    change (Unit.name B0) with (Unit.name B).
    rewrite filter_cons, decide_True by done.
    rewrite !filter_cons, !decide_False by key_ne. done. }
  assert (listenersOf (Unit.name B +:+ "::" +:+ "pos") (store w2)
          = listenersOf (Unit.name B +:+ "::" +:+ "pos") (store w)) as HlB.
  { rewrite Hl. unfold getAttributeStoreName.
    change (Unit.name B0) with (Unit.name B).
    rewrite !filter_cons, !decide_False by key_ne.
    by rewrite app_nil_r. }
  assert (forall g, quiet w g -> quiet w2 g) as Hquiet.
  { intros g Hg. eapply (quiet_same w0).
    - by rewrite Hf.
    - by apply quiet_insert_fresh. }
  assert (heap w2 !! a = Some A) as Ha2.
  { rewrite Hh. unfold w0. world_simpl. by rewrite !lookup_insert_ne. }
  assert (heap w2 !! b = Some B1) as Hb2.
  { rewrite Hh. by rewrite lookup_insert_eq. }
  assert (functions w2 !! fn = Some (UpdatePosition b a "right" 5 0)) as Hfn2.
  { rewrite Hf. unfold w0. world_simpl. by rewrite lookup_insert_eq. }
  clearbody w2. unfold invoke. rewrite Hfn2.
  rewrite (updatePosition_right fuel a b A B1); [|exact Hab|exact Ha2|exact Hb2|].
  2:{ world_simpl. rewrite Hn. change (Unit.name B0) with (Unit.name B).
      rewrite HlB. eapply Forall_impl; [exact Hqb|]. intros g Hg.
      eapply (quiet_same w2); [reflexivity|]. by apply Hquiet. }
  world_simpl. rewrite Hs, Hn. change (Unit.size B0) with (Unit.size B).
  change (Unit.name B0) with (Unit.name B). rewrite right_of_pad0.
  eexists. exists fn. split; [reflexivity|].
  split; [|split].
  - unfold bound_right. world_simpl. split_and!.
    + exists A. by rewrite lookup_insert_ne.
    + eexists. rewrite lookup_insert_eq. split; [done|].
      split; [exact Hn|exact Hs].
    + done.
    + exists (listenersOf (Unit.name A +:+ "::" +:+ "pos") (store w)).
      rewrite listenersOf_data.
      split; [exact HlA|]. eapply Forall_impl; [exact Hqa|]. intros g Hg.
      eapply (quiet_same w2); [reflexivity|]. by apply Hquiet.
    + rewrite listenersOf_data, HlB.
      eapply Forall_impl; [exact Hqb|]. intros g Hg.
      eapply (quiet_same w2); [reflexivity|]. by apply Hquiet.
  - unfold posOf. world_simpl. rewrite lookup_insert_ne by done.
    by rewrite Ha2.
  - unfold posOf. world_simpl. by rewrite lookup_insert_eq.
Qed.

Lemma moveAll_cons store_set a (p : Point) (ps : list Point) w w' :
  Unit_update store_set a (AttrPos p) w = Done w' ->
  moveAll store_set a (p :: ps) w = moveAll store_set a ps w'.
Proof. intros H. unfold moveAll. simpl. by rewrite H. Qed.

Lemma moveAll_bound fuel a b fn na nb sa sb :
  a ≠ b -> na ≠ nb ->
  forall (ps : list Point) (p : Point) w,
    bound_right a b fn na nb sa sb w ->
    exists w',
      moveAll (DataStore_set (S (S fuel))) a (ps ++ [p]) w = Done w'
      /\ bound_right a b fn na nb sa sb w'
      /\ posOf w' a = Some p
      /\ posOf w' b = Some (right_of sa sb p)
      /\ _data (store w') !! (na +:+ "::" +:+ "pos") = Some (VPoint p)
      /\ _data (store w') !! (nb +:+ "::" +:+ "pos")
         = Some (VPoint (right_of sa sb p)).
Proof.
  intros Hab Hnames. induction ps as [|p0 ps IH]; intros p w Hbound.
  - destruct (update_bound fuel a b fn na nb sa sb w p Hab Hnames Hbound)
      as (w' & Hup & Hrest).
    exists w'. split; [|exact Hrest].
    simpl. by rewrite (moveAll_cons _ _ _ _ _ _ Hup).
  - destruct (update_bound fuel a b fn na nb sa sb w p0 Hab Hnames Hbound)
      as (w0 & Hup & Hbound0 & _).
    destruct (IH p w0 Hbound0) as (w' & Hmove & Hrest).
    exists w'. split; [|exact Hrest].
    simpl. by rewrite (moveAll_cons _ _ _ _ _ _ Hup).
Qed.
End Binding.

(** C7. Let [b] be bound to the right of [a] with offset [{x: 5}], the
    two units being distinct objects with distinct names and their
    position keys having no listener but host callbacks that do not throw.
    The binding places [b] at once, and every later [a.update("pos", p)]
    returns with [b] already moved: [b.pos.x = p.x + a.size.width + 5] and
    [b.pos.y = p.y + (a.size.height - b.size.height) / 2], both positions
    being mirrored in the store. *)
Theorem position_binding_propagates (w : World) (a b : nat) (A B : Unit.t)
        (fuel : nat) :
  heap w !! a = Some A ->
  heap w !! b = Some B ->
  a ≠ b ->
  Unit.name A ≠ Unit.name B ->
  Forall (quiet w) (listenersOf (getAttributeStoreName A "pos") (store w)) ->
  Forall (quiet w) (listenersOf (getAttributeStoreName B "pos") (store w)) ->
  let store_set := DataStore_set (S (S fuel)) in
  let place (p : Point) :=
    mkPoint (px p + width (Unit.size A) + 5)
            (py p + (height (Unit.size A) - height (Unit.size B)) / 2) in
  exists w1,
    Unit_bindPositionRelativeTo store_set b a "right"
                                (mkOffset (Some 5%R) None) w = Done w1
    /\ posOf w1 a = Some (Unit.pos A)
    /\ posOf w1 b = Some (place (Unit.pos A))
    /\ forall (ps : list Point) (p : Point),
        exists w2,
          moveAll store_set a (ps ++ [p]) w1 = Done w2
          /\ posOf w2 a = Some p
          /\ posOf w2 b = Some (place p)
          /\ _data (store w2) !! getAttributeStoreName A "pos"
             = Some (VPoint p)
          /\ _data (store w2) !! getAttributeStoreName B "pos"
             = Some (VPoint (place p)).
Proof.
  intros Ha Hb Hab Hnames Hqa Hqb store_set place.
  destruct (bind_right (S fuel) a b A B w Ha Hb Hab Hnames Hqa Hqb)
    as (w1 & fn & Hbind & Hbound & HposA & HposB).
  exists w1. split; [exact Hbind|]. split; [exact HposA|].
  split; [exact HposB|].
  intros ps p.
  destruct (moveAll_bound fuel a b fn _ _ _ _ Hab Hnames ps p w1 Hbound)
    as (w2 & Hmove & _ & H1 & H2 & H3 & H4).
  exists w2. split; [exact Hmove|]. by split_and!.
Qed.

(** ** The properties at concrete scenes *)

Lemma store_fan_out_witness :
  Forall (returns two_quiet_listeners (VNum 1))
         (listenersOf "k" (store two_quiet_listeners))
  /\ exists w', DataStore_set 1 "k" (VNum 1) two_quiet_listeners = Done w'
                /\ calls w' = [Invoked 0 (VNum 1); Invoked 1 (VNum 1)].
Proof.
  assert (Forall (returns two_quiet_listeners (VNum 1))
                 (listenersOf "k" (store two_quiet_listeners))) as H.
  { repeat constructor; eexists; split; reflexivity. }
  split; [exact H|].
  destruct (store_fan_out two_quiet_listeners "k" (VNum 1) 0 H)
    as (_ & (w' & Hset & Hcalls & _) & _).
  exists w'. split; [exact Hset|exact Hcalls].
Defined.

Lemma listener_error_propagates_witness :
  listenersOf "k" (store two_listeners) = [] ++ 0%nat :: [1%nat]
  /\ Forall (returns two_listeners (VNum 1)) []
  /\ throwing two_listeners (VNum 1) boom 0
  /\ exists w', DataStore_set 1 "k" (VNum 1) two_listeners = Throws boom w'
                /\ calls w' = [Invoked 0 (VNum 1)].
Proof.
  assert (throwing two_listeners (VNum 1) boom 0) as H.
  { eexists. split; reflexivity. }
  split; [reflexivity|]. split; [constructor|]. split; [exact H|].
  destruct (listener_error_propagates two_listeners "k" (VNum 1) boom
              [] [1%nat] 0%nat 0%nat eq_refl (Forall_nil_2 _) H)
    as (w' & Hset & _ & Hcalls & _).
  exists w'. split; [exact Hset|exact Hcalls].
Defined.

Lemma missing_key_semantics_witness :
  prototype_untouched (store two_quiet_listeners)
  /\ ("k" ∉ Object_prototype)
  /\ Forall (returns two_quiet_listeners (VNum 0))
            (listenersOf "k" (store two_quiet_listeners))
  /\ exists w', DataStore_set 1 "k" (VNum 0) two_quiet_listeners = Done w'
                /\ DataStore_get "k" (store w') = inl (VNum 0).
Proof.
  assert (prototype_untouched (store two_quiet_listeners)) as Hp
    by reflexivity.
  assert ("k" ∉ Object_prototype) as Hk
    by (by apply (bool_decide_unpack _)).
  assert (Forall (returns two_quiet_listeners (VNum 0))
                 (listenersOf "k" (store two_quiet_listeners))) as H.
  { repeat constructor; eexists; split; reflexivity. }
  split; [exact Hp|]. split; [exact Hk|]. split; [exact H|].
  destruct (missing_key_semantics two_quiet_listeners "k" (VNum 0) 0 Hp Hk H)
    as (_ & _ & (w' & Hset & _ & Hget) & _).
  exists w'. split; [exact Hset|exact Hget].
Defined.

Lemma accepts_two_units (r : nat) :
  r ∈ _units two_units -> accepts two_units (50 - 0) (50 - 0) r = true.
Proof.
  intros Hr. unfold accepts.
  assert (exists name f, heap two_units !! r = Some (Unit_new name f))
    as (name & f & ->).
  { apply elem_of_cons in Hr as [->|Hr]; [by eexists _, _|].
    apply list_elem_of_singleton in Hr as ->. by eexists _, _. }
  apply andb_true_iff. split; [|reflexivity].
  apply hitTestDefault_true. simpl. rewrite sin_0, cos_0.
  repeat split; lra.
Qed.

Lemma topmost_wins_witness :
  Forall (fun r => is_Some (heap two_units !! r)) (_units two_units)
  /\ onCanvasClick (DataStore_set 1) 50 50 two_units
     = Done (with_calls [Invoked 1 (VEvent 50 50)] two_units).
Proof.
  assert (Forall (fun r => is_Some (heap two_units !! r)) (_units two_units))
    as H.
  { repeat constructor; eexists; reflexivity. }
  split; [exact H|].
  rewrite (proj1 (topmost_wins (DataStore_set 1) two_units 50 50 H)).
  cbn [_getMousePos px py canvasRect two_units _units].
  rewrite !filter_cons, filter_nil.
  rewrite !decide_True
    by (apply accepts_two_units; cbn [_units two_units]; set_solver).
  reflexivity.
Defined.

Lemma position_binding_propagates_witness :
  heap two_units !! 0%nat = Some (Unit_new "A" 0)
  /\ heap two_units !! 1%nat = Some (Unit_new "B" 1)
  /\ 0%nat ≠ 1%nat
  /\ "A" ≠ "B"
  /\ exists w1,
      Unit_bindPositionRelativeTo (DataStore_set 2) 1 0 "right"
                                  (mkOffset (Some 5%R) None) two_units
      = Done w1
      /\ posOf w1 1%nat = Some (mkPoint (10 + 100 + 5) (10 + (100 - 100) / 2))
      /\ exists w2,
          moveAll (DataStore_set 2) 0 [mkPoint 40 30] w1 = Done w2
          /\ posOf w2 1%nat
             = Some (mkPoint (40 + 100 + 5) (30 + (100 - 100) / 2)).
Proof.
  split; [reflexivity|]. split; [reflexivity|]. split; [lia|].
  split; [discriminate|].
  destruct (position_binding_propagates
              two_units 0 1 (Unit_new "A" 0) (Unit_new "B" 1) 0
              eq_refl eq_refl ltac:(lia) ltac:(discriminate)
              (Forall_nil_2 _) (Forall_nil_2 _))
    as (w1 & Hbind & _ & HposB & Hmove).
  exists w1. split; [exact Hbind|]. split; [exact HposB|].
  destruct (Hmove [] (mkPoint 40 30)) as (w2 & Hm & _ & Hb & _).
  exists w2. split; [exact Hm|exact Hb].
Defined.

Section SchedulerScenes.
Local Open Scope Q_scope.

Lemma animation_completion_witness :
  Task.anim fade_task = Some fade_animation
  /\ (forall x, Task.curve fade_animation x == x)
  /\ Task.startVal fade_animation == 0
  /\ Task.endVal fade_animation == 10
  /\ ~ Task.duration fade_animation == 0
  /\ exists v active,
      run fade_task 500
      = (Fired "fade" 7 (Some (Finite v)), Task.with_lastRun 500 fade_task,
         active)
      /\ v == 10
      /\ active = false.
Proof.
  assert (forall x, Task.curve fade_animation x == x) as Hcurve.
  { intros x. reflexivity. }
  assert (~ Task.duration fade_animation == 0) as HD.
  { intros H. discriminate H. }
  split; [reflexivity|]. split; [exact Hcurve|]. split; [reflexivity|].
  split; [reflexivity|]. split; [exact HD|].
  destruct (animation_completion fade_task fade_animation 500 eq_refl Hcurve
              (Qeq_refl _) (Qeq_refl _) HD)
    as (v & active & Hrun & _ & _ & Hend & Hactive & _).
  exists v, active. split; [exact Hrun|]. split.
  - apply Hend. reflexivity.
  - apply Hactive. vm_compute. discriminate.
Defined.

Lemma repeat_count_witness :
  (0 <= 2)%Z
  /\ Forall (untouched "twice" ["global"]) [Start; Frame 10; Frame 20; Frame 30]
  /\ fireCount "twice"
       (performAll [Start; Frame 10; Frame 20; Frame 30]
          (add "twice" 10 2 0 ["global"] 0 TaskScheduler_new)) = 2%nat
  /\ scheduled "twice"
       (performAll [Start; Frame 10; Frame 20; Frame 30]
          (add "twice" 10 2 0 ["global"] 0 TaskScheduler_new)) = None.
Proof.
  assert (Forall (untouched "twice" ["global"])
                 [Start; Frame 10; Frame 20; Frame 30]) as Hu.
  { repeat constructor. }
  split; [lia|]. split; [exact Hu|]. split; [reflexivity|].
  destruct (repeat_count [] [Start; Frame 10; Frame 20; Frame 30]
                         "twice" 10 2 0 ["global"] 0 ltac:(lia) Hu)
    as (Hfinite & _ & _).
  destruct (Hfinite ltac:(lia)) as (_ & _ & Hgone).
  apply Hgone. reflexivity.
Defined.
End SchedulerScenes.

(** * Further properties *)

(** ** Scheduler: one call, one task *)

Section OneCall.
Implicit Types (s : TaskScheduler) (t : Task.t) (c : call).

Lemma scheduled_none_filter (P : Task.t -> Prop) `{!∀ x, Decision (P x)}
      name (l : list Task.t) :
  head (filter (fun y => Task.name y = name) l) = None ->
  head (filter (fun y => Task.name y = name) (filter P l)) = None.
Proof.
  induction l as [|x l IH]; [done|].
  rewrite filter_cons. destruct (decide (Task.name x = name)) as [Hx|Hx];
    [discriminate|].
  intros Hh. rewrite filter_cons. destruct (decide (P x)); [|by apply IH].
  rewrite filter_cons, decide_False by done. by apply IH.
Qed.

(** A call that does not add a task under [name] does not schedule one. *)
Lemma perform_unscheduled name s c :
  NoDup (Task.name <$> tasks s) ->
  not_adding name c ->
  scheduled name s = None ->
  scheduled name (perform s c) = None
  /\ fireCount name (perform s c) = fireCount name s.
Proof.
  intros Hnd Hc Hs. destruct c; simpl in Hc; simpl perform.
  - split; [|done]. unfold add. rewrite scheduled_push_other by done.
    by rewrite scheduled_remove_other.
  - split; [|done]. unfold addAnim. rewrite scheduled_push_other by done.
    by rewrite scheduled_remove_other.
  - split; [|done]. unfold scheduled, remove. simpl.
    by apply scheduled_none_filter.
  - done.
  - destruct (running s) eqn:Hr; [|by rewrite loop_stopped].
    rewrite loop_scheduled, loop_fireCount by done. rewrite Hs. simpl.
    split; [done|lia].
  - split; [|done]. unfold scheduled, pause. cbn [tasks].
    rewrite scheduled_fmap by (intros x; by case_bool_decide).
    fold (scheduled name s). by rewrite Hs.
  - split; [|done]. unfold scheduled, resume, start. cbn [tasks].
    rewrite scheduled_fmap
      by (intros x; case_bool_decide; [apply notifyResumed_name|done]).
    fold (scheduled name s). by rewrite Hs.
  - split; [|by destruct channel]. destruct channel as [ch|]; [|done].
    unfold scheduled, stop. cbn [tasks]. by apply scheduled_none_filter.
Qed.

Lemma performAll_unscheduled name (cs : list call) s :
  NoDup (Task.name <$> tasks s) ->
  Forall (not_adding name) cs ->
  scheduled name s = None ->
  scheduled name (performAll cs s) = None
  /\ fireCount name (performAll cs s) = fireCount name s.
Proof.
  revert s. induction cs as [|c cs IH]; intros s Hnd Hcs Hs; [done|].
  apply Forall_cons in Hcs as [Hc Hcs]. simpl.
  destruct (perform_unscheduled name s c Hnd Hc Hs) as [H1 H2].
  destruct (IH (perform s c)) as [H3 H4]; [by apply perform_names_NoDup|done..|].
  split; [done|]. by rewrite H4.
Qed.

(** A call that leaves a scheduled task alone changes it as [evolve]
    says. *)
Lemma perform_scheduled name channels s c t :
  NoDup (Task.name <$> tasks s) ->
  untouched name channels c ->
  scheduled name s = Some t ->
  Task.channels t = channels ->
  scheduled name (perform s c) = evolve c s t.
Proof.
  intros Hnd Hc Hs Hch. destruct c; simpl in Hc; simpl perform; simpl evolve.
  - unfold add. rewrite scheduled_push_other by done.
    by rewrite scheduled_remove_other.
  - unfold addAnim. rewrite scheduled_push_other by done.
    by rewrite scheduled_remove_other.
  - by rewrite scheduled_remove_other.
  - done.
  - destruct (running s) eqn:Hr; [|by rewrite loop_stopped].
    rewrite loop_scheduled by done. by rewrite Hs.
  - unfold scheduled, pause. cbn [tasks].
    rewrite scheduled_fmap by (intros x; by case_bool_decide).
    fold (scheduled name s). by rewrite Hs.
  - unfold scheduled, resume, start. cbn [tasks].
    rewrite scheduled_fmap
      by (intros x; case_bool_decide; [apply notifyResumed_name|done]).
    fold (scheduled name s). by rewrite Hs.
  - destruct channel as [ch|]; [|done].
    unfold scheduled at 1, stop. cbn [tasks].
    rewrite scheduled_filter; [done|].
    intros x Hx Hn.
    pose proof (scheduled_unique name (tasks s) x Hnd Hx Hn) as Hsch.
    fold (scheduled name s) in Hsch. rewrite Hs in Hsch. injection Hsch as <-.
    by rewrite Hch.
Qed.

(** Only a frame of a running scheduler calls callbacks. *)
Lemma perform_fireCount name s c :
  NoDup (Task.name <$> tasks s) ->
  fireCount name (perform s c)
  = match c with
    | Frame frame =>
        if running s then
          (fireCount name s
           + match scheduled name s
                   ≫= (fun t => (visit frame (pausedChannels s) t).1) with
             | Some _ => 1
             | None => 0
             end)%nat
        else fireCount name s
    | _ => fireCount name s
    end.
Proof.
  intros Hnd. destruct c; try done.
  - simpl. destruct (running s) eqn:Hr; [|by rewrite loop_stopped].
    by apply loop_fireCount.
  - by destruct channel.
Qed.
End OneCall.

(** ** Scheduler: cancelling, stopping, pausing *)

Section SchedulerChannels.
Local Open Scope Q_scope.
Implicit Types (s : TaskScheduler) (t : Task.t) (c : call).

Lemma scheduled_remove_same name s : scheduled name (remove name s) = None.
Proof.
  unfold scheduled, remove. simpl.
  rewrite filter_none; [done|].
  apply Forall_forall. intros x Hx Hn.
  apply list_elem_of_filter in Hx as [Hx _]. by apply Hx.
Qed.

Lemma scheduled_filter_out (P : Task.t -> Prop) `{!∀ x, Decision (P x)}
      name (l : list Task.t) :
  (forall x, x ∈ l -> Task.name x = name -> ~ P x) ->
  head (filter (fun y => Task.name y = name) (filter P l)) = None.
Proof.
  intros HP. rewrite filter_none; [done|].
  apply Forall_forall. intros x Hx Hn.
  apply list_elem_of_filter in Hx as [Hpx Hx]. by apply (HP x).
Qed.

Lemma existsb_other_channel (paused : gset string) channel (l : list string) :
  channel ∉ l ->
  existsb (fun ch => bool_decide (ch ∈ {[channel]} ∪ paused)) l
  = existsb (fun ch => bool_decide (ch ∈ paused)) l.
Proof.
  induction l as [|x l IH]; intros Hnot; [done|].
  rewrite not_elem_of_cons in Hnot. destruct Hnot as [Hne Hnot].
  simpl. rewrite IH by done.
  f_equal. apply bool_decide_ext.
  rewrite elem_of_union, elem_of_singleton.
  split; [intros [Hx|Hx]; [congruence|exact Hx]|by right].
Qed.

Lemma visit_other_channel frame paused channel t :
  channel ∉ Task.channels t ->
  visit frame ({[channel]} ∪ paused) t = visit frame paused t.
Proof. intros H. unfold visit. by rewrite existsb_other_channel. Qed.
End SchedulerChannels.

(** X1. Once a task has been removed by name, no later call makes the
    scheduler call its callback or schedule it again, as long as no task
    is added under that name. *)
Theorem removed_never_called (cs cs' : list call) (name : string) :
  Forall (not_adding name) cs' ->
  let s := remove name (performAll cs TaskScheduler_new) in
  scheduled name (performAll cs' s) = None
  /\ fireCount name (performAll cs' s) = fireCount name s.
Proof.
  intros Hcs s. apply performAll_unscheduled; [|done|].
  - apply (perform_names_NoDup _ (Remove name)), reachable_names_NoDup.
  - apply scheduled_remove_same.
Qed.

(** X2. [stop(channel)] discards the tasks that carry the channel, and
    [stop()] discards every task: a discarded task is never called again
    unless it is added again.  [stop(channel)] leaves every task that does
    not carry the channel exactly as it was. *)
Theorem stop_discards (cs cs' : list call) (name : string) (t : Task.t)
        (channel : option string) :
  let s := performAll cs TaskScheduler_new in
  scheduled name s = Some t ->
  match channel with Some ch => ch ∈ Task.channels t | None => True end ->
  Forall (not_adding name) cs' ->
  scheduled name (performAll cs' (stop channel s)) = None
  /\ fireCount name (performAll cs' (stop channel s)) = fireCount name s
  /\ (forall ch name' t',
         scheduled name' s = Some t' -> ch ∉ Task.channels t' ->
         scheduled name' (stop (Some ch) s) = Some t').
Proof.
  intros s Hs Hch Hcs.
  pose proof (reachable_names_NoDup cs) as Hnd. fold s in Hnd.
  assert (scheduled name (stop channel s) = None) as Hnone.
  { destruct channel as [ch|]; [|done].
    unfold scheduled, stop. cbn [tasks]. apply scheduled_filter_out.
    intros x Hx Hn Hnot.
    pose proof (scheduled_unique name (tasks s) x Hnd Hx Hn) as Hsch.
    fold (scheduled name s) in Hsch. rewrite Hs in Hsch. injection Hsch as <-.
    done. }
  destruct (performAll_unscheduled name cs' (stop channel s)) as [H1 H2].
  { by apply (perform_names_NoDup s (Stop channel)). }
  { done. }
  { done. }
  split; [done|]. split.
  - rewrite H2. by destruct channel.
  - intros ch name' t' Hs' Hnot.
    apply (perform_scheduled name' (Task.channels t') s (Stop (Some ch)) t');
      done.
Qed.

(** X3. Pausing a channel freezes the tasks that carry it and no others: in
    the next frame a task that carries the channel is not called and only
    records the pause instant, while a task that does not carry it is
    called, rescheduled or removed exactly as if the channel had not been
    paused. *)
Theorem channel_pause_isolation (cs : list call) (name channel : string)
        (t : Task.t) (frame : Q) :
  let s := performAll cs TaskScheduler_new in
  scheduled name s = Some t ->
  if bool_decide (channel ∈ Task.channels t) then
    scheduled name (loop frame (pause channel s))
    = Some (notifyPaused (now s) t)
    /\ fireCount name (loop frame (pause channel s)) = fireCount name s
  else
    scheduled name (pause channel s) = Some t
    /\ scheduled name (loop frame (pause channel s))
       = scheduled name (loop frame s)
    /\ fireCount name (loop frame (pause channel s))
       = fireCount name (loop frame s).
Proof.
  intros s Hs.
  pose proof (reachable_names_NoDup cs) as Hnd. fold s in Hnd.
  pose proof (perform_names_NoDup s (Pause channel) Hnd) as Hnd'.
  simpl perform in Hnd'.
  pose proof (perform_scheduled name (Task.channels t) s (Pause channel) t
                                Hnd I Hs eq_refl) as Hp.
  simpl in Hp.
  case_bool_decide as Hch.
  - destruct (frames_while_paused name channel (notifyPaused (now s) t)
                                  [frame] (pause channel s))
      as (_ & H2 & H3); try done.
    simpl. set_solver.
  - split; [done|].
    destruct (running s) eqn:Hr.
    + rewrite !loop_scheduled, !loop_fireCount by done.
      rewrite Hp, Hs. simpl.
      rewrite visit_other_channel by done. done.
    + rewrite (loop_stopped frame s) by done.
      rewrite loop_stopped by exact Hr.
      split; [by rewrite Hp, Hs|done].
Qed.

(** ** Scheduler: timing of tasks and animations *)

Section SchedulerTiming.
Local Open Scope Q_scope.
Implicit Types (s : TaskScheduler) (t : Task.t) (c : call).

Lemma run_delay t frame : Task.delay (run t frame).1.2 = Task.delay t.
Proof.
  unfold run. destruct (Task.anim t); simpl; [done|]. by case_bool_decide.
Qed.

Lemma run_lastRun t frame : Task.lastRun (run t frame).1.2 = frame.
Proof.
  unfold run. destruct (Task.anim t); simpl; [done|]. by case_bool_decide.
Qed.

Lemma loop_running frame s : running (loop frame s) = running s.
Proof.
  unfold loop. destruct (running s) eqn:Hr; [|done].
  assert (forall l s', running (loop_tasks frame l s') = running s')
    as H; [|by rewrite H].
  induction l as [|t l IH]; intros s'; simpl; [done|].
  destruct (isPaused s' t); [apply IH|].
  destruct (shouldRun t frame); [|apply IH].
  destruct (run t frame) as [[c t'] active]. rewrite IH. by destruct active.
Qed.

(** What a frame that calls a task's callback tells about the task. *)
Lemma fired_in_frame name frame s t :
  NoDup (Task.name <$> tasks s) ->
  scheduled name s = Some t ->
  fireCount name (loop frame s) = S (fireCount name s) ->
  running s = true /\ isPaused s t = false /\ shouldRun t frame = true
  /\ scheduled name (loop frame s)
     = if (run t frame).2 then Some (run t frame).1.2 else None.
Proof.
  intros Hnd Hs Hfire.
  destruct (running s) eqn:Hr; [|rewrite loop_stopped in Hfire by done; lia].
  rewrite loop_fireCount in Hfire by done.
  rewrite loop_scheduled by done. rewrite Hs in Hfire |- *. simpl in *.
  destruct (isPaused s t) eqn:Hp.
  { rewrite visit_paused in Hfire by done. simpl in Hfire. lia. }
  destruct (shouldRun t frame) eqn:Hdue.
  2:{ rewrite visit_idle in Hfire by done. simpl in Hfire. lia. }
  destruct (run t frame) as [[c t'] active] eqn:Hrun.
  rewrite (visit_run frame s t t' c active) by done. done.
Qed.

Lemma forever_perform name channels delay s c :
  untouched name channels c ->
  forever name channels delay s -> forever name channels delay (perform s c).
Proof.
  intros Hc (Hnd & t & Hs & Ha & Hrep & Hrem & Hch & Hd).
  split; [by apply perform_names_NoDup|].
  rewrite (perform_scheduled name channels s c t) by done.
  destruct c as [| | | |frame| | |]; simpl evolve; try (by exists t).
  - destruct (running s); [|by exists t].
    unfold visit. destruct (existsb _ _); [by exists t|].
    destruct (shouldRun t frame); [|by exists t].
    unfold run. rewrite Ha.
    rewrite (bool_decide_false (Task.repeat t ≠ INFINITE))
      by (rewrite Hrep; intros H; by apply H).
    simpl. rewrite Hrem. simpl. eexists. split; [done|]. by split_and!.
  - case_bool_decide; eexists; (split; [done|]); by split_and!.
  - case_bool_decide; [|by exists t].
    unfold notifyResumed. destruct (Task.pausedAt t); [|by exists t].
    rewrite Ha. eexists. split; [done|]. by split_and!.
Qed.

Lemma forever_performAll name channels delay (cs : list call) s :
  Forall (untouched name channels) cs ->
  forever name channels delay s ->
  forever name channels delay (performAll cs s).
Proof.
  revert s. induction cs as [|c cs IH]; intros s Hu Hinv; [done|].
  apply Forall_cons in Hu as [Hc Hu]. simpl.
  apply IH; [done|]. by apply forever_perform.
Qed.
End SchedulerTiming.

Section SchedulerTimingTheorems.
Local Open Scope Q_scope.

(** X4. A plain task added with [repeat = -1] is never removed by the
    scheduler: whatever calls follow that leave its name and channels
    alone, it stays scheduled with [remaining = -1] and its delay, and
    every frame of a running scheduler at which it is unpaused and due
    calls it once and reschedules it from that frame. *)
Theorem infinite_task_persists (cs cs' : list call) (name : string) (delay : Q)
        (fn : nat) (channels : list string) (clock : Q) :
  Forall (untouched name channels) cs' ->
  let s2 := performAll cs' (add name delay INFINITE fn channels clock
                                (performAll cs TaskScheduler_new)) in
  exists t,
    scheduled name s2 = Some t
    /\ Task.remaining t = INFINITE
    /\ Task.delay t = delay
    /\ forall frame,
        running s2 = true -> isPaused s2 t = false ->
        delay <= frame - Task.lastRun t ->
        fireCount name (loop frame s2) = S (fireCount name s2)
        /\ exists t', scheduled name (loop frame s2) = Some t'
                      /\ Task.lastRun t' = frame
                      /\ Task.remaining t' = INFINITE.
Proof.
  intros Hu s2.
  assert (forever name channels delay s2) as (Hnd & t & Hs & Ha & Hrep & Hrem & Hch & Hd).
  { apply forever_performAll; [done|]. split.
    - apply push_names_NoDup; [done|apply reachable_names_NoDup].
    - eexists. unfold scheduled, add. cbn [tasks with_tasks].
      rewrite push_scheduled by done. split; [done|]. by split_and!. }
  exists t. split_and!; try done.
  intros frame Hr Hp Hdue.
  assert (shouldRun t frame = true) as Hshould.
  { unfold shouldRun. apply Qle_bool_iff. by rewrite Hd. }
  rewrite loop_fireCount, loop_scheduled by done. rewrite Hs. simpl.
  destruct (run t frame) as [[c t'] active] eqn:Hrun.
  rewrite (visit_run frame s2 t t' c active) by done. simpl.
  unfold run in Hrun. rewrite Ha in Hrun.
  rewrite (bool_decide_false (Task.repeat t ≠ INFINITE)) in Hrun
    by (rewrite Hrep; intros H; by apply H).
  simpl in Hrun. rewrite Hrem in Hrun. simpl in Hrun.
  injection Hrun as <- <- <-. split; [lia|].
  eexists. split; [done|]. by split.
Qed.

(** X5. Two calls of the same task's callback in two successive frames are at
    least the task's delay apart. *)
Theorem calls_at_least_delay_apart (cs : list call) (name : string)
        (t : Task.t) (frame1 frame2 : Q) :
  let s := performAll cs TaskScheduler_new in
  scheduled name s = Some t ->
  fireCount name (loop frame1 s) = S (fireCount name s) ->
  fireCount name (loop frame2 (loop frame1 s)) = S (S (fireCount name s)) ->
  Task.delay t <= frame2 - frame1.
Proof.
  intros s Hs H1 H2.
  pose proof (reachable_names_NoDup cs) as Hnd. fold s in Hnd.
  destruct (fired_in_frame name frame1 s t Hnd Hs H1) as (Hr & Hp & Hdue & Hs1).
  pose proof (perform_names_NoDup s (Frame frame1) Hnd) as Hnd1.
  simpl perform in Hnd1.
  destruct (scheduled name (loop frame1 s)) as [t1|] eqn:Hsch.
  - rewrite <- H1 in H2.
    destruct (fired_in_frame name frame2 (loop frame1 s) t1 Hnd1 Hsch H2)
      as (_ & _ & Hdue2 & _).
    assert (t1 = (run t frame1).1.2) as ->.
    { destruct ((run t frame1).2); congruence. }
    unfold shouldRun in Hdue2. rewrite run_delay, run_lastRun in Hdue2.
    by apply Qle_bool_iff.
  - rewrite loop_fireCount in H2 by (rewrite ?loop_running; done).
    rewrite Hsch in H2. simpl in H2. lia.
Qed.

(** X6. An animation on a channel that is paused when the scheduler's
    clock reads [t_p] and resumed when it reads [t_r] is not
    called in between; resuming adds [P = t_r - t_p] to its
    [totalPausedTime], leaves [lastRun] alone, and so the elapsed time it
    computes at [t + P] is the one it would have computed at [t] without
    the pause: it completes [P] later. *)
Theorem animation_pause_correction (cs : list call) (name channel : string)
        (T : Task.t) (a : Task.animation) (nows : list Q) :
  let s := performAll cs TaskScheduler_new in
  scheduled name s = Some T ->
  Task.anim T = Some a ->
  channel ∈ Task.channels T ->
  let s2 := performAll (Frame <$> nows) (pause channel s) in
  let s3 := resume channel s2 in
  let P := now s2 - now s in
  let T' := Task.with_pausedAt None
              (Task.with_totalPausedTime (Task.totalPausedTime T + P) T) in
  fireCount name s2 = fireCount name s
  /\ scheduled name s3 = Some T'
  /\ (forall t, elapsedAt T' a (t + P) == elapsedAt T a t)
  /\ (forall t, (run T' (t + P)).2 = (run T t).2).
Proof.
  intros s Hs Hanim Hch s2 s3 P T'.
  pose proof (reachable_names_NoDup cs) as Hnd. fold s in Hnd.
  pose proof (perform_scheduled name (Task.channels T) s (Pause channel) T
                                Hnd I Hs eq_refl) as Hs1.
  simpl in Hs1. rewrite bool_decide_true in Hs1 by done.
  destruct (frames_while_paused name channel (notifyPaused (now s) T) nows
                                (pause channel s))
    as (Hnd2 & Hs2 & Hc2).
  { by apply (perform_names_NoDup s (Pause channel)). }
  { done. }
  { done. }
  { simpl. apply elem_of_union. left. by apply elem_of_singleton. }
  fold s2 in Hnd2, Hs2, Hc2.
  assert (forall t, elapsedAt T' a (t + P) == elapsedAt T a t) as He.
  { intros t. unfold elapsedAt, T'. simpl. ring. }
  split; [by rewrite Hc2|]. split; [|split; [exact He|]].
  - unfold s3.
    rewrite (perform_scheduled name (Task.channels T) s2 (Resume channel)
                               (notifyPaused (now s) T) Hnd2 I Hs2 eq_refl
             : scheduled name (resume channel s2) = _).
    simpl. rewrite bool_decide_true by done.
    unfold notifyResumed. simpl. by rewrite Hanim.
  - intros t. unfold run. replace (Task.anim T') with (Some a) by done.
    rewrite Hanim. simpl. unfold Qltb. by rewrite He.
Qed.

(** X7. Pausing a channel that is already paused restarts the pause clock: a
    plain task paused at clock [t1], paused again at clock [t2] and then
    resumed at clock [t3] has its [lastRun] moved forward by [t3 - t2]
    only, so the interval from [t1] to [t2] counts towards its delay. *)
Theorem repeated_pause_restarts_clock (cs : list call) (name channel : string)
        (T : Task.t) (nows1 nows2 : list Q) :
  let s := performAll cs TaskScheduler_new in
  scheduled name s = Some T ->
  Task.anim T = None ->
  channel ∈ Task.channels T ->
  let s2 := performAll (Frame <$> nows1) (pause channel s) in
  let s4 := performAll (Frame <$> nows2) (pause channel s2) in
  let s5 := resume channel s4 in
  fireCount name s4 = fireCount name s
  /\ scheduled name s5
     = Some (Task.with_pausedAt None
               (Task.with_lastRun (Task.lastRun T + (now s4 - now s2)) T)).
Proof.
  intros s Hs Hplain Hch s2 s4 s5.
  pose proof (reachable_names_NoDup cs) as Hnd. fold s in Hnd.
  pose proof (perform_scheduled name (Task.channels T) s (Pause channel) T
                                Hnd I Hs eq_refl) as Hs1.
  simpl in Hs1. rewrite bool_decide_true in Hs1 by done.
  destruct (frames_while_paused name channel (notifyPaused (now s) T) nows1
                                (pause channel s))
    as (Hnd2 & Hs2 & Hc2).
  { by apply (perform_names_NoDup s (Pause channel)). }
  { done. }
  { done. }
  { simpl. apply elem_of_union. left. by apply elem_of_singleton. }
  fold s2 in Hnd2, Hs2, Hc2.
  pose proof (perform_scheduled name (Task.channels T) s2 (Pause channel)
                                (notifyPaused (now s) T) Hnd2 I Hs2 eq_refl)
    as Hs3.
  simpl in Hs3. rewrite bool_decide_true in Hs3 by done.
  destruct (frames_while_paused name channel
              (notifyPaused (now s2) (notifyPaused (now s) T)) nows2
              (pause channel s2))
    as (Hnd4 & Hs4 & Hc4).
  { by apply (perform_names_NoDup s2 (Pause channel)). }
  { done. }
  { done. }
  { simpl. apply elem_of_union. left. by apply elem_of_singleton. }
  fold s4 in Hnd4, Hs4, Hc4.
  split.
  { rewrite Hc4. change (fireCount name (pause channel s2))
      with (fireCount name s2). by rewrite Hc2. }
  unfold s5.
  rewrite (perform_scheduled name (Task.channels T) s4 (Resume channel)
                             _ Hnd4 I Hs4 eq_refl
           : scheduled name (resume channel s4) = _).
  simpl. rewrite bool_decide_true by done.
  unfold notifyResumed. simpl. by rewrite Hplain.
Qed.
End SchedulerTimingTheorems.

(** ** AnimationTask: interpolation in general *)

Section Interpolation.
Local Open Scope Q_scope.

Lemma clamp_below (x : Q) : x <= 0 -> Math_min 1 (Math_max 0 x) == 0.
Proof.
  intros Hx. unfold Math_min, Math_max.
  destruct (Qle_bool 0 x) eqn:E0.
  - apply Qle_bool_iff in E0. destruct (Qle_bool 1 x) eqn:E1.
    + apply Qle_bool_iff in E1. lra.
    + lra.
  - simpl. reflexivity.
Qed.

Lemma clamp_above (x : Q) : 1 <= x -> Math_min 1 (Math_max 0 x) == 1.
Proof.
  intros Hx. unfold Math_min, Math_max.
  destruct (Qle_bool 0 x) eqn:E0.
  - apply Qle_bool_iff in Hx as ->. reflexivity.
  - apply Qle_bool_false in E0. lra.
Qed.

Lemma between_ends (a b p : Q) :
  0 <= p <= 1 ->
  (a <= b -> a <= a + (b - a) * p <= b)
  /\ (b <= a -> b <= a + (b - a) * p <= a).
Proof. intros [H0 H1]. split; intros Hab; split; nra. Qed.

(** X8. An animation with the identity curve and a positive duration [D]
    interpolates linearly and clamps: the callback receives [startVal]
    while [elapsed <= 0], [startVal + (endVal - startVal) * elapsed / D]
    for [0 <= elapsed <= D] and [endVal] once [elapsed >= D]; the value
    always lies between [startVal] and [endVal]. *)
Theorem linear_interpolation (T : Task.t) (a : Task.animation) (frame : Q) :
  Task.anim T = Some a ->
  (forall x, Task.curve a x == x) ->
  0 < Task.duration a ->
  let D := Task.duration a in
  let e := elapsedAt T a frame in
  exists v,
    run T frame = (Fired (Task.name T) (Task.fn T) (Some (Finite v)),
                   Task.with_lastRun frame T, Qltb e D)
    /\ (e <= 0 -> v == Task.startVal a)
    /\ (0 <= e -> e <= D ->
        v == Task.startVal a + (Task.endVal a - Task.startVal a) * (e / D))
    /\ (D <= e -> v == Task.endVal a)
    /\ (Task.startVal a <= Task.endVal a ->
        Task.startVal a <= v <= Task.endVal a)
    /\ (Task.endVal a <= Task.startVal a ->
        Task.endVal a <= v <= Task.startVal a).
Proof.
  intros Ha Hcurve HD D e.
  assert (~ D == 0) as HD0 by (unfold D; lra).
  set (p := Math_min 1 (Math_max 0 (e / D))).
  exists (Task.startVal a + (Task.endVal a - Task.startVal a) * Task.curve a p).
  split.
  { unfold run. rewrite Ha. unfold animationValue. fold e. fold D.
    by rewrite rawProgress_finite. }
  rewrite Hcurve.
  pose proof (clamp_bounds (e / D)) as Hb. fold p in Hb.
  split; [|split; [|split]].
  - intros He. assert (p == 0) as ->; [|ring].
    apply clamp_below. apply Qle_shift_div_r; [exact HD|lra].
  - intros He0 HeD. assert (p == e / D) as ->; [|reflexivity].
    apply clamp_inside. split.
    + apply Qle_shift_div_l; [exact HD|lra].
    + apply Qle_shift_div_r; [exact HD|lra].
  - intros He. assert (p == 1) as ->; [|ring].
    apply clamp_above. apply Qle_shift_div_l; [exact HD|lra].
  - apply between_ends. exact Hb.
Qed.

(** X9. An animation with duration 0.  Run at the very instant it was created
    ([elapsed = 0]) it divides 0 by 0 and, its curve being the identity,
    hands NaN to its callback; run later it hands over the value of the
    curve at 1, whatever the curve.  Either way the run reports it
    inactive, so it is called once and removed. *)
Theorem zero_duration_animation (T : Task.t) (a : Task.animation) (frame : Q) :
  Task.anim T = Some a ->
  Task.duration a == 0 ->
  let e := elapsedAt T a frame in
  0 <= e ->
  (run T frame).2 = false
  /\ ((forall x, Task.curve a x == x) -> e == 0 ->
      (run T frame).1.1 = Fired (Task.name T) (Task.fn T) (Some NaN))
  /\ (0 < e ->
      (run T frame).1.1
      = Fired (Task.name T) (Task.fn T)
              (Some (Finite (Task.startVal a
                             + (Task.endVal a - Task.startVal a)
                               * Task.curve a 1)))).
Proof.
  intros Ha HD e He. unfold run. rewrite Ha. simpl. fold e.
  split; [|split].
  - apply Qltb_false. lra.
  - intros _ He0. unfold animationValue, rawProgress.
    apply Qeq_bool_iff in HD as ->. apply Qeq_bool_iff in He0 as ->. done.
  - intros Hpos. unfold animationValue, rawProgress.
    apply Qeq_bool_iff in HD as ->.
    destruct (Qeq_bool e 0) eqn:E0; [apply Qeq_bool_iff in E0; lra|].
    apply Qle_bool_iff in He as ->. done.
Qed.
End Interpolation.

(** ** Store keys of unit attributes *)

Section AttributeKeys.
Implicit Types (n attr : string).

Lemma split_at_first {A} (c : A) (x y r1 r2 : list A) :
  c ∉ x -> c ∉ y -> x ++ c :: r1 = y ++ c :: r2 -> x = y /\ r1 = r2.
Proof.
  revert y. induction x as [|u x IH]; intros [|v y] Hx Hy Heq; simpl in Heq.
  - by injection Heq as ->.
  - injection Heq as -> _. exfalso. apply Hy. apply list_elem_of_here.
  - injection Heq as -> _. exfalso. apply Hx. apply list_elem_of_here.
  - injection Heq as -> Heq.
    rewrite not_elem_of_cons in Hx. rewrite not_elem_of_cons in Hy.
    destruct (IH y) as [-> ->]; [tauto|tauto|done|done].
Qed.

(** The name and the attribute can be read back from a store key whose
    attribute contains no colon. *)
Lemma storeName_inj n1 n2 attr1 attr2 :
  colon ∉ String.list_ascii_of_string attr1 ->
  colon ∉ String.list_ascii_of_string attr2 ->
  n1 +:+ "::" +:+ attr1 = n2 +:+ "::" +:+ attr2 ->
  n1 = n2 /\ attr1 = attr2.
Proof.
  intros H1 H2 Heq. apply (f_equal String.list_ascii_of_string) in Heq.
  rewrite !to_list_app in Heq. simpl in Heq.
  apply (f_equal reverse) in Heq.
  rewrite !reverse_app in Heq. simpl in Heq.
  rewrite !reverse_cons in Heq.
  rewrite <- !app_assoc in Heq. simpl in Heq.
  apply (split_at_first colon) in Heq as [Ha Hn].
  - injection Hn as Hn. split.
    + apply to_list_inj. by apply (inj reverse).
    + apply to_list_inj. by apply (inj reverse).
  - by rewrite elem_of_reverse.
  - by rewrite elem_of_reverse.
Qed.
End AttributeKeys.

(** ** Position bindings in any direction *)

Section AnyBinding.
Implicit Types (w : World) (ls : list nat) (av : attribute).

Ltac wsimpl :=
  cbn [with_heap with_store with_functions with_calls with_units heap _units
       canvasRect store functions calls _data _listeners] in *.

Lemma attribute_colon_free av :
  colon ∉ String.list_ascii_of_string (attribute_name av).
Proof.
  destruct av; simpl; intros H;
    repeat (apply elem_of_cons in H as [H|H]; [discriminate|]);
    by apply elem_of_nil in H.
Qed.

Lemma colon_free_literals :
  Forall (fun attr => colon ∉ String.list_ascii_of_string attr)
         ["pos"; "size"; "rot"; "scale"].
Proof.
  repeat constructor; simpl; intros H;
    repeat (apply elem_of_cons in H as [H|H]; [discriminate|]);
    by apply elem_of_nil in H.
Qed.

(** Which keys a binding watches, read off a key. *)
Lemma watched_iff n attr na nb :
  colon ∉ String.list_ascii_of_string attr ->
  n +:+ "::" +:+ attr ∈ watchedKeys na nb
  <-> (n = na /\ attr ∈ ["pos"; "size"; "rot"; "scale"])
      \/ (n = nb /\ attr ∈ ["size"; "rot"; "scale"]).
Proof.
  intros Hattr.
  pose proof colon_free_literals as Hlit.
  rewrite !Forall_cons in Hlit. destruct Hlit as (Hp & Hs & Hr & Hc & _).
  unfold watchedKeys. rewrite !elem_of_cons, !elem_of_nil. split.
  - intros [H|[H|[H|[H|[H|[H|[H|[]]]]]]]];
      apply storeName_inj in H as [-> ->]; try done;
      first [left; split; [reflexivity|]; auto 10; fail
            |right; split; [reflexivity|]; auto 10].
  - intros [[-> H]|[-> H]].
    + destruct H as [->|[->|[->|[->|[]]]]]; auto 10.
    + destruct H as [->|[->|[->|[]]]]; auto 10.
Qed.

Lemma own_pos_not_watched na nb :
  na ≠ nb -> nb +:+ "::" +:+ "pos" ∉ watchedKeys na nb.
Proof.
  intros Hne H. apply watched_iff in H.
  - destruct H as [[-> _]|[_ H]]; [done|].
    rewrite !elem_of_cons, elem_of_nil in H.
    destruct H as [H|[H|[H|[]]]]; discriminate.
  - pose proof colon_free_literals as Hlit.
    by apply Forall_cons in Hlit as [Hp _].
Qed.

(** One run of the closure of a binding. *)
Lemma updatePosition_any fuel a b direction padX padY (A B : Unit.t) w :
  heap w !! a = Some A -> heap w !! b = Some B ->
  Forall (quiet w) (listenersOf (Unit.name B +:+ "::" +:+ "pos") (store w)) ->
  let p := placed direction padX padY B A in
  updatePosition (DataStore_set (S fuel)) b a direction padX padY w
  = Done (mkWorld
            (<[b := Unit.with_pos p B]> (heap w)) (_units w) (canvasRect w)
            (mkDataStore
               (<[Unit.name B +:+ "::" +:+ "pos" := VPoint p]> (_data (store w)))
               (_listeners (store w)))
            (functions w)
            (calls w ++ ((fun fn => Invoked fn (VPoint p))
                           <$> listenersOf (Unit.name B +:+ "::" +:+ "pos")
                                           (store w)))).
Proof.
  intros Ha Hb Hq p. unfold updatePosition. rewrite Ha, Hb.
  unfold Unit_update. rewrite Hb. unfold Unit_updateInStore.
  cbn [heap with_heap]. rewrite lookup_insert_eq.
  change (readAttribute _ (attribute_name _)) with (VPoint p).
  change (getAttributeStoreName (assign _ B) (attribute_name _))
    with (Unit.name B +:+ "::" +:+ "pos").
  rewrite set_returns.
  - reflexivity.
  - eapply Forall_impl; [exact Hq|]. intros fn Hfn. apply quiet_returns.
    by eapply quiet_same; [|exact Hfn].
Qed.

Lemma assign_name av (U : Unit.t) : Unit.name (assign av U) = Unit.name U.
Proof. by destruct av. Qed.

Lemma bound_to_same a b fn direction padX padY na nb base w w' :
  functions w' = functions w ->
  _listeners (store w') = _listeners (store w) ->
  (exists A, heap w' !! a = Some A /\ Unit.name A = na) ->
  (exists B, heap w' !! b = Some B /\ Unit.name B = nb) ->
  bound_to a b fn direction padX padY na nb base w ->
  bound_to a b fn direction padX padY na nb base w'.
Proof.
  intros Hf Hl Ha Hb (_ & _ & Hfn & Hq & Hls).
  split; [done|]. split; [done|]. split; [by rewrite Hf|]. split.
  - intros key. eapply Forall_impl; [apply Hq|]. intros g Hg.
    by eapply quiet_same; [|exact Hg].
  - intros key. unfold listenersOf. rewrite Hl. apply Hls.
Qed.

(** [unit.update(attr, value)] in the presence of a binding: the unit
    changes, and when the key is one the binding watches the bound unit is
    placed anew, within the same call. *)
Lemma update_bound_to fuel a b fn direction padX padY na nb base w
      (r : nat) (U : Unit.t) av :
  na ≠ nb ->
  bound_to a b fn direction padX padY na nb base w ->
  heap w !! r = Some U ->
  let h1 := <[r := assign av U]> (heap w) in
  exists w' A1 B1,
    Unit_update (DataStore_set (S (S fuel))) r av w = Done w'
    /\ bound_to a b fn direction padX padY na nb base w'
    /\ h1 !! a = Some A1 /\ h1 !! b = Some B1
    /\ heap w'
       = (if bool_decide (Unit.name U +:+ "::" +:+ attribute_name av
                          ∈ watchedKeys na nb)
          then <[b := Unit.with_pos (placed direction padX padY B1 A1) B1]> h1
          else h1)
    /\ _units w' = _units w.
Proof.
  intros Hnames Hbound Hr h1.
  pose proof Hbound as ((A & Ha & HnA) & (B & Hb & HnB) & Hfn & Hq & Hls).
  assert (exists A1, h1 !! a = Some A1 /\ Unit.name A1 = na) as (A1 & Ha1 & HnA1).
  { unfold h1. destruct (decide (r = a)) as [->|Hra].
    - rewrite lookup_insert_eq. eexists. split; [done|].
      rewrite assign_name. congruence.
    - rewrite lookup_insert_ne by done. eauto. }
  assert (exists B1, h1 !! b = Some B1 /\ Unit.name B1 = nb) as (B1 & Hb1 & HnB1).
  { unfold h1. destruct (decide (r = b)) as [->|Hrb].
    - rewrite lookup_insert_eq. eexists. split; [done|].
      rewrite assign_name. congruence.
    - rewrite lookup_insert_ne by done. eauto. }
  destruct w as [h us rect [d l] fs cs]. wsimpl.
  unfold Unit_update, Unit_updateInStore. wsimpl.
  rewrite Hr, lookup_insert_eq.
  unfold getAttributeStoreName. rewrite assign_name.
  set (key := Unit.name U +:+ "::" +:+ attribute_name av).
  set (v := readAttribute _ _).
  rewrite set_unfold. wsimpl.
  change (listenersOf key {| _data := <[key:=v]> d; _listeners := l |})
    with (listenersOf key (mkDataStore d l)).
  rewrite Hls, forEach_app, forEach_returns.
  2:{ eapply Forall_impl; [apply Hq|]. intros g Hg. apply quiet_returns.
      by eapply quiet_same; [|exact Hg]. }
  cbn [andThen]. wsimpl.
  case_bool_decide as Hw.
  - cbn [forEach andThen]. unfold invoke at 1. wsimpl. rewrite Hfn.
    rewrite (updatePosition_any fuel a b direction padX padY A1 B1);
      [|exact Ha1|exact Hb1|].
    2:{ wsimpl. rewrite HnB1.
        change (listenersOf ?k {| _data := _; _listeners := l |})
          with (listenersOf k (mkDataStore d l)).
        rewrite Hls, bool_decide_false by (by apply own_pos_not_watched).
        rewrite app_nil_r. eapply Forall_impl; [apply Hq|]. intros g Hg.
        by eapply quiet_same; [|exact Hg]. }
    wsimpl. cbn [andThen]. eexists _, A1, B1.
    split; [reflexivity|]. wsimpl. split_and!; try done.
    eapply bound_to_same; [| | | |exact Hbound]; wsimpl; try done.
    + exists A1. destruct (decide (a = b)) as [->|Hab].
      * congruence.
      * by rewrite lookup_insert_ne.
    + eexists. rewrite lookup_insert_eq. done.
  - cbn [forEach]. eexists _, A1, B1.
    split; [reflexivity|]. wsimpl. split_and!; try done.
    eapply bound_to_same; [| | | |exact Hbound]; wsimpl; try done; eauto.
Qed.
End AnyBinding.

(** ** Binding, then unbinding or deleting *)

Section BindAndUnbind.
Implicit Types (w : World) (ls : list nat) (av : attribute).

Ltac wsimpl :=
  cbn [with_heap with_store with_functions with_calls with_units heap _units
       canvasRect store functions calls _data _listeners] in *.

Ltac colon_free :=
  let H := fresh in
  simpl; intros H;
  repeat (apply elem_of_cons in H as [H|H]; [discriminate|]);
  by apply elem_of_nil in H.

Lemma filter_eq_NoDup (k : string) (l : list string) :
  NoDup l ->
  filter (fun key => key = k) l = if bool_decide (k ∈ l) then [k] else [].
Proof.
  induction 1 as [|x l Hx Hl IH]; [done|].
  rewrite filter_cons, IH. destruct (decide (x = k)) as [Hk|Hk].
  - subst x. rewrite (bool_decide_false (k ∈ l)) by done.
    rewrite bool_decide_true; [done|]. by left.
  - destruct (decide (k ∈ l)) as [Hin|Hin].
    + rewrite !bool_decide_true; [done| |done]. by right.
    + rewrite !bool_decide_false; [done| |done].
      rewrite not_elem_of_cons. split; [congruence|done].
Qed.

Lemma watchedKeys_NoDup na nb : na ≠ nb -> NoDup (watchedKeys na nb).
Proof.
  intros Hne. unfold watchedKeys.
  rewrite !NoDup_cons, !not_elem_of_cons.
  split_and!; try apply NoDup_nil_2; try apply not_elem_of_nil;
    intros H; apply storeName_inj in H as [? ?];
    try done; try congruence; colon_free.
Qed.

(** The subscriptions made by [watch], seen from the unit: each one is
    recorded, in order, after the ones the unit already had. *)
Lemma foldl_watch_unit b fn (keys : list string) :
  forall w (Bu : Unit.t) l,
    heap w !! b = Some Bu ->
    Unit._boundPositionListeners Bu = Some l ->
    heap (foldl (watch b fn) w keys)
    = <[b := Unit.with_bound
                (Some (l ++ ((fun key => (key, fn)) <$> keys))) Bu]> (heap w)
    /\ _units (foldl (watch b fn) w keys) = _units w
    /\ canvasRect (foldl (watch b fn) w keys) = canvasRect w.
Proof.
  induction keys as [|key keys IH]; intros w Bu l Hb Hl.
  - simpl. rewrite app_nil_r. split; [|done].
    rewrite insert_id; [done|]. rewrite Hb. f_equal.
    destruct Bu. simpl in Hl. by subst.
  - simpl.
    set (Bu1 := Unit.with_bound (Some (l ++ [(key, fn)])) Bu).
    assert (watch b fn w key
            = mkWorld (<[b := Bu1]> (heap w)) (_units w) (canvasRect w)
                      (DataStore_onChange key fn (store w))
                      (functions w) (calls w)) as Hw.
    { unfold watch. wsimpl. rewrite Hb, Hl. done. }
    rewrite Hw.
    destruct (IH (mkWorld (<[b := Bu1]> (heap w)) (_units w) (canvasRect w)
                          (DataStore_onChange key fn (store w))
                          (functions w) (calls w)) Bu1 (l ++ [(key, fn)]))
      as (Hh & Hu & Hc).
    { wsimpl. by rewrite lookup_insert_eq. }
    { done. }
    wsimpl. rewrite Hh, insert_insert_eq, <- app_assoc.
    split_and!; done.
Qed.

(** [B.bindPositionRelativeTo(A, direction, offset)] on a store whose
    listeners are host callbacks that never throw. *)
Lemma bind_any fuel a b (A B : Unit.t) direction offset w :
  heap w !! a = Some A -> heap w !! b = Some B ->
  a ≠ b -> Unit.name A ≠ Unit.name B ->
  (forall key, Forall (quiet w) (listenersOf key (store w))) ->
  let padX := default 0%R (offset_x offset) in
  let padY := default 0%R (offset_y offset) in
  let fn := fresh (dom (functions w)) in
  let B1 := Unit.with_pos (placed direction padX padY B A)
              (Unit.with_bound
                 (Some (default [] (Unit._boundPositionListeners B)
                        ++ ((fun key => (key, fn))
                              <$> watchedKeys (Unit.name A) (Unit.name B))))
                 B) in
  exists w1,
    Unit_bindPositionRelativeTo (DataStore_set (S fuel)) b a direction offset w
    = Done w1
    /\ bound_to a b fn direction padX padY (Unit.name A) (Unit.name B)
                (fun key => listenersOf key (store w)) w1
    /\ heap w1 = <[b := B1]> (heap w)
    /\ _units w1 = _units w
    /\ functions w1
       = <[fn := UpdatePosition b a direction padX padY]> (functions w).
Proof.
  intros Ha Hb Hab Hnames Hq padX padY fn B1.
  unfold Unit_bindPositionRelativeTo. rewrite Ha, Hb.
  fold padX padY.
  set (B0 := Unit.with_bound _ B).
  change (fresh (dom (functions (with_heap (<[b := B0]> (heap w)) w))))
    with fn.
  assert (functions w !! fn = None) as Hfresh.
  { apply not_elem_of_dom. apply is_fresh. }
  set (w0 := with_functions _ (with_heap _ w)).
  change [ getAttributeStoreName A "pos"; getAttributeStoreName A "size";
           getAttributeStoreName A "rot"; getAttributeStoreName A "scale";
           getAttributeStoreName B "size"; getAttributeStoreName B "rot";
           getAttributeStoreName B "scale" ]
    with (watchedKeys (Unit.name A) (Unit.name B)).
  destruct (foldl_watch b fn (watchedKeys (Unit.name A) (Unit.name B)) w0 B0)
    as (B' & Hh' & _ & _ & _ & Hf & Hc & Hd & Hl).
  { unfold w0. wsimpl. by rewrite lookup_insert_eq. }
  destruct (foldl_watch_unit b fn (watchedKeys (Unit.name A) (Unit.name B))
              w0 B0 (default [] (Unit._boundPositionListeners B)))
    as (Hh & Hu & Hr).
  { unfold w0. wsimpl. by rewrite lookup_insert_eq. }
  { done. }
  clear Hh' B'.
  set (w2 := foldl (watch b fn) w0 _) in *.
  assert (forall key,
            listenersOf key (store w2)
            = listenersOf key (store w)
              ++ (if bool_decide (key ∈ watchedKeys (Unit.name A) (Unit.name B))
                  then [fn] else [])) as Hls.
  { intros key. rewrite Hl, filter_eq_NoDup by by apply watchedKeys_NoDup.
    unfold w0. wsimpl. by case_bool_decide. }
  assert (forall g, quiet w g -> quiet w2 g) as Hquiet.
  { intros g Hg. eapply (quiet_same w0).
    - by rewrite Hf.
    - by apply quiet_insert_fresh. }
  set (Bw := Unit.with_bound _ B0) in Hh.
  assert (heap w2 !! a = Some A) as Ha2.
  { rewrite Hh. unfold w0. wsimpl. by rewrite !lookup_insert_ne. }
  assert (heap w2 !! b = Some Bw) as Hb2.
  { rewrite Hh. by rewrite lookup_insert_eq. }
  assert (functions w2 !! fn
          = Some (UpdatePosition b a direction padX padY)) as Hfn2.
  { rewrite Hf. unfold w0. wsimpl. by rewrite lookup_insert_eq. }
  unfold w0 in Hh, Hu, Hf. wsimpl.
  clearbody w2. unfold invoke. rewrite Hfn2.
  rewrite (updatePosition_any fuel a b direction padX padY A Bw);
    [|exact Ha2|exact Hb2|].
  2:{ wsimpl. change (Unit.name Bw) with (Unit.name B).
      rewrite Hls, bool_decide_false by (by apply own_pos_not_watched).
      rewrite app_nil_r. eapply Forall_impl; [apply Hq|]. intros g Hg.
      eapply (quiet_same w2); [reflexivity|]. by apply Hquiet. }
  wsimpl. eexists. split; [reflexivity|]. wsimpl.
  split_and!.
  - unfold bound_to. wsimpl. split_and!.
    + exists A. by rewrite lookup_insert_ne.
    + eexists. rewrite lookup_insert_eq. done.
    + done.
    + intros key. eapply Forall_impl; [apply Hq|]. intros g Hg.
      eapply (quiet_same w2); [reflexivity|]. by apply Hquiet.
    + intros key. rewrite listenersOf_data. apply Hls.
  - rewrite Hh, insert_insert_eq, insert_insert_eq. done.
  - exact Hu.
  - exact Hf.
Qed.
End BindAndUnbind.

(** ** What a binding guarantees *)

Section BindingGuarantees.
Implicit Types (w : World) (ls : list nat) (av : attribute).

Ltac wsimpl :=
  cbn [with_heap with_store with_functions with_calls with_units heap _units
       canvasRect store functions calls _data _listeners] in *.

Ltac colon_free :=
  let H := fresh in
  simpl; intros H;
  repeat (apply elem_of_cons in H as [H|H]; [discriminate|]);
  by apply elem_of_nil in H.

Ltac not_member H :=
  repeat (apply elem_of_cons in H as [H|H]; [discriminate|]);
  by apply elem_of_nil in H.

Lemma placed_ext direction padX padY (t1 t2 o1 o2 : Unit.t) :
  Unit.size t1 = Unit.size t2 ->
  Unit.pos o1 = Unit.pos o2 -> Unit.size o1 = Unit.size o2 ->
  placed direction padX padY t1 o1 = placed direction padX padY t2 o2.
Proof. unfold placed, placement. simpl. by intros -> -> ->. Qed.

Lemma updateAll_cons store_set r av (avs : list attribute) w w' :
  Unit_update store_set r av w = Done w' ->
  updateAll store_set r (av :: avs) w = updateAll store_set r avs w'.
Proof. intros H. unfold updateAll. simpl. by rewrite H. Qed.

(** While the binding lasts, an update of the target leaves the bound unit
    where the binding puts it. *)
Lemma update_target fuel a b fn direction padX padY na nb base
      (A B Bc : Unit.t) av w :
  a ≠ b -> na ≠ nb ->
  bound_to a b fn direction padX padY na nb base w ->
  heap w !! a = Some A -> heap w !! b = Some Bc ->
  Unit.size Bc = Unit.size B ->
  Unit.pos Bc = placed direction padX padY B A ->
  exists w' Bc',
    Unit_update (DataStore_set (S (S fuel))) a av w = Done w'
    /\ bound_to a b fn direction padX padY na nb base w'
    /\ heap w' !! a = Some (assign av A) /\ heap w' !! b = Some Bc'
    /\ Unit.size Bc' = Unit.size B
    /\ Unit.pos Bc' = placed direction padX padY B (assign av A)
    /\ _units w' = _units w.
Proof.
  intros Hab Hnames Hbound Ha Hb Hsize Hpos.
  pose proof Hbound as ((A' & Ha' & HnA) & _).
  assert (A' = A) as -> by congruence.
  destruct (update_bound_to fuel a b fn direction padX padY na nb base w
              a A av Hnames Hbound Ha)
    as (w' & A1 & B1 & Hup & Hbound' & Ha1 & Hb1 & Hheap & Hunits).
  rewrite lookup_insert_eq in Ha1. rewrite lookup_insert_ne in Hb1 by done.
  assert (A1 = assign av A) as -> by congruence.
  assert (B1 = Bc) as -> by congruence.
  rewrite HnA in Hheap.
  destruct (decide (attribute_name av ∈ ["pos"; "size"; "rot"; "scale"]))
    as [Hin|Hout].
  - rewrite bool_decide_true in Hheap.
    2:{ apply watched_iff; [apply attribute_colon_free|]. by left. }
    exists w'. eexists. split; [exact Hup|]. split; [exact Hbound'|].
    rewrite Hheap. rewrite lookup_insert_ne, lookup_insert_eq by done.
    rewrite lookup_insert_eq. split_and!; try done.
    by apply placed_ext.
  - rewrite bool_decide_false in Hheap.
    2:{ rewrite watched_iff by apply attribute_colon_free.
        intros [[_ H]|[H _]]; [done|]. by apply Hnames. }
    exists w', Bc. split; [exact Hup|]. split; [exact Hbound'|].
    rewrite Hheap. rewrite lookup_insert_eq, lookup_insert_ne by done.
    split_and!; try done.
    rewrite Hpos. destruct av; try done; exfalso; apply Hout; simpl;
      rewrite !elem_of_cons; auto 10.
Qed.

Lemma updateAll_target fuel a b fn direction padX padY na nb base
      (B : Unit.t) :
  a ≠ b -> na ≠ nb ->
  forall (avs : list attribute) (A Bc : Unit.t) w,
    bound_to a b fn direction padX padY na nb base w ->
    heap w !! a = Some A -> heap w !! b = Some Bc ->
    Unit.size Bc = Unit.size B ->
    Unit.pos Bc = placed direction padX padY B A ->
    exists w',
      updateAll (DataStore_set (S (S fuel))) a avs w = Done w'
      /\ bound_to a b fn direction padX padY na nb base w'
      /\ heap w' !! a = Some (assignAll avs A)
      /\ posOf w' b = Some (placed direction padX padY B (assignAll avs A))
      /\ _units w' = _units w.
Proof.
  intros Hab Hnames.
  induction avs as [|av avs IH]; intros A Bc w Hbound Ha Hb Hsize Hpos.
  - exists w. split; [done|]. split_and!; try done.
    unfold posOf. rewrite Hb. simpl. by rewrite Hpos.
  - destruct (update_target fuel a b fn direction padX padY na nb base
                A B Bc av w Hab Hnames Hbound Ha Hb Hsize Hpos)
      as (w1 & Bc1 & Hup & Hbound1 & Ha1 & Hb1 & Hsize1 & Hpos1 & Hunits1).
    destruct (IH (assign av A) Bc1 w1 Hbound1 Ha1 Hb1 Hsize1 Hpos1)
      as (w' & Hall & Hrest).
    exists w'. split.
    + by rewrite (updateAll_cons _ _ _ _ _ _ Hup).
    + simpl. destruct Hrest as (? & ? & ? & ?). split_and!; try done.
      congruence.
Qed.

(** An update on a store whose listeners are all host callbacks that never
    throw changes the unit and nothing else in the heap. *)
Lemma update_quiet fuel r (U : Unit.t) av w :
  (forall key, Forall (quiet w) (listenersOf key (store w))) ->
  heap w !! r = Some U ->
  exists w',
    Unit_update (DataStore_set (S fuel)) r av w = Done w'
    /\ heap w' = <[r := assign av U]> (heap w)
    /\ functions w' = functions w
    /\ _listeners (store w') = _listeners (store w)
    /\ _units w' = _units w.
Proof.
  intros Hq Hr. unfold Unit_update, Unit_updateInStore. rewrite Hr. wsimpl.
  rewrite lookup_insert_eq, set_returns.
  - eexists. split; [reflexivity|]. by wsimpl.
  - wsimpl. eapply Forall_impl; [apply Hq|]. intros g Hg.
    apply quiet_returns. by eapply quiet_same; [|exact Hg].
Qed.

Lemma updateAll_quiet fuel r :
  forall (avs : list attribute) (U : Unit.t) w,
    (forall key, Forall (quiet w) (listenersOf key (store w))) ->
    heap w !! r = Some U ->
    exists w',
      updateAll (DataStore_set (S fuel)) r avs w = Done w'
      /\ heap w' = <[r := assignAll avs U]> (heap w)
      /\ _units w' = _units w.
Proof.
  induction avs as [|av avs IH]; intros U w Hq Hr.
  - exists w. split; [done|]. split; [|done]. simpl. by rewrite insert_id.
  - destruct (update_quiet fuel r U av w Hq Hr)
      as (w1 & Hup & Hh & Hf & Hl & Hu).
    destruct (IH (assign av U) w1) as (w' & Hall & Hh' & Hu').
    + intros key. unfold listenersOf. rewrite Hl.
      eapply Forall_impl; [apply Hq|]. intros g Hg.
      by eapply quiet_same; [|exact Hg].
    + by rewrite Hh, lookup_insert_eq.
    + exists w'. split; [by rewrite (updateAll_cons _ _ _ _ _ _ Hup)|].
      split; [|congruence]. by rewrite Hh', Hh, insert_insert_eq.
Qed.

Lemma listenersOf_removeOnChange_decide key key' fn (s : DataStore) :
  listenersOf key (DataStore_removeOnChange key' fn s)
  = if decide (key' = key) then filter (fun f => f ≠ fn) (listenersOf key s)
    else listenersOf key s.
Proof.
  case_decide as H.
  - subst. apply listenersOf_removeOnChange.
  - unfold listenersOf, DataStore_removeOnChange.
    destruct (_listeners s !! key'); [|done]. simpl.
    by rewrite lookup_insert_ne.
Qed.

Lemma filter_idem {A} (P : A -> Prop) `{!forall x, Decision (P x)}
      (l : list A) :
  filter P (filter P l) = filter P l.
Proof.
  induction l as [|x l IH]; [done|].
  rewrite filter_cons. case_decide as Hx; [|done].
  rewrite filter_cons, decide_True by done. by rewrite IH.
Qed.

(** The loop of [unbindPositionRelativeTo] over the subscriptions of one
    closure. *)
Lemma foldl_removeOnChange fn (keys : list string) :
  forall s : DataStore,
    _data (foldl (fun s kf => DataStore_removeOnChange kf.1 kf.2 s) s
                 ((fun key => (key, fn)) <$> keys)) = _data s
    /\ forall k,
         listenersOf k
           (foldl (fun s kf => DataStore_removeOnChange kf.1 kf.2 s) s
                  ((fun key => (key, fn)) <$> keys))
         = if bool_decide (k ∈ keys)
           then filter (fun f => f ≠ fn) (listenersOf k s)
           else listenersOf k s.
Proof.
  induction keys as [|key keys IH]; intros s; [done|].
  rewrite fmap_cons. cbn [foldl fst snd].
  destruct (IH (DataStore_removeOnChange key fn s)) as [Hd Hl].
  split.
  - rewrite Hd. unfold DataStore_removeOnChange.
    by destruct (_listeners s !! key).
  - intros k. rewrite Hl, listenersOf_removeOnChange_decide.
    destruct (decide (key = k)) as [->|Hk].
    + rewrite filter_idem. rewrite (bool_decide_true (k ∈ k :: keys)).
      * by case_bool_decide.
      * by left.
    + destruct (decide (k ∈ keys)) as [Hin|Hin].
      * rewrite !bool_decide_true; [done| |done]. by right.
      * rewrite !bool_decide_false; [done| |done].
        rewrite not_elem_of_cons. split; [congruence|done].
Qed.

Lemma filter_fresh w fn (l : list nat) :
  functions w !! fn = None -> Forall (quiet w) l ->
  filter (fun f => f ≠ fn) l = l.
Proof.
  intros Hfresh Hq. apply filter_all.
  eapply Forall_impl; [exact Hq|]. intros g (throws & Hg & _) ->. congruence.
Qed.

(** Unbinding after binding. *)
Lemma unbind_after_bind fuel a b (A B : Unit.t) direction offset w :
  heap w !! a = Some A -> heap w !! b = Some B ->
  a ≠ b -> Unit.name A ≠ Unit.name B ->
  (forall key, Forall (quiet w) (listenersOf key (store w))) ->
  default [] (Unit._boundPositionListeners B) = [] ->
  let padX := default 0%R (offset_x offset) in
  let padY := default 0%R (offset_y offset) in
  exists w1 w2 B2,
    Unit_bindPositionRelativeTo (DataStore_set (S fuel)) b a direction offset w
    = Done w1
    /\ Unit_unbindPositionRelativeTo b w1 = Done w2
    /\ (forall key, listenersOf key (store w2) = listenersOf key (store w))
    /\ (forall key, Forall (quiet w2) (listenersOf key (store w2)))
    /\ heap w2 = <[b := B2]> (heap w)
    /\ Unit.name B2 = Unit.name B
    /\ Unit.pos B2 = placed direction padX padY B A
    /\ Unit._boundPositionListeners B2 = Some []
    /\ _units w2 = _units w.
Proof.
  intros Ha Hb Hab Hnames Hq Hunbound padX padY.
  destruct (bind_any fuel a b A B direction offset w Ha Hb Hab Hnames Hq)
    as (w1 & Hbind & Hbound & Hheap & Hunits & Hfuns).
  fold padX padY in Hbound, Hheap, Hfuns.
  set (fn := fresh (dom (functions w))) in *.
  assert (functions w !! fn = None) as Hfresh.
  { apply not_elem_of_dom. apply is_fresh. }
  rewrite Hunbound in Hheap. simpl app in Hheap.
  destruct Hbound as (_ & _ & _ & _ & Hls).
  exists w1. unfold Unit_unbindPositionRelativeTo.
  rewrite Hheap, lookup_insert_eq. cbn [Unit._boundPositionListeners
    Unit.with_pos Unit.with_bound].
  destruct (foldl_removeOnChange fn
              (watchedKeys (Unit.name A) (Unit.name B)) (store w1))
    as [Hd Hl].
  set (s2 := foldl _ (store w1) _) in *.
  eexists.
  exists (Unit.with_bound (Some [])
            (Unit.with_pos (placed direction padX padY B A) B)).
  split; [exact Hbind|]. split; [reflexivity|].
  clearbody s2. wsimpl.
  assert (forall key, listenersOf key s2 = listenersOf key (store w)) as Hsame.
  { intros key. rewrite Hl, Hls. case_bool_decide.
    - rewrite filter_app, (filter_fresh w) by done.
      rewrite filter_cons, decide_False by (intros H'; by apply H').
      by rewrite app_nil_r.
    - by rewrite app_nil_r. }
  split_and!; try done.
  - intros key. rewrite Hsame. eapply Forall_impl; [apply Hq|].
    intros g Hg. eapply (quiet_same (with_functions _ w)).
    + wsimpl. exact Hfuns.
    + by apply quiet_insert_fresh.
  - by rewrite insert_insert_eq.
Qed.
End BindingGuarantees.

(** ** Bindings in a cycle *)

Section Cycles.
Implicit Types (w : World) (ls : list nat) (av : attribute).

Ltac wsimpl :=
  cbn [with_heap with_store with_functions with_calls with_units heap _units
       canvasRect store functions calls _data _listeners] in *.

(** Two units bound to each other: a [set] of the position key of either
    exhausts every recursion budget. *)
Lemma cycle_diverges fuel :
  forall a b fab fba na nb w v,
    bound_in_a_cycle a b fab fba na nb w ->
    DataStore_set fuel (na +:+ "::" +:+ "pos") v w = OutOfFuel.
Proof.
  induction fuel as [|fuel IH]; intros a b fab fba na nb w v Hcyc; [done|].
  destruct Hcyc as ((A & Ha & HnA) & (B & Hb & HnB) & (d & px & py & Hfab)
                    & Hfba & (la & Hla & Hqa) & (lb & Hlb & Hqb)).
  rewrite set_unfold, Hla, forEach_app, forEach_returns.
  2:{ eapply Forall_impl; [exact Hqa|]. intros g Hg. apply quiet_returns.
      by eapply quiet_same; [|exact Hg]. }
  cbn [andThen forEach]. unfold invoke at 1. wsimpl. rewrite Hfab.
  unfold updatePosition. wsimpl. rewrite Hb, Ha.
  unfold Unit_update. wsimpl. rewrite Hb.
  unfold Unit_updateInStore. wsimpl. rewrite lookup_insert_eq.
  unfold getAttributeStoreName. cbn [assign Unit.with_pos Unit.name].
  rewrite HnB.
  rewrite (IH b a fba fab nb na); [done|].
  destruct Hfba as (d' & px' & py' & Hfba).
  unfold bound_in_a_cycle. wsimpl. split_and!.
  - eexists. rewrite lookup_insert_eq. split; [reflexivity|]. exact HnB.
  - destruct (decide (a = b)) as [->|Hab].
    + eexists. rewrite lookup_insert_eq. split; [reflexivity|]. simpl.
      congruence.
    + exists A. by rewrite lookup_insert_ne.
  - by exists d', px', py'.
  - by exists d, px, py.
  - exists lb. rewrite listenersOf_data. split; [exact Hlb|].
    eapply Forall_impl; [exact Hqb|]. intros g Hg.
    by eapply quiet_same; [|exact Hg].
  - exists la. rewrite listenersOf_data. split; [exact Hla|].
    eapply Forall_impl; [exact Hqa|]. intros g Hg.
    by eapply quiet_same; [|exact Hg].
Qed.

(** [bindPositionRelativeTo] up to its last statement, the first run of
    the closure. *)
Lemma bind_unfold store_set this other (T O : Unit.t) direction offset w :
  heap w !! this = Some T -> heap w !! other = Some O ->
  let padX := default 0%R (offset_x offset) in
  let padY := default 0%R (offset_y offset) in
  let fn := fresh (dom (functions w)) in
  exists w2 T',
    Unit_bindPositionRelativeTo store_set this other direction offset w
    = invoke store_set fn VUndefined w2
    /\ heap w2 = <[this := T']> (heap w)
    /\ Unit.name T' = Unit.name T
    /\ functions w2
       = <[fn := UpdatePosition this other direction padX padY]> (functions w)
    /\ functions w !! fn = None
    /\ forall k,
         listenersOf k (store w2)
         = listenersOf k (store w)
           ++ ((fun _ => fn)
                 <$> filter (fun key => key = k)
                            (watchedKeys (Unit.name O) (Unit.name T))).
Proof.
  intros Ht Ho padX padY fn.
  unfold Unit_bindPositionRelativeTo. rewrite Ht, Ho. fold padX padY.
  set (T0 := Unit.with_bound _ T).
  change (fresh (dom (functions (with_heap (<[this := T0]> (heap w)) w))))
    with fn.
  set (w0 := with_functions _ (with_heap _ w)).
  change [ getAttributeStoreName O "pos"; getAttributeStoreName O "size";
           getAttributeStoreName O "rot"; getAttributeStoreName O "scale";
           getAttributeStoreName T "size"; getAttributeStoreName T "rot";
           getAttributeStoreName T "scale" ]
    with (watchedKeys (Unit.name O) (Unit.name T)).
  destruct (foldl_watch this fn (watchedKeys (Unit.name O) (Unit.name T))
              w0 T0)
    as (T' & Hh & Hn & _ & _ & Hf & _ & _ & Hl).
  { unfold w0. wsimpl. by rewrite lookup_insert_eq. }
  set (w2 := foldl (watch this fn) w0 _) in *.
  exists w2, T'. split; [reflexivity|]. clearbody w2.
  unfold w0 in *. wsimpl. split_and!.
  - by rewrite Hh, insert_insert_eq.
  - exact Hn.
  - exact Hf.
  - apply not_elem_of_dom. apply is_fresh.
  - exact Hl.
Qed.
End Cycles.

(** ** Position bindings: what the code guarantees *)

(** X10. Whatever the direction and the offset, a binding of [b] to [a] places
    [b] at once and keeps it in place through every sequence of updates of
    [a]: after each of them [b] sits where the direction puts it against
    the current box of [a].  The two units are distinct objects with
    distinct names, and the listeners present before the binding are host
    callbacks that never throw. *)
Theorem binding_follows_target (w : World) (a b : nat) (A B : Unit.t)
        (direction : string) (offset : Offset) (fuel : nat) :
  heap w !! a = Some A -> heap w !! b = Some B ->
  a ≠ b -> Unit.name A ≠ Unit.name B ->
  (forall key, Forall (quiet w) (listenersOf key (store w))) ->
  let padX := default 0%R (offset_x offset) in
  let padY := default 0%R (offset_y offset) in
  exists w1,
    Unit_bindPositionRelativeTo (DataStore_set (S fuel)) b a direction offset w
    = Done w1
    /\ posOf w1 a = Some (Unit.pos A)
    /\ posOf w1 b = Some (placed direction padX padY B A)
    /\ forall avs : list attribute,
         exists w2,
           updateAll (DataStore_set (S (S fuel))) a avs w1 = Done w2
           /\ heap w2 !! a = Some (assignAll avs A)
           /\ posOf w2 b
              = Some (placed direction padX padY B (assignAll avs A)).
Proof.
  intros Ha Hb Hab Hnames Hq padX padY.
  destruct (bind_any fuel a b A B direction offset w Ha Hb Hab Hnames Hq)
    as (w1 & Hbind & Hbound & Hheap & _).
  fold padX padY in Hbound, Hheap.
  exists w1. split; [exact Hbind|].
  assert (heap w1 !! a = Some A) as Ha1.
  { by rewrite Hheap, lookup_insert_ne. }
  pose proof (f_equal (fun h => h !! b) Hheap) as Hb1. simpl in Hb1.
  rewrite lookup_insert_eq in Hb1.
  split; [by unfold posOf; rewrite Ha1|].
  split; [by unfold posOf; rewrite Hb1|].
  intros avs.
  destruct (updateAll_target fuel a b _ direction padX padY _ _ _ B
              Hab Hnames avs A _ w1 Hbound Ha1 Hb1 eq_refl eq_refl)
    as (w2 & Hall & _ & Ha2 & Hb2 & _).
  exists w2. split; [exact Hall|]. split; [exact Ha2|exact Hb2].
Qed.

(** X11. An update of the bound unit itself: a new size, rotation or scale
    places it anew against the target, while a position given by hand
    ([b.update("pos", p)]) is kept as it is, the binding not being
    consulted. *)
Theorem bound_unit_own_update (w : World) (a b : nat) (A B : Unit.t)
        (direction : string) (offset : Offset) (fuel : nat) :
  heap w !! a = Some A -> heap w !! b = Some B ->
  a ≠ b -> Unit.name A ≠ Unit.name B ->
  (forall key, Forall (quiet w) (listenersOf key (store w))) ->
  let padX := default 0%R (offset_x offset) in
  let padY := default 0%R (offset_y offset) in
  exists w1,
    Unit_bindPositionRelativeTo (DataStore_set (S fuel)) b a direction offset w
    = Done w1
    /\ forall av,
         exists w2,
           Unit_update (DataStore_set (S (S fuel))) b av w1 = Done w2
           /\ posOf w2 a = Some (Unit.pos A)
           /\ posOf w2 b
              = Some (match av with
                      | AttrPos p => p
                      | _ => placed direction padX padY (assign av B) A
                      end).
Proof.
  intros Ha Hb Hab Hnames Hq padX padY.
  destruct (bind_any fuel a b A B direction offset w Ha Hb Hab Hnames Hq)
    as (w1 & Hbind & Hbound & Hheap & _).
  fold padX padY in Hbound, Hheap.
  exists w1. split; [exact Hbind|]. intros av.
  pose proof (f_equal (fun h => h !! b) Hheap) as Hb1. simpl in Hb1.
  rewrite lookup_insert_eq in Hb1.
  destruct (update_bound_to fuel a b _ direction padX padY _ _ _ w1
              b _ av Hnames Hbound Hb1)
    as (w2 & A1 & B1 & Hup & _ & Ha1 & Hb2 & Hheap2 & _).
  rewrite lookup_insert_ne in Ha1 by done.
  rewrite Hheap, lookup_insert_ne in Ha1 by done.
  rewrite lookup_insert_eq in Hb2.
  assert (A1 = A) as -> by congruence.
  injection Hb2 as <-.
  exists w2. split; [exact Hup|].
  cbn [Unit.name Unit.with_pos Unit.with_bound] in Hheap2.
  destruct (decide (attribute_name av ∈ ["size"; "rot"; "scale"]))
    as [Hin|Hout].
  - rewrite bool_decide_true in Hheap2.
    2:{ apply watched_iff; [apply attribute_colon_free|]. by right. }
    unfold posOf. rewrite Hheap2.
    rewrite lookup_insert_ne, lookup_insert_ne, Hheap, lookup_insert_ne
      by done.
    rewrite Ha, lookup_insert_eq. split; [done|].
    destruct av; try done.
    exfalso. simpl in Hin. rewrite !elem_of_cons, elem_of_nil in Hin.
    destruct Hin as [H|[H|[H|[]]]]; discriminate.
  - rewrite bool_decide_false in Hheap2.
    2:{ rewrite watched_iff by apply attribute_colon_free.
        intros [[H _]|[_ H]]; [|done]. by apply Hnames. }
    unfold posOf. rewrite Hheap2.
    rewrite lookup_insert_ne, Hheap, lookup_insert_ne by done.
    rewrite Ha, lookup_insert_eq. split; [done|].
    destruct av; try done; exfalso; apply Hout; simpl;
      rewrite !elem_of_cons; auto 10.
Qed.

(** X12. Binding and then unbinding is a round trip on the store: every key has
    the listeners it had before.  The unit stays where the binding put it,
    holds an empty list of subscriptions, and no longer moves when the
    former target is updated. *)
Theorem unbind_round_trip (w : World) (a b : nat) (A B : Unit.t)
        (direction : string) (offset : Offset) (fuel : nat) :
  heap w !! a = Some A -> heap w !! b = Some B ->
  a ≠ b -> Unit.name A ≠ Unit.name B ->
  (forall key, Forall (quiet w) (listenersOf key (store w))) ->
  default [] (Unit._boundPositionListeners B) = [] ->
  let padX := default 0%R (offset_x offset) in
  let padY := default 0%R (offset_y offset) in
  exists w1 w2,
    Unit_bindPositionRelativeTo (DataStore_set (S fuel)) b a direction offset w
    = Done w1
    /\ Unit_unbindPositionRelativeTo b w1 = Done w2
    /\ (forall key, listenersOf key (store w2) = listenersOf key (store w))
    /\ posOf w2 b = Some (placed direction padX padY B A)
    /\ (Unit._boundPositionListeners <$> heap w2 !! b) = Some (Some [])
    /\ forall avs : list attribute,
         exists w3,
           updateAll (DataStore_set (S fuel)) a avs w2 = Done w3
           /\ heap w3 !! a = Some (assignAll avs A)
           /\ posOf w3 b = Some (placed direction padX padY B A).
Proof.
  intros Ha Hb Hab Hnames Hq Hunbound padX padY.
  destruct (unbind_after_bind fuel a b A B direction offset w
              Ha Hb Hab Hnames Hq Hunbound)
    as (w1 & w2 & B2 & Hbind & Hunbind & Hls & Hq2 & Hheap & _ & Hpos
        & Hnone & _).
  fold padX padY in Hpos.
  exists w1, w2. split; [exact Hbind|]. split; [exact Hunbind|].
  split; [exact Hls|].
  assert (heap w2 !! b = Some B2) as Hb2.
  { by rewrite Hheap, lookup_insert_eq. }
  assert (heap w2 !! a = Some A) as Ha2.
  { by rewrite Hheap, lookup_insert_ne. }
  split; [by unfold posOf; rewrite Hb2; simpl; rewrite Hpos|].
  split; [by rewrite Hb2; simpl; rewrite Hnone|].
  intros avs.
  destruct (updateAll_quiet fuel a avs A w2 Hq2 Ha2) as (w3 & Hall & Hh3 & _).
  exists w3. split; [exact Hall|].
  unfold posOf. rewrite Hh3. split; [by rewrite lookup_insert_eq|].
  rewrite lookup_insert_ne, Hb2 by done. simpl. by rewrite Hpos.
Qed.

(** X13. Deleting a bound unit undoes its subscriptions and takes it off the
    unit list of the context: every key has the listeners it had before
    the binding, the list keeps, in order, exactly the units whose name
    differs from the deleted unit's, and later updates of the former target
    return. *)
Theorem delete_bound_unit (w : World) (a b : nat) (A B : Unit.t)
        (direction : string) (offset : Offset) (fuel : nat) :
  heap w !! a = Some A -> heap w !! b = Some B ->
  a ≠ b -> Unit.name A ≠ Unit.name B ->
  (forall key, Forall (quiet w) (listenersOf key (store w))) ->
  default [] (Unit._boundPositionListeners B) = [] ->
  exists w1 w2,
    Unit_bindPositionRelativeTo (DataStore_set (S fuel)) b a direction offset w
    = Done w1
    /\ Unit_delete b w1 = Done w2
    /\ (b ∉ _units w2)
    /\ _units w2
       = filter (fun r => nameOf w r ≠ Some (Unit.name B)) (_units w)
    /\ (a ∈ _units w -> a ∈ _units w2)
    /\ (forall key, listenersOf key (store w2) = listenersOf key (store w))
    /\ forall avs : list attribute,
         exists w3,
           updateAll (DataStore_set (S fuel)) a avs w2 = Done w3
           /\ heap w3 !! a = Some (assignAll avs A).
Proof.
  intros Ha Hb Hab Hnames Hq Hunbound.
  destruct (unbind_after_bind fuel a b A B direction offset w
              Ha Hb Hab Hnames Hq Hunbound)
    as (w1 & w2 & B2 & Hbind & Hunbind & Hls & Hq2 & Hheap & Hname & _
        & _ & Hunits).
  assert (heap w2 !! b = Some B2) as Hb2.
  { by rewrite Hheap, lookup_insert_eq. }
  assert (heap w2 !! a = Some A) as Ha2.
  { by rewrite Hheap, lookup_insert_ne. }
  assert (forall r, nameOf w2 r = nameOf w r) as Hnm.
  { intros r. unfold nameOf. rewrite Hheap.
    destruct (decide (r = b)) as [->|Hr].
    - by rewrite lookup_insert_eq, Hb; simpl; rewrite Hname.
    - by rewrite lookup_insert_ne. }
  assert (filter (fun r => nameOf w2 r ≠ Some (Unit.name B)) (_units w2)
          = filter (fun r => nameOf w r ≠ Some (Unit.name B)) (_units w))
    as Hfilter.
  { rewrite Hunits. apply list_filter_iff. intros r. by rewrite Hnm. }
  set (wd := Context_removeUnit (Unit.name B) w2).
  assert (_units wd
          = filter (fun r => nameOf w r ≠ Some (Unit.name B)) (_units w))
    as Hud by exact Hfilter.
  exists w1, wd.
  split; [exact Hbind|]. split.
  { unfold Unit_delete. rewrite Hunbind. simpl. by rewrite Hb2, Hname. }
  rewrite Hud. split_and!.
  - rewrite list_elem_of_filter. intros [Hn _]. apply Hn.
    unfold nameOf. by rewrite Hb.
  - done.
  - intros Hin. apply list_elem_of_filter. split; [|done].
    unfold nameOf. rewrite Ha. simpl. congruence.
  - exact Hls.
  - intros avs.
    destruct (updateAll_quiet fuel a avs A wd Hq2 Ha2)
      as (w3 & Hall & Hh3 & _).
    exists w3. split; [exact Hall|]. rewrite Hh3.
    apply lookup_insert_eq.
Qed.

(** X14. Deleting the target of a binding does not undo the binding: the target
    leaves the unit list, but the closure stays subscribed to its keys, and
    every later update of the deleted unit still moves the bound unit. *)
Theorem deleted_target_still_drives (w : World) (a b : nat) (A B : Unit.t)
        (direction : string) (offset : Offset) (fuel : nat) :
  heap w !! a = Some A -> heap w !! b = Some B ->
  a ≠ b -> Unit.name A ≠ Unit.name B ->
  (forall key, Forall (quiet w) (listenersOf key (store w))) ->
  Unit._boundPositionListeners A = None ->
  let padX := default 0%R (offset_x offset) in
  let padY := default 0%R (offset_y offset) in
  exists w1 w2,
    Unit_bindPositionRelativeTo (DataStore_set (S fuel)) b a direction offset w
    = Done w1
    /\ Unit_delete a w1 = Done w2
    /\ (a ∉ _units w2)
    /\ (b ∈ _units w -> b ∈ _units w2)
    /\ forall avs : list attribute,
         exists w3,
           updateAll (DataStore_set (S (S fuel))) a avs w2 = Done w3
           /\ posOf w3 b
              = Some (placed direction padX padY B (assignAll avs A)).
Proof.
  intros Ha Hb Hab Hnames Hq Hnone padX padY.
  destruct (bind_any fuel a b A B direction offset w Ha Hb Hab Hnames Hq)
    as (w1 & Hbind & Hbound & Hheap & Hunits & _).
  fold padX padY in Hbound, Hheap.
  assert (heap w1 !! a = Some A) as Ha1.
  { by rewrite Hheap, lookup_insert_ne. }
  pose proof (f_equal (fun h => h !! b) Hheap) as Hb1. simpl in Hb1.
  rewrite lookup_insert_eq in Hb1.
  set (wd := Context_removeUnit (Unit.name A) w1).
  assert (bound_to a b (fresh (dom (functions w))) direction padX padY
                   (Unit.name A) (Unit.name B)
                   (fun key => listenersOf key (store w)) wd) as Hboundd.
  { eapply bound_to_same; [| | | |exact Hbound]; try done.
    - by exists A.
    - eexists. split; [exact Hb1|done]. }
  exists w1, wd.
  split; [exact Hbind|]. split.
  { unfold Unit_delete, Unit_unbindPositionRelativeTo.
    rewrite Ha1, Hnone. simpl. by rewrite Ha1. }
  split_and!.
  - unfold wd, Context_removeUnit, with_units. cbn [_units].
    rewrite list_elem_of_filter. intros [Hn _]. apply Hn.
    unfold nameOf. by rewrite Ha1.
  - intros Hin. unfold wd, Context_removeUnit, with_units. cbn [_units].
    apply list_elem_of_filter. split; [|by rewrite Hunits].
    unfold nameOf. rewrite Hb1. simpl. congruence.
  - intros avs.
    destruct (updateAll_target fuel a b _ direction padX padY _ _ _ B
                Hab Hnames avs A _ wd Hboundd Ha1 Hb1 eq_refl eq_refl)
      as (w3 & Hall & _ & _ & Hb3 & _).
    exists w3. split; [exact Hall|exact Hb3].
Qed.

(** X15. Binding two units to each other never returns: once [b] is bound to
    [a], the call [a.bindPositionRelativeTo(b, ...)] exhausts every
    recursion budget, each closure moving its unit and thereby waking the
    other. *)
Theorem mutual_binding_never_returns (w : World) (a b : nat) (A B : Unit.t)
        (d1 d2 : string) (off1 off2 : Offset) (fuel1 : nat) :
  heap w !! a = Some A -> heap w !! b = Some B ->
  a ≠ b -> Unit.name A ≠ Unit.name B ->
  (forall key, Forall (quiet w) (listenersOf key (store w))) ->
  exists w1,
    Unit_bindPositionRelativeTo (DataStore_set (S fuel1)) b a d1 off1 w
    = Done w1
    /\ forall fuel,
         Unit_bindPositionRelativeTo (DataStore_set fuel) a b d2 off2 w1
         = OutOfFuel.
Proof.
  intros Ha Hb Hab Hnames Hq.
  destruct (bind_any fuel1 a b A B d1 off1 w Ha Hb Hab Hnames Hq)
    as (w1 & Hbind & Hbound & Hheap & _).
  exists w1. split; [exact Hbind|]. intros fuel.
  assert (heap w1 !! a = Some A) as Ha1.
  { by rewrite Hheap, lookup_insert_ne. }
  pose proof (f_equal (fun h => h !! b) Hheap) as Hb1. simpl in Hb1.
  rewrite lookup_insert_eq in Hb1.
  destruct (bind_unfold (DataStore_set fuel) a b _ _ d2 off2 w1 Ha1 Hb1)
    as (w2 & T' & Heq & Hh2 & Hn2 & Hf2 & Hfresh2 & Hl2).
  rewrite Heq. clear Heq.
  set (fn1 := fresh (dom (functions w))) in *.
  set (fn2 := fresh (dom (functions w1))) in *.
  destruct Hbound as (_ & _ & Hfn1 & Hq1 & Hls1).
  assert (fn1 ≠ fn2) as Hfns by congruence.
  assert (forall g, quiet w1 g -> quiet w2 g) as Hquiet.
  { intros g Hg. eapply (quiet_same (with_functions _ w1)).
    - exact Hf2.
    - by apply quiet_insert_fresh. }
  assert (Unit.name B ≠ Unit.name A) as Hnames' by congruence.
  unfold invoke. rewrite Hf2, lookup_insert_eq.
  unfold updatePosition. cbn [with_calls heap].
  rewrite Hh2, lookup_insert_eq, lookup_insert_ne, Hb1 by done.
  unfold Unit_update. cbn [with_calls heap].
  rewrite Hh2, lookup_insert_eq.
  unfold Unit_updateInStore. cbn [with_heap heap].
  rewrite lookup_insert_eq. unfold getAttributeStoreName.
  cbn [assign Unit.with_pos Unit.name]. rewrite Hn2.
  apply (cycle_diverges fuel a b fn1 fn2 (Unit.name A) (Unit.name B)).
  unfold bound_in_a_cycle.
  cbn [with_heap with_calls heap store functions].
  split_and!.
  - eexists. rewrite lookup_insert_eq. split; [reflexivity|exact Hn2].
  - eexists. rewrite lookup_insert_ne, lookup_insert_ne by done.
    split; [exact Hb1|done].
  - exists d1, (default 0%R (offset_x off1)), (default 0%R (offset_y off1)).
    rewrite Hf2, lookup_insert_ne by done. exact Hfn1.
  - exists d2, (default 0%R (offset_x off2)), (default 0%R (offset_y off2)).
    rewrite Hf2. apply lookup_insert_eq.
  - exists (listenersOf (Unit.name A +:+ "::" +:+ "pos") (store w)).
    split.
    + rewrite Hl2, Hls1.
      rewrite filter_eq_NoDup by by apply watchedKeys_NoDup.
      rewrite bool_decide_true by by left.
      rewrite bool_decide_false by by apply own_pos_not_watched.
      by rewrite app_nil_r.
    + eapply Forall_impl; [apply Hq1|]. intros g Hg.
      eapply (quiet_same w2); [reflexivity|]. by apply Hquiet.
  - exists (listenersOf (Unit.name B +:+ "::" +:+ "pos") (store w)).
    split.
    + rewrite Hl2, Hls1.
      rewrite filter_eq_NoDup by by apply watchedKeys_NoDup.
      rewrite bool_decide_false by by apply own_pos_not_watched.
      rewrite bool_decide_true by by left.
      by rewrite app_nil_r.
    + eapply Forall_impl; [apply Hq1|]. intros g Hg.
      eapply (quiet_same w2); [reflexivity|]. by apply Hquiet.
Qed.

(** ** The unit list in z-order, and the click *)

Section ZOrder.
Variable key : nat -> Z.

Lemma insert_by_perm x (l : list nat) : insert_by key x l ≡ₚ x :: l.
Proof.
  induction l as [|y l IH]; [done|]. simpl.
  destruct (key x <=? key y)%Z; [done|].
  rewrite IH. apply Permutation_swap.
Qed.

Lemma stable_sort_perm (l : list nat) : stable_sort key l ≡ₚ l.
Proof.
  induction l as [|x l IH]; [done|].
  unfold stable_sort in *. simpl. by rewrite insert_by_perm, IH.
Qed.

Lemma insert_by_sorted x (l : list nat) :
  Sorted.StronglySorted (fun r r' => (key r <= key r')%Z) l ->
  Sorted.StronglySorted (fun r r' => (key r <= key r')%Z) (insert_by key x l).
Proof.
  induction 1 as [|y l Hl IH Hy]; simpl.
  - repeat constructor.
  - destruct (key x <=? key y)%Z eqn:E.
    + apply Z.leb_le in E. constructor; [by constructor|].
      constructor; [done|].
      eapply Forall_impl; [exact Hy|]. intros z Hz. simpl in Hz. lia.
    + apply Z.leb_gt in E. constructor; [exact IH|].
      rewrite insert_by_perm. constructor; [lia|exact Hy].
Qed.

Lemma stable_sort_sorted (l : list nat) :
  Sorted.StronglySorted (fun r r' => (key r <= key r')%Z) (stable_sort key l).
Proof.
  induction l as [|x l IH]; [constructor|].
  unfold stable_sort in *. simpl. by apply insert_by_sorted.
Qed.

(** Units of equal key keep their order. *)
Lemma insert_by_stable z x (l : list nat) :
  filter (fun r => key r = z) (insert_by key x l)
  = filter (fun r => key r = z) (x :: l).
Proof.
  induction l as [|y l IH]; [done|]. simpl.
  destruct (key x <=? key y)%Z eqn:E; [done|].
  apply Z.leb_gt in E.
  rewrite (filter_cons _ y), IH, !filter_cons.
  repeat case_decide; try done; lia.
Qed.

Lemma stable_sort_stable z (l : list nat) :
  filter (fun r => key r = z) (stable_sort key l)
  = filter (fun r => key r = z) l.
Proof.
  induction l as [|x l IH]; [done|].
  unfold stable_sort in *. simpl.
  by rewrite insert_by_stable, !filter_cons, IH.
Qed.
End ZOrder.

(** X16. The render task sorts the unit list by [zOrder] before it draws, and
    the click listener scans that list from its end.  So a click on the
    sorted list is delivered to one unit only; that unit takes the click
    (it is enabled and its hit test accepts the point), no unit that takes
    the click has a greater [zOrder], and among the takers of the same
    [zOrder] it is the one added last.  When no unit takes the click
    nothing is called.  Sorting keeps the units, each as often as it was
    listed. *)
Theorem click_reaches_highest_zOrder
        (store_set : string -> value -> World -> outcome)
        (w : World) (clientX clientY : R) :
  Forall (fun r => is_Some (heap w !! r)) (_units w) ->
  let ws := Context_zSortUnits false w in
  let p := _getMousePos clientX clientY w in
  let takes := fun r => accepts w (px p) (py p) r = true in
  let takers := filter takes (_units ws) in
  _units ws ≡ₚ _units w
  /\ onCanvasClick store_set clientX clientY ws
     = match last takers with
       | Some r => deliver store_set (VEvent clientX clientY) ws r
       | None => Done ws
       end
  /\ (forall r, last takers = Some r ->
        r ∈ _units w /\ takes r
        /\ (forall r', r' ∈ _units w -> takes r' ->
              (zOrderOf w r' <= zOrderOf w r)%Z)
        /\ exists before after,
             _units w = before ++ r :: after
             /\ forall r', r' ∈ after -> takes r' ->
                  zOrderOf w r' ≠ zOrderOf w r)
  /\ (last takers = None -> forall r, r ∈ _units w -> ~ takes r).
Proof.
  intros Hall ws p takes takers.
  assert (_units ws = stable_sort (zOrderOf w) (_units w)) as Hus by done.
  assert (_units ws ≡ₚ _units w) as Hperm.
  { rewrite Hus. apply stable_sort_perm. }
  split; [exact Hperm|]. split; [|split].
  - unfold onCanvasClick.
    rewrite click_scan_head.
    + by rewrite filter_reverse, head_reverse.
    + apply Forall_reverse. by rewrite Hperm.
  - intros r Hlast.
    pose proof (last_filter_Some _ _ _ Hlast) as (l1 & l2 & Hu & Hl2).
    assert (takes r) as Htakes.
    { assert (r ∈ takers) as Hin.
      { apply last_Some in Hlast as [l' ->]. apply elem_of_app. right.
        apply list_elem_of_here. }
      by apply list_elem_of_filter in Hin as [? _]. }
    assert (r ∈ _units w) as Hr.
    { rewrite <- Hperm, Hu. apply elem_of_app. right. apply list_elem_of_here. }
    pose proof (stable_sort_sorted (zOrderOf w) (_units w)) as Hsorted.
    rewrite <- Hus, Hu in Hsorted.
    split; [exact Hr|]. split; [exact Htakes|]. split.
    + intros r' Hr' Htakes'. rewrite <- Hperm, Hu in Hr'.
      apply elem_of_app in Hr' as [Hin|Hin].
      * apply sorting.StronglySorted_app in Hsorted as (Hle & _ & _).
        apply (Hle r' r Hin). apply list_elem_of_here.
      * apply elem_of_cons in Hin as [->|Hin]; [lia|].
        rewrite Forall_forall in Hl2. by destruct (Hl2 r' Hin).
    + set (z := zOrderOf w r).
      assert (last (filter (fun r' => takes r' /\ zOrderOf w r' = z)
                           (_units w)) = Some r) as Hlast'.
      { rewrite <- list_filter_filter, <- (stable_sort_stable (zOrderOf w)).
        rewrite <- Hus, Hu, list_filter_filter.
        rewrite filter_app, filter_cons, decide_True by done.
        rewrite (filter_none _ l2).
        - by rewrite last_snoc.
        - eapply Forall_impl; [exact Hl2|]. by intros x Hx [? _]. }
      apply last_filter_Some in Hlast' as (before & after & Hbefore & Hafter).
      exists before, after. split; [exact Hbefore|].
      intros r' Hin Htakes' Hz. rewrite Forall_forall in Hafter.
      by apply (Hafter r' Hin).
  - intros Hnone r Hr Htakes. apply last_None in Hnone.
    assert (r ∈ takers) as Hin.
    { apply list_elem_of_filter. split; [exact Htakes|]. by rewrite Hperm. }
    rewrite Hnone in Hin. by apply elem_of_nil in Hin.
Qed.

(** X17. Adding a unit whose name no listed unit carries and removing it by
    that name gives back the context as it was. *)
Theorem add_then_remove (w : World) (u : nat) (U : Unit.t) :
  heap w !! u = Some U ->
  Forall (fun r => nameOf w r ≠ Some (Unit.name U)) (_units w) ->
  Context_removeUnit (Unit.name U) (Context_addUnit u w) = w.
Proof.
  intros Hu Hfresh. unfold Context_removeUnit, Context_addUnit, with_units.
  cbn [_units heap canvasRect store functions calls].
  change (nameOf _) with (nameOf w).
  rewrite filter_app, filter_all by exact Hfresh.
  rewrite filter_cons, decide_False, filter_nil, app_nil_r.
  - by destruct w.
  - intros H. apply H. unfold nameOf. by rewrite Hu.
Qed.

(** ** GestureDetector: hover, drag and long press *)

Section Gestures.
Implicit Types (g : Gestures) (w : World) (es : list (World * gesture)).

Ltac gsimpl :=
  cbn [detector timeouts nextTimeout handlerCalls Gesture._isDragging
       Gesture._dragStart Gesture._dragUnit Gesture._longPressTimeout
       Gesture._hoveredUnit Gesture._lastMousePos fst snd] in *.

Lemma hoverTrace_app u (calls more : list handled) :
  hoverTrace u (calls ++ more) = foldl (hoverStep u) (hoverTrace u calls) more.
Proof. unfold hoverTrace. by rewrite foldl_app. Qed.

Lemma reactAll_snoc es e g :
  reactAll (es ++ [e]) g = react (reactAll es g) e.
Proof. unfold reactAll. by rewrite foldl_app. Qed.

Lemma reactAll_cons es e g :
  reactAll (e :: es) g = reactAll es (react g e).
Proof. reflexivity. Qed.

(** One gesture keeps the hover calls of every unit in step with
    [_hoveredUnit]. *)
Lemma react_hover u g e :
  hoverTrace u (handlerCalls g)
  = Some (bool_decide (Gesture._hoveredUnit (detector g) = Some u)) ->
  hoverTrace u (handlerCalls (react g e))
  = Some (bool_decide (Gesture._hoveredUnit (detector (react g e)) = Some u)).
Proof.
  intros Hinv. destruct e as [w [x y|x y|x y|x y|x y|id|]];
    unfold react; gsimpl.
  - unfold onDblClick. destruct (firstHit _ _ _ _); [|done]. gsimpl.
    by rewrite hoverTrace_app, Hinv.
  - unfold onMouseDown. destruct (firstHit _ _ _ _); [|done]. gsimpl.
    by rewrite hoverTrace_app, Hinv.
  - unfold onMouseUp.
    destruct (Gesture._isDragging (detector g)),
             (Gesture._dragUnit (detector g)); gsimpl;
      try done; by rewrite hoverTrace_app, Hinv.
  - unfold onMouseMove. gsimpl. rewrite hoverTrace_app, Hinv.
    by destruct (Gesture._isDragging (detector g)),
                (Gesture._dragUnit (detector g)).
  - unfold onMouseLeave. gsimpl. rewrite hoverTrace_app, Hinv.
    destruct (Gesture._hoveredUnit (detector g)) as [h|]; [|done].
    simpl. destruct (decide (h = u)) as [->|Hne].
    + by rewrite bool_decide_true.
    + rewrite bool_decide_false by congruence. done.
  - unfold onTimeout. destruct (timeouts g !! id) as [[unit event]|]; [|done].
    gsimpl. by rewrite hoverTrace_app, Hinv.
  - unfold hoverPolling.
    destruct (Gesture._lastMousePos (detector g)) as [p|]; [|done].
    gsimpl. rewrite !hoverTrace_app, Hinv.
    destruct (firstHover w (px p) (py p) (reverse (_units w))) as [n|],
             (Gesture._hoveredUnit (detector g)) as [h|];
      repeat case_bool_decide; simplify_eq; simpl;
      repeat case_decide; simplify_eq; try done;
      unfold hoverStep; repeat case_decide; simplify_eq; done.
Qed.

Lemma react_held_drag u p0 g e :
  dragging u p0 g -> held e ->
  dragging u p0 (react g e)
  /\ Gesture._longPressTimeout (detector (react g e))
     = Gesture._longPressTimeout (detector g)
  /\ nextTimeout (react g e) = nextTimeout g
  /\ exists others,
       handlerCalls (react g e) = handlerCalls g ++ others
       /\ filter (fun c => isDragCall c = true) others = dragCalls u p0 [e].
Proof.
  intros (Hd & Hs & Hu) Hheld.
  destruct e as [w [x y|x y|x y|x y|x y|id|]]; try done;
    unfold react, dragging; gsimpl.
  - unfold onDblClick. destruct (firstHit _ _ _ _); gsimpl.
    + split_and!; try done. by eexists.
    + split_and!; try done. exists []. by rewrite app_nil_r.
  - unfold onMouseMove. gsimpl. rewrite Hd, Hs, Hu.
    split_and!; try done. by eexists.
  - unfold onTimeout. destruct (timeouts g !! id) as [[unit event]|]; gsimpl.
    + split_and!; try done. by eexists.
    + split_and!; try done. exists []. by rewrite app_nil_r.
  - unfold hoverPolling.
    destruct (Gesture._lastMousePos (detector g)) as [p|]; gsimpl.
    + split_and!; try done. eexists. split; [reflexivity|].
      destruct (firstHover w (px p) (py p) (reverse (_units w))) as [n|],
               (Gesture._hoveredUnit (detector g)) as [h|];
        repeat case_bool_decide; done.
    + split_and!; try done. exists []. by rewrite app_nil_r.
Qed.

Lemma dragCalls_cons u p0 e es :
  dragCalls u p0 (e :: es) = dragCalls u p0 [e] ++ dragCalls u p0 es.
Proof. unfold dragCalls. rewrite !omap_cons_eq. by destruct (e.2). Qed.

Lemma reactAll_held_drag u p0 es :
  forall g,
    dragging u p0 g -> Forall held es ->
    dragging u p0 (reactAll es g)
    /\ Gesture._longPressTimeout (detector (reactAll es g))
       = Gesture._longPressTimeout (detector g)
    /\ nextTimeout (reactAll es g) = nextTimeout g
    /\ exists others,
         handlerCalls (reactAll es g) = handlerCalls g ++ others
         /\ filter (fun c => isDragCall c = true) others = dragCalls u p0 es.
Proof.
  induction es as [|e es IH]; intros g Hdrag Hheld.
  - split_and!; try done. exists []. by rewrite app_nil_r.
  - apply Forall_cons in Hheld as [He Hes].
    destruct (react_held_drag u p0 g e Hdrag He)
      as (Hdrag1 & Hlp1 & Hnext1 & others1 & Hcalls1 & Hf1).
    destruct (IH (react g e) Hdrag1 Hes)
      as (Hdrag2 & Hlp2 & Hnext2 & others2 & Hcalls2 & Hf2).
    rewrite reactAll_cons. split_and!; try done; try congruence.
    exists (others1 ++ others2). split.
    + by rewrite Hcalls2, Hcalls1, app_assoc.
    + by rewrite filter_app, Hf1, Hf2, (dragCalls_cons u p0 e es).
Qed.

(** A pending timeout stays pending while the button is held and the
    host does not run it. *)
Lemma reactAll_held_timeout id c es :
  forall g,
    timeouts g !! id = Some c -> Forall held es ->
    Forall (fun e : World * gesture => e.2 ≠ TimeoutRuns id) es ->
    timeouts (reactAll es g) !! id = Some c.
Proof.
  induction es as [|e es IH]; intros g Hpending Hheld Hnot; [done|].
  apply Forall_cons in Hheld as [He Hes].
  apply Forall_cons in Hnot as [Hne Hnes].
  rewrite reactAll_cons. apply IH; [|done|done].
  destruct e as [w [x y|x y|x y|x y|x y|id'|]]; try done;
    unfold react; gsimpl.
  - unfold onDblClick. by destruct (firstHit _ _ _ _).
  - unfold onTimeout. destruct (timeouts g !! id') as [[unit event]|]; [|done].
    gsimpl. rewrite lookup_delete_ne; [done|]. by intros ->.
  - unfold hoverPolling.
    by destruct (Gesture._lastMousePos (detector g)).
Qed.

(** A timeout that was cleared or has run is never pending again: the ids
    handed out later are greater. *)
Lemma reactAll_stays_cleared id es :
  forall g,
    timeouts g !! id = None -> (id < nextTimeout g)%nat ->
    timeouts (reactAll es g) !! id = None.
Proof.
  induction es as [|e es IH]; intros g Hnone Hlt; [done|].
  rewrite reactAll_cons.
  assert (forall t (o : option nat),
            t !! id = None -> clearTimeout o t !! id = None) as Hclear.
  { intros t [id'|] Ht; simpl; [|done].
    destruct (decide (id' = id)) as [->|Hne].
    - apply lookup_delete_eq.
    - by rewrite lookup_delete_ne. }
  destruct e as [w [x y|x y|x y|x y|x y|id'|]];
    apply IH; unfold react; gsimpl; try done.
  - unfold onDblClick. by destruct (firstHit _ _ _ _).
  - unfold onDblClick. by destruct (firstHit _ _ _ _).
  - unfold onMouseDown. destruct (firstHit _ _ _ _); [|done]. gsimpl.
    rewrite lookup_insert_ne; [done|lia].
  - unfold onMouseDown. destruct (firstHit _ _ _ _); [|done]. gsimpl. lia.
  - unfold onMouseUp.
    destruct (Gesture._isDragging (detector g)),
             (Gesture._dragUnit (detector g)); gsimpl; by apply Hclear.
  - unfold onMouseUp.
    by destruct (Gesture._isDragging (detector g)),
                (Gesture._dragUnit (detector g)).
  - unfold onMouseLeave. gsimpl. by apply Hclear.
  - unfold onTimeout. destruct (timeouts g !! id') as [[unit event]|]; [|done].
    gsimpl. apply (Hclear _ (Some id')), Hnone.
  - unfold onTimeout. by destruct (timeouts g !! id') as [[unit event]|].
  - unfold hoverPolling.
    by destruct (Gesture._lastMousePos (detector g)).
  - unfold hoverPolling.
    by destruct (Gesture._lastMousePos (detector g)).
Qed.

(** Without a press there is nothing to drag. *)
Lemma reactAll_idle es :
  forall g,
    idle g -> Forall notPress es ->
    exists others,
      handlerCalls (reactAll es g) = handlerCalls g ++ others
      /\ filter (fun c => isDragCall c = true) others = [].
Proof.
  induction es as [|e es IH]; intros g Hidle Hnot.
  - exists []. by rewrite app_nil_r.
  - apply Forall_cons in Hnot as [He Hes]. rewrite reactAll_cons.
    assert (idle (react g e)
            /\ exists others1,
                 handlerCalls (react g e) = handlerCalls g ++ others1
                 /\ filter (fun c => isDragCall c = true) others1 = [])
      as (Hidle1 & others1 & Hcalls1 & Hf1).
    { destruct e as [w [x y|x y|x y|x y|x y|id|]]; try done;
        unfold react, idle in *; gsimpl.
      - unfold onDblClick. destruct (firstHit _ _ _ _); gsimpl.
        + split; [done|]. by eexists.
        + split; [done|]. exists []. by rewrite app_nil_r.
      - unfold onMouseUp.
        destruct (Gesture._isDragging (detector g)) eqn:Hd,
                 (Gesture._dragUnit (detector g)) eqn:Hu; gsimpl;
          try (by destruct Hidle);
          (split; [by auto|]; exists []; by rewrite app_nil_r).
      - unfold onMouseMove. gsimpl. split; [done|]. eexists.
        split; [reflexivity|].
        destruct (Gesture._isDragging (detector g)) eqn:Hd,
                 (Gesture._dragUnit (detector g)) eqn:Hu;
          try done; by destruct Hidle.
      - unfold onMouseLeave. gsimpl. split; [by left|]. eexists.
        split; [reflexivity|].
        by destruct (Gesture._hoveredUnit (detector g)).
      - unfold onTimeout.
        destruct (timeouts g !! id) as [[unit event]|]; gsimpl.
        + split; [done|]. by eexists.
        + split; [done|]. exists []. by rewrite app_nil_r.
      - unfold hoverPolling.
        destruct (Gesture._lastMousePos (detector g)) as [p|]; gsimpl.
        + split; [done|]. eexists. split; [reflexivity|].
          destruct (firstHover w (px p) (py p) (reverse (_units w))) as [n|],
                   (Gesture._hoveredUnit (detector g)) as [h|];
            repeat case_bool_decide; done.
        + split; [done|]. exists []. by rewrite app_nil_r. }
    destruct (IH (react g e) Hidle1 Hes) as (others2 & Hcalls2 & Hf2).
    exists (others1 ++ others2). split.
    + by rewrite Hcalls2, Hcalls1, app_assoc.
    + by rewrite filter_app, Hf1, Hf2.
Qed.

(** The state a press leaves. *)
Lemma onMouseDown_hit x0 y0 w0 g u :
  firstHit w0 (px (_getMousePos x0 y0 w0)) (py (_getMousePos x0 y0 w0))
           (reverse (_units w0)) = Some u ->
  onMouseDown x0 y0 w0 g
  = mkGestures
      (Gesture.mk true (Some (_getMousePos x0 y0 w0)) (Some u)
                  (Some (nextTimeout g))
                  (Gesture._hoveredUnit (detector g))
                  (Gesture._lastMousePos (detector g)))
      (<[nextTimeout g := (u, OfEvent x0 y0)]> (timeouts g))
      (S (nextTimeout g))
      (handlerCalls g ++ [Handled u OnMouseDown (OfEvent x0 y0)]).
Proof. intros Hhit. unfold onMouseDown. by rewrite Hhit. Qed.
End Gestures.

(** X18. Whatever reaches the detector, and whatever the scenes are, every unit
    gets its [onHover] and [onMouseLeave] calls in alternation, beginning
    with [onHover]; and the unit whose last such call was [onHover] is the
    detector's [_hoveredUnit], so at most one unit is left hovered. *)
Theorem hover_calls_alternate (es : list (World * gesture)) (u : nat) :
  let g := reactAll es Gestures_new in
  hoverTrace u (handlerCalls g)
  = Some (bool_decide (Gesture._hoveredUnit (detector g) = Some u)).
Proof.
  induction es as [|e es IH] using rev_ind; [done|].
  rewrite reactAll_snoc. by apply react_hover.
Qed.

(** X19. A press is routed to one unit for as long as the button is held: the
    unit under the pointer at "mousedown" gets [onMouseDown], then one
    [onDrag] for every "mousemove", wherever the pointer goes and whatever
    the scene becomes, each with the point of the press as [start]; the
    "mouseup" gives it [onMouseUp] and [onDrop], and after that a
    "mousemove" calls nothing. *)
Theorem drag_goes_to_pressed_unit (g : Gestures) (w0 : World) (x0 y0 : R)
        (u : nat) (es : list (World * gesture)) :
  let p0 := _getMousePos x0 y0 w0 in
  firstHit w0 (px p0) (py p0) (reverse (_units w0)) = Some u ->
  Forall held es ->
  let g2 := reactAll es (onMouseDown x0 y0 w0 g) in
  (exists others,
     handlerCalls g2
     = handlerCalls g ++ Handled u OnMouseDown (OfEvent x0 y0) :: others
     /\ filter (fun c => isDragCall c = true) others = dragCalls u p0 es)
  /\ forall w x y,
       handlerCalls (onMouseUp x y w g2)
       = handlerCalls g2
         ++ [Handled u OnMouseUp (OfEvent x y);
             Handled u OnDrop (OfDrag x y (Some p0) (_getMousePos x y w))]
       /\ forall w' x' y',
            handlerCalls (onMouseMove x' y' w' (onMouseUp x y w g2))
            = handlerCalls (onMouseUp x y w g2).
Proof.
  intros p0 Hhit Hheld g2.
  pose proof (onMouseDown_hit x0 y0 w0 g u Hhit) as Hdown. fold p0 in Hdown.
  destruct (reactAll_held_drag u p0 es (onMouseDown x0 y0 w0 g))
    as ((Hd & Hs & Hu) & _ & _ & others & Hcalls & Hf).
  { by rewrite Hdown. }
  { exact Hheld. }
  fold g2 in Hd, Hs, Hu, Hcalls. split.
  - exists others. split; [|exact Hf].
    rewrite Hcalls, Hdown. cbn [handlerCalls]. by rewrite <- app_assoc.
  - intros w x y. unfold onMouseUp. rewrite Hd, Hu, Hs.
    cbn [handlerCalls]. split; [done|].
    intros w' x' y'. unfold onMouseMove. cbn [detector handlerCalls
      Gesture._isDragging Gesture._dragUnit]. by rewrite app_nil_r.
Qed.

(** X20. The long press is tied to the held button.  The timeout set by a press
    stays pending while the button is held, also while the pointer moves,
    and when the host runs it the pressed unit gets [onLongPress] with the
    event of the press; it runs once.  After a "mouseup" or a "mouseleave"
    it is no longer pending and never becomes pending again, so running it
    then calls nothing. *)
Theorem long_press_needs_held_button (g : Gestures) (w0 : World) (x0 y0 : R)
        (u : nat) (es : list (World * gesture)) :
  let p0 := _getMousePos x0 y0 w0 in
  let id := nextTimeout g in
  firstHit w0 (px p0) (py p0) (reverse (_units w0)) = Some u ->
  Forall held es ->
  Forall (fun e : World * gesture => e.2 ≠ TimeoutRuns id) es ->
  let g2 := reactAll es (onMouseDown x0 y0 w0 g) in
  handlerCalls (onTimeout id g2)
  = handlerCalls g2 ++ [Handled u OnLongPress (OfEvent x0 y0)]
  /\ onTimeout id (onTimeout id g2) = onTimeout id g2
  /\ forall e es',
       isRelease e ->
       onTimeout id (reactAll es' (react g2 e)) = reactAll es' (react g2 e).
Proof.
  intros p0 id Hhit Hheld Hnot g2.
  pose proof (onMouseDown_hit x0 y0 w0 g u Hhit) as Hdown.
  fold p0 id in Hdown.
  destruct (reactAll_held_drag u p0 es (onMouseDown x0 y0 w0 g))
    as (_ & Hlp & Hnext & _).
  { by rewrite Hdown. }
  { exact Hheld. }
  fold g2 in Hlp, Hnext. rewrite Hdown in Hlp, Hnext.
  cbn [detector nextTimeout Gesture._longPressTimeout] in Hlp, Hnext.
  assert (timeouts g2 !! id = Some (u, OfEvent x0 y0)) as Hpending.
  { apply reactAll_held_timeout; [|exact Hheld|exact Hnot].
    rewrite Hdown. cbn [timeouts]. apply lookup_insert_eq. }
  split; [|split].
  - unfold onTimeout. by rewrite Hpending.
  - assert (onTimeout id g2
            = mkGestures (detector g2) (delete id (timeouts g2))
                         (nextTimeout g2)
                         (handlerCalls g2
                          ++ [Handled u OnLongPress (OfEvent x0 y0)])) as ->.
    { unfold onTimeout. by rewrite Hpending. }
    unfold onTimeout. cbn [timeouts]. by rewrite lookup_delete_eq.
  - intros e es' Hrel.
    assert (timeouts (reactAll es' (react g2 e)) !! id = None) as Hgone.
    { apply reactAll_stays_cleared.
      - destruct e as [w [x y|x y|x y|x y|x y|id'|]]; try done;
          unfold react; cbn [fst snd].
        + unfold onMouseUp. rewrite Hlp.
          destruct (Gesture._isDragging (detector g2)),
                   (Gesture._dragUnit (detector g2));
            cbn [timeouts clearTimeout]; apply lookup_delete_eq.
        + unfold onMouseLeave. rewrite Hlp.
          cbn [timeouts clearTimeout]. apply lookup_delete_eq.
      - destruct e as [w [x y|x y|x y|x y|x y|id'|]]; try done;
          unfold react; cbn [fst snd].
        + unfold onMouseUp.
          destruct (Gesture._isDragging (detector g2)),
                   (Gesture._dragUnit (detector g2));
            cbn [nextTimeout]; lia.
        + unfold onMouseLeave. cbn [nextTimeout]. lia. }
    unfold onTimeout. by rewrite Hgone.
Qed.

(** X21. A drag that leaves the canvas ends without a drop: after "mouseleave"
    no [onMouseUp], [onDrag] or [onDrop] is called, whatever follows (a
    "mouseup" included), until the next press. *)
Theorem leaving_cancels_drag (g : Gestures) (x y : R)
        (es : list (World * gesture)) :
  Forall notPress es ->
  exists others,
    handlerCalls (reactAll es (onMouseLeave x y g))
    = handlerCalls (onMouseLeave x y g) ++ others
    /\ filter (fun c => isDragCall c = true) others = [].
Proof.
  intros Hes. apply reactAll_idle; [|exact Hes]. by left.
Qed.

(** X22. A second press while the button is held overwrites the timeout id
    without clearing the first timeout: the release clears only the second
    one, so the first still runs, and the unit of the first press gets
    [onLongPress] although no button is held any more. *)
Theorem second_press_leaks_timeout (g : Gestures) (w1 w2 w3 : World)
        (x1 y1 x2 y2 x3 y3 : R) (u1 u2 : nat) (es : list (World * gesture)) :
  let p1 := _getMousePos x1 y1 w1 in
  let p2 := _getMousePos x2 y2 w2 in
  let id := nextTimeout g in
  firstHit w1 (px p1) (py p1) (reverse (_units w1)) = Some u1 ->
  firstHit w2 (px p2) (py p2) (reverse (_units w2)) = Some u2 ->
  Forall held es ->
  Forall (fun e : World * gesture => e.2 ≠ TimeoutRuns id) es ->
  let g4 := onMouseUp x3 y3 w3
              (onMouseDown x2 y2 w2
                 (reactAll es (onMouseDown x1 y1 w1 g))) in
  Gesture._isDragging (detector g4) = false
  /\ Gesture._longPressTimeout (detector g4) = None
  /\ handlerCalls (onTimeout id g4)
     = handlerCalls g4 ++ [Handled u1 OnLongPress (OfEvent x1 y1)].
Proof.
  intros p1 p2 id Hhit1 Hhit2 Hheld Hnot g4.
  pose proof (onMouseDown_hit x1 y1 w1 g u1 Hhit1) as Hdown1.
  fold p1 id in Hdown1.
  set (g2 := reactAll es (onMouseDown x1 y1 w1 g)) in *.
  destruct (reactAll_held_drag u1 p1 es (onMouseDown x1 y1 w1 g))
    as (_ & _ & Hnext & _).
  { by rewrite Hdown1. }
  { exact Hheld. }
  fold g2 in Hnext. rewrite Hdown1 in Hnext. cbn [nextTimeout] in Hnext.
  assert (timeouts g2 !! id = Some (u1, OfEvent x1 y1)) as Hpending.
  { apply reactAll_held_timeout; [|exact Hheld|exact Hnot].
    rewrite Hdown1. cbn [timeouts]. apply lookup_insert_eq. }
  pose proof (onMouseDown_hit x2 y2 w2 g2 u2 Hhit2) as Hdown2.
  fold p2 in Hdown2. rewrite Hnext in Hdown2.
  unfold g4. rewrite Hdown2. unfold onMouseUp.
  cbn [detector timeouts nextTimeout handlerCalls Gesture._isDragging
       Gesture._dragUnit Gesture._dragStart Gesture._longPressTimeout
       clearTimeout].
  split; [done|]. split; [done|].
  unfold onTimeout. cbn [timeouts].
  rewrite lookup_delete_ne, lookup_insert_ne, Hpending by lia.
  done.
Qed.

(** ** Measured bounds against the hit region *)

Section MeasuredBounds.
Local Open Scope R_scope.

(** The greatest and the least of the four sums of [±p] and [±q]. *)
Lemma max_of_corners (c p q : R) :
  Math_max_of [c + (- p - - q); c + (p - - q); c + (p - q); c + (- p - q)]
  = c + Rabs p + Rabs q.
Proof.
  unfold Math_max_of. simpl. unfold Rmax, Rabs.
  repeat destruct (Rle_dec _ _); repeat destruct (Rcase_abs _); lra.
Qed.

Lemma min_of_corners (c p q : R) :
  Math_min_of [c + (- p - - q); c + (p - - q); c + (p - q); c + (- p - q)]
  = c - Rabs p - Rabs q.
Proof.
  unfold Math_min_of. simpl. unfold Rmin, Rabs.
  repeat destruct (Rle_dec _ _); repeat destruct (Rcase_abs _); lra.
Qed.

(** The bounds in closed form: the box of half-widths
    [|halfW cos| + |halfH sin|] and [|halfW sin| + |halfH cos|] about the
    centre. *)
Lemma measuredBoundsDefault_closed (unit : Unit.t) :
  let c := getCenterPos unit in
  let a := px (Unit.rot unit) in
  let halfW := width (Unit.size unit) * px (Unit.scale unit) / 2 in
  let halfH := height (Unit.size unit) * py (Unit.scale unit) / 2 in
  let ex := Rabs (halfW * cos a) + Rabs (halfH * sin a) in
  let ey := Rabs (halfW * sin a) + Rabs (halfH * cos a) in
  measuredBoundsDefault unit
  = mkBounds (px c - ex) (py c - ey) (2 * ex) (2 * ey).
Proof.
  intros c a halfW halfH ex ey.
  unfold measuredBoundsDefault. cbv zeta. fold a halfW halfH.
  cbn [fmap list_fmap px py].
  change (px (Unit.pos unit) + width (Unit.size unit) / 2) with (px c).
  change (py (Unit.pos unit) + height (Unit.size unit) / 2) with (py c).
  replace (- halfW * cos a - - halfH * sin a)
    with (- (halfW * cos a) - - (halfH * sin a)) by ring.
  replace (halfW * cos a - - halfH * sin a)
    with (halfW * cos a - - (halfH * sin a)) by ring.
  replace (- halfW * cos a - halfH * sin a)
    with (- (halfW * cos a) - halfH * sin a) by ring.
  replace (- halfW * sin a + - halfH * cos a)
    with (- (halfW * sin a) - - (- (halfH * cos a))) by ring.
  replace (halfW * sin a + - halfH * cos a)
    with (halfW * sin a - - (- (halfH * cos a))) by ring.
  replace (halfW * sin a + halfH * cos a)
    with (halfW * sin a - - (halfH * cos a)) by ring.
  replace (- halfW * sin a + halfH * cos a)
    with (- (halfW * sin a) - - (halfH * cos a)) by ring.
  rewrite max_of_corners, min_of_corners.
  rewrite (max_of_corners (py c) (halfW * sin a) (- (halfH * cos a))).
  rewrite (min_of_corners (py c) (halfW * sin a) (- (halfH * cos a))).
  rewrite Rabs_Ropp. unfold ex, ey. f_equal; lra.
Qed.

(** A linear form on a box is greatest at a corner. *)
Lemma within_extent (q q' hw hh alpha beta : R) :
  - hw <= q <= hw -> - hh <= q' <= hh ->
  Rabs (q * alpha - q' * beta) <= Rabs (hw * alpha) + Rabs (hh * beta).
Proof.
  intros Hq Hq'.
  assert (Rabs (q * alpha) <= Rabs (hw * alpha)) as H1.
  { rewrite !Rabs_mult. apply Rmult_le_compat_r; [apply Rabs_pos|].
    unfold Rabs. repeat destruct (Rcase_abs _); lra. }
  assert (Rabs (q' * beta) <= Rabs (hh * beta)) as H2.
  { rewrite !Rabs_mult. apply Rmult_le_compat_r; [apply Rabs_pos|].
    unfold Rabs. repeat destruct (Rcase_abs _); lra. }
  pose proof (Rabs_triang (q * alpha) (- (q' * beta))) as H3.
  rewrite Rabs_Ropp in H3.
  replace (q * alpha - q' * beta) with (q * alpha + - (q' * beta)) by ring.
  lra.
Qed.
End MeasuredBounds.

(** X23. The measured bounds enclose the hit region: for a unit whose width and
    height are not negative, every point its default hit test accepts lies
    in the box [getMeasuredBounds] returns, whatever the rotation and the
    scale.  The box is centred on the unit's centre, and for a unit that
    is neither rotated nor scaled it is the unit's own box. *)
Theorem measured_bounds_enclose_hits (unit : Unit.t) (x y : R) :
  (0 <= width (Unit.size unit))%R -> (0 <= height (Unit.size unit))%R ->
  let b := measuredBoundsDefault unit in
  (hitTestDefault unit x y = true ->
   (bounds_x b <= x <= bounds_x b + bounds_width b)%R
   /\ (bounds_y b <= y <= bounds_y b + bounds_height b)%R)
  /\ mkPoint (bounds_x b + bounds_width b / 2) (bounds_y b + bounds_height b / 2)
     = getCenterPos unit
  /\ (Unit.rot unit = mkPoint 0 0 -> Unit.scale unit = mkPoint 1 1 ->
      b = mkBounds (px (Unit.pos unit)) (py (Unit.pos unit))
                   (width (Unit.size unit)) (height (Unit.size unit))).
Proof.
  intros Hw Hh b. unfold b. rewrite measuredBoundsDefault_closed.
  cbv zeta. cbn [bounds_x bounds_y bounds_width bounds_height].
  set (c := getCenterPos unit). set (a := px (Unit.rot unit)).
  set (sx := px (Unit.scale unit)). set (sy := py (Unit.scale unit)).
  set (w := width (Unit.size unit)) in *.
  set (h := height (Unit.size unit)) in *.
  split; [|split].
  - intros Hhit. apply hitTestDefault_true in Hhit as (Hsx & Hsy & Hx & Hy).
    cbv zeta in Hx, Hy. fold c a sx sy w h in Hx, Hy, Hsx, Hsy.
    set (lx := (x - px c)%R) in *. set (ly := (y - py c)%R) in *.
    set (q := ((lx * cos a + ly * sin a) / sx)%R) in *.
    set (q' := ((- lx * sin a + ly * cos a) / sy)%R) in *.
    assert ((lx * cos a + ly * sin a = q * sx)%R) as Hq.
    { unfold q. field. exact Hsx. }
    assert ((- lx * sin a + ly * cos a = q' * sy)%R) as Hq'.
    { unfold q'. field. exact Hsy. }
    pose proof (sin2_cos2 a) as Hsc. unfold Rsqr in Hsc.
    assert (lx = (q * (sx * cos a) - q' * (sy * sin a))%R) as Hlx.
    { replace (q * (sx * cos a) - q' * (sy * sin a))%R
        with ((q * sx) * cos a - (q' * sy) * sin a)%R by ring.
      rewrite <- Hq, <- Hq'.
      replace ((lx * cos a + ly * sin a) * cos a
               - (- lx * sin a + ly * cos a) * sin a)%R
        with (lx * (sin a * sin a + cos a * cos a))%R by ring.
      rewrite Hsc. ring. }
    assert (ly = (q * (sx * sin a) - (- q') * (sy * cos a))%R) as Hly.
    { replace (q * (sx * sin a) - - q' * (sy * cos a))%R
        with ((q * sx) * sin a + (q' * sy) * cos a)%R by ring.
      rewrite <- Hq, <- Hq'.
      replace ((lx * cos a + ly * sin a) * sin a
               + (- lx * sin a + ly * cos a) * cos a)%R
        with (ly * (sin a * sin a + cos a * cos a))%R by ring.
      rewrite Hsc. ring. }
    pose proof (within_extent q q' (w / 2) (h / 2) (sx * cos a) (sy * sin a)
                               ltac:(lra) ltac:(lra)) as Hex.
    pose proof (within_extent q (- q') (w / 2) (h / 2) (sx * sin a)
                               (sy * cos a) ltac:(lra) ltac:(lra)) as Hey.
    rewrite <- Hlx in Hex. rewrite <- Hly in Hey.
    replace (w / 2 * (sx * cos a))%R with (w * sx / 2 * cos a)%R in Hex
      by field.
    replace (h / 2 * (sy * sin a))%R with (h * sy / 2 * sin a)%R in Hex
      by field.
    replace (w / 2 * (sx * sin a))%R with (w * sx / 2 * sin a)%R in Hey
      by field.
    replace (h / 2 * (sy * cos a))%R with (h * sy / 2 * cos a)%R in Hey
      by field.
    assert (x = (px c + lx)%R) as Hx0 by (unfold lx; lra).
    assert (y = (py c + ly)%R) as Hy0 by (unfold ly; lra).
    clearbody lx ly. rewrite Hx0, Hy0.
    revert Hex Hey.
    generalize (Rabs (w * sx / 2 * cos a)) (Rabs (h * sy / 2 * sin a))
               (Rabs (w * sx / 2 * sin a)) (Rabs (h * sy / 2 * cos a)).
    intros e1 e2 e3 e4. unfold Rabs.
    repeat destruct (Rcase_abs _); lra.
  - destruct c as [cx cy]. simpl. f_equal; lra.
  - intros Hrot Hscale. unfold a, sx, sy. rewrite Hrot, Hscale. simpl.
    rewrite sin_0, cos_0, !Rmult_0_r, !Rmult_1_r, Rabs_R0.
    rewrite !(Rabs_right (_ / 2)) by lra.
    unfold c, getCenterPos. simpl. fold w h. f_equal; lra.
Qed.

(** ** The hit test of a plotted line *)

Section LineHit.
Local Open Scope R_scope.

Lemma Rltb_true (a b : R) : Rltb a b = true <-> a < b.
Proof. unfold Rltb. destruct (Rlt_dec a b); split; intros; done || lra. Qed.

Lemma sum_squares_zero (u v : R) : u * u + v * v = 0 -> u = 0 /\ v = 0.
Proof. intros H. split; nra. Qed.

(** [distToSegmentSquared] is the squared distance to some point of the
    segment... *)
Lemma distToSegmentSquared_attained (p a b : Point) :
  exists s, 0 <= s <= 1
            /\ distToSegmentSquared (px p) (py p) (px a) (py a) (px b) (py b)
               = distSquared p (along a b s).
Proof.
  unfold distToSegmentSquared, distSquared, along. cbv zeta.
  destruct (Req_dec_T _ 0) as [Hz|Hnz].
  - exists 0. split; [lra|]. simpl. f_equal; f_equal; lra.
  - eexists. split; [|reflexivity].
    unfold Rmax, Rmin. repeat destruct (Rle_dec _ _); lra.
Qed.

(** ... and no point of the segment is nearer. *)
Lemma distToSegmentSquared_least (p a b : Point) (s : R) :
  0 <= s <= 1 ->
  distToSegmentSquared (px p) (py p) (px a) (py a) (px b) (py b)
  <= distSquared p (along a b s).
Proof.
  intros Hs. unfold distToSegmentSquared, distSquared, along. cbv zeta.
  simpl.
  set (dx := px b - px a). set (dy := py b - py a).
  set (ux := px p - px a). set (uy := py p - py a).
  destruct (Req_dec_T (dx * dx + dy * dy) 0) as [Hz|Hnz].
  - apply sum_squares_zero in Hz as [-> ->].
    replace (px p - (px a + s * 0)) with ux by (unfold ux; ring).
    replace (py p - (py a + s * 0)) with uy by (unfold uy; ring).
    lra.
  - set (l2 := dx * dx + dy * dy) in *.
    assert (0 < l2) as Hl2.
    { destruct (Rtotal_order 0 l2) as [H|[H|H]]; [exact H|by subst|].
      unfold l2 in H. nra. }
    set (t0 := (ux * dx + uy * dy) / l2).
    assert (ux * dx + uy * dy = t0 * l2) as Hdot.
    { unfold t0. field. lra. }
    set (t := Rmax 0 (Rmin 1 t0)).
    assert (forall r,
              (px p - (px a + r * dx)) * (px p - (px a + r * dx))
              + (py p - (py a + r * dy)) * (py p - (py a + r * dy))
              = ux * ux + uy * uy - 2 * r * (t0 * l2) + r * r * l2) as Hf.
    { intros r. rewrite <- Hdot. unfold ux, uy, l2. ring. }
    rewrite !Hf.
    assert ((t = t0 /\ 0 <= t0 <= 1) \/ (t = 0 /\ t0 <= 0)
            \/ (t = 1 /\ 1 <= t0)) as Hcases.
    { unfold t, Rmax, Rmin. repeat destruct (Rle_dec _ _); lra. }
    clearbody t t0 l2 ux uy. clear Hf Hdot Hnz.
    destruct Hcases as [[-> Ht]|[[-> Ht]|[-> Ht]]].
    + assert (0 <= l2 * ((s - t0) * (s - t0))).
      { apply Rmult_le_pos; [lra|]. apply Rle_0_sqr. }
      lra.
    + assert (0 <= l2 * (s * (s - 2 * t0))).
      { apply Rmult_le_pos; [lra|]. apply Rmult_le_pos; lra. }
      lra.
    + assert (0 <= l2 * ((1 - s) * (2 * t0 - s - 1))).
      { apply Rmult_le_pos; [lra|]. apply Rmult_le_pos; lra. }
      lra.
Qed.

(** The loop, segment by segment. *)
Lemma hitTestLine_from_true (tolerance x y : R) (points : list Point) :
  forall last,
    hitTestLine_from tolerance x y last points = true
    <-> exists i a b,
          (last :: points) !! i = Some a /\ (last :: points) !! S i = Some b
          /\ distToSegmentSquared x y (px a) (py a) (px b) (py b)
             < tolerance * tolerance.
Proof.
  induction points as [|p rest IH]; intros last.
  - simpl. split; [done|]. intros (i & a & b & _ & Hb & _).
    by destruct i.
  - simpl. destruct (Rltb _ _) eqn:E.
    + apply Rltb_true in E. split; [|done]. intros _.
      exists 0%nat, last, p. by split_and!.
    + assert (~ distToSegmentSquared x y (px last) (py last) (px p) (py p)
                < tolerance * tolerance) as Hno.
      { intros H. apply Rltb_true in H. congruence. }
      rewrite IH. split.
      * intros (i & a & b & Ha & Hb & Hd). exists (S i), a, b. by split_and!.
      * intros (i & a & b & Ha & Hb & Hd). destruct i as [|i].
        -- simpl in Ha, Hb. simplify_eq. done.
        -- exists i, a, b. by split_and!.
Qed.
End LineHit.

(** X24. The hit test of a plotted line accepts exactly the points that are
    less than 6 away from the polyline through the points the loop
    computes: [hitTest(x, y)] is true if and only if some segment between
    two consecutive such points has a point at a distance below 6 from
    [(x, y)].  With [segments = 0] there is no segment and nothing is
    hit. *)
Theorem line_hit_is_nearness (unit : LineUnit) (x y : R) :
  hitTestLine unit x y = true
  <-> exists (i : nat) (s : R),
        (i < segments unit)%nat /\ (0 <= s <= 1)%R
        /\ (distSquared (mkPoint x y)
                        (along (linePoint unit i) (linePoint unit (S i)) s)
            < 6 * 6)%R.
Proof.
  unfold hitTestLine. cbv zeta.
  change (seq 0 (S (segments unit))) with (0%nat :: seq 1 (segments unit)).
  rewrite fmap_cons, hitTestLine_from_true.
  change (linePoint unit 0 :: (linePoint unit <$> seq 1 (segments unit)))
    with (linePoint unit <$> seq 0 (S (segments unit))).
  split.
  - intros (i & a & b & Ha & Hb & Hd).
    rewrite list_lookup_fmap in Ha, Hb.
    destruct (seq 0 (S (segments unit)) !! i) as [j|] eqn:Hi; [|done].
    destruct (seq 0 (S (segments unit)) !! S i) as [j'|] eqn:Hi'; [|done].
    apply lookup_seq in Hi as [-> _]. apply lookup_seq in Hi' as [-> Hlt].
    simpl in Ha, Hb. simplify_eq.
    destruct (distToSegmentSquared_attained
                (mkPoint x y) (linePoint unit i) (linePoint unit (S i)))
      as (s & Hs & Heq).
    exists i, s. split; [lia|]. split; [exact Hs|].
    rewrite <- Heq. exact Hd.
  - intros (i & s & Hi & Hs & Hd).
    exists i, (linePoint unit i), (linePoint unit (S i)).
    rewrite !list_lookup_fmap.
    rewrite (lookup_seq_lt 0 (S (segments unit)) i) by lia.
    rewrite (lookup_seq_lt 0 (S (segments unit)) (S i)) by lia.
    split; [done|]. split; [done|].
    eapply Rle_lt_trans; [|exact Hd].
    apply (distToSegmentSquared_least (mkPoint x y)). exact Hs.
Qed.

(** ** The interpolation functions *)

Section Easing.
Local Open Scope R_scope.

Lemma easeInOut1_cos (x : R) : easeInOut1 x = (1 - cos (PI * x)) / 2.
Proof.
  unfold easeInOut1.
  replace (PI * x - PI / 2) with (- (PI / 2 - PI * x)) by lra.
  rewrite sin_neg, sin_shift. lra.
Qed.

Lemma easeInOut2_exp (x : R) :
  let E := exp (-10 * (x - 0.5)) in
  0 < E /\ easeInOut2 x = 1 / (1 + E) /\ easeInOut2 (1 - x) = E / (1 + E).
Proof.
  intros E. pose proof (exp_pos (-10 * (x - 0.5))) as HE. fold E in HE.
  split; [exact HE|]. split; [reflexivity|].
  unfold easeInOut2.
  replace (-10 * (1 - x - 0.5)) with (- (-10 * (x - 0.5))) by lra.
  rewrite exp_Ropp. fold E. field. split; lra.
Qed.
End Easing.

(** X25. [easeInOut1] is a curve in the sense the animation expects: it maps
    every number into [0, 1], fixes 0, 1/2 and 1, is symmetric about the
    midpoint ([f(1 - x) = 1 - f(x)]) and does not decrease on [0, 1]. *)
Theorem easeInOut1_curve (x y : R) :
  (0 <= easeInOut1 x <= 1)%R
  /\ easeInOut1 0 = 0%R /\ easeInOut1 (1 / 2) = (1 / 2)%R
  /\ easeInOut1 1 = 1%R
  /\ easeInOut1 (1 - x) = (1 - easeInOut1 x)%R
  /\ ((0 <= x)%R -> (x <= y)%R -> (y <= 1)%R ->
      (easeInOut1 x <= easeInOut1 y)%R).
Proof.
  rewrite !easeInOut1_cos. pose proof (COS_bound (PI * x)) as Hb.
  split; [lra|]. split_and!.
  - rewrite Rmult_0_r, cos_0. lra.
  - replace (PI * (1 / 2))%R with (PI / 2)%R by lra. rewrite cos_PI2. lra.
  - rewrite Rmult_1_r, cos_PI. lra.
  - replace (PI * (1 - x))%R with (PI - PI * x)%R by lra.
    rewrite cos_minus, cos_PI, sin_PI. lra.
  - intros Hx Hxy Hy. pose proof PI_RGT_0 as Hpi.
    assert (cos (PI * y) <= cos (PI * x))%R; [|lra].
    apply cos_decr_1; nra.
Qed.

(** X26. [easeInOut2] never reaches the ends: its values lie strictly between
    0 and 1, so an interpolation [a + (b - a) * f(t)] with it starts off
    [a] and stops short of [b] whenever [a] and [b] differ.  It is
    symmetric about the midpoint, takes 1/2 there, and increases
    strictly. *)
Theorem easeInOut2_curve (x y a b : R) :
  (0 < easeInOut2 x < 1)%R
  /\ easeInOut2 (1 / 2) = (1 / 2)%R
  /\ easeInOut2 (1 - x) = (1 - easeInOut2 x)%R
  /\ ((x < y)%R -> (easeInOut2 x < easeInOut2 y)%R)
  /\ (a <> b -> (a + (b - a) * easeInOut2 0 <> a
                 /\ a + (b - a) * easeInOut2 1 <> b)%R).
Proof.
  assert (forall z, (0 < easeInOut2 z < 1)%R) as Hrange.
  { intros z. destruct (easeInOut2_exp z) as (HE & -> & _).
    set (E := exp _) in *. clearbody E. split.
    - apply Rdiv_lt_0_compat; lra.
    - apply (Rmult_lt_reg_r (1 + E)); [lra|].
      unfold Rdiv. rewrite Rmult_assoc, Rinv_l by lra. lra. }
  split; [apply Hrange|]. split_and!.
  - unfold easeInOut2.
    replace (-10 * (1 / 2 - 0.5))%R with 0%R by lra. rewrite exp_0. lra.
  - destruct (easeInOut2_exp x) as (HE & -> & ->).
    set (E := exp _) in *. clearbody E. field. lra.
  - intros Hxy. unfold easeInOut2.
    assert (exp (-10 * (y - 0.5)) < exp (-10 * (x - 0.5)))%R as Hexp.
    { apply exp_increasing. lra. }
    pose proof (exp_pos (-10 * (y - 0.5))) as Hy.
    pose proof (exp_pos (-10 * (x - 0.5))) as Hx.
    set (Ex := exp (-10 * (x - 0.5))) in *. set (Ey := exp (-10 * (y - 0.5))) in *.
    clearbody Ex Ey. unfold Rdiv. rewrite !Rmult_1_l.
    apply Rinv_lt_contravar; [|lra]. apply Rmult_lt_0_compat; lra.
  - intros Hab. pose proof (Hrange 0%R) as H0. pose proof (Hrange 1%R) as H1.
    set (f0 := easeInOut2 0) in *. set (f1 := easeInOut2 1) in *.
    clearbody f0 f1. split; intros H; apply Hab; nra.
Qed.

(** ** debugConsole *)

Section DebugConsoleLog.
Variable store_set : string -> value -> World -> outcome.

Lemma log_each_hosts (msg : string) (ls : list nat) :
  forall w warned,
    Forall (isHost w) ls ->
    log_each store_set msg ls w warned
    = Some (with_calls (calls w ++ ((fun l => Invoked l (VStr msg)) <$> ls)) w,
            warned ++ omap (thrown w (VStr msg)) ls).
Proof.
  induction ls as [|l ls IH]; intros w warned Hall.
  - simpl. rewrite !app_nil_r. by destruct w.
  - apply Forall_cons in Hall as [[throws Hl] Hall]. simpl.
    unfold invoke, thrown at 1. rewrite Hl.
    destruct (throws (VStr msg)) as [e|] eqn:E.
    + rewrite IH by exact Hall.
      cbn [with_calls calls heap _units canvasRect store functions].
      by rewrite <- !app_assoc.
    + rewrite IH by exact Hall.
      cbn [with_calls calls heap _units canvasRect store functions].
      by rewrite <- !app_assoc.
Qed.

Lemma subscribe_listeners l (c : DebugConsole) :
  listeners (subscribe l c)
  = if bool_decide (l ∈ listeners c) then listeners c else listeners c ++ [l].
Proof. unfold subscribe. by case_bool_decide. Qed.

Lemma subscribe_NoDup l (c : DebugConsole) :
  NoDup (listeners c) -> NoDup (listeners (subscribe l c)).
Proof.
  intros Hnd. rewrite subscribe_listeners. case_bool_decide as Hin; [done|].
  apply NoDup_app. split; [done|]. split.
  - intros x Hx Hx'. apply list_elem_of_singleton in Hx' as ->. done.
  - apply NoDup_singleton.
Qed.

Lemma log_newCalls (args : list string) (c : DebugConsole) w :
  Forall (isHost w) (listeners c) ->
  exists w' warned,
    log store_set args c w = Some (w', warned)
    /\ newCalls w w'
       = (fun l => Invoked l (VStr (String.concat " " args))) <$> listeners c.
Proof.
  intros Hall. unfold log. rewrite log_each_hosts by exact Hall.
  eexists _, _. split; [reflexivity|].
  unfold newCalls. cbn [with_calls calls]. by rewrite drop_app_length.
Qed.

Lemma callee_filter_eq (v : value) (x : nat) (ls : list nat) :
  filter (fun e => callee e = x) ((fun l => Invoked l v) <$> ls)
  = (fun l => Invoked l v) <$> filter (fun l => l = x) ls.
Proof.
  induction ls as [|l ls IH]; [done|].
  rewrite fmap_cons, !filter_cons. simpl.
  case_decide; by rewrite IH.
Qed.

Lemma callee_filter_ne (v : value) (x : nat) (ls : list nat) :
  filter (fun e => callee e ≠ x) ((fun l => Invoked l v) <$> ls)
  = (fun l => Invoked l v) <$> filter (fun l => l ≠ x) ls.
Proof.
  induction ls as [|l ls IH]; [done|].
  rewrite fmap_cons, !filter_cons. simpl.
  case_decide; by rewrite IH.
Qed.

Lemma filter_eq_nat (x : nat) (ls : list nat) :
  NoDup ls ->
  filter (fun l => l = x) ls = if bool_decide (x ∈ ls) then [x] else [].
Proof.
  induction 1 as [|y ls Hy Hls IH]; [done|].
  rewrite filter_cons, IH. destruct (decide (y = x)) as [->|Hne].
  - rewrite (bool_decide_false (x ∈ ls)) by done.
    rewrite bool_decide_true; [done|]. by left.
  - destruct (decide (x ∈ ls)) as [Hin|Hin].
    + rewrite !bool_decide_true; [done| |done]. by right.
    + rewrite !bool_decide_false; [done| |done].
      rewrite not_elem_of_cons. split; [congruence|done].
Qed.

Lemma subscribe_twice l (c : DebugConsole) :
  subscribe l (subscribe l c) = subscribe l c.
Proof.
  unfold subscribe at 1. rewrite bool_decide_true; [done|].
  rewrite subscribe_listeners. case_bool_decide; [done|].
  apply elem_of_app. right. apply list_elem_of_here.
Qed.

Lemma unsubscribe_subscribe l (c : DebugConsole) :
  listeners (unsubscribe l (subscribe l c))
  = filter (fun x => x ≠ l) (listeners c).
Proof.
  unfold unsubscribe. cbn [listeners]. rewrite subscribe_listeners.
  case_bool_decide; [done|].
  rewrite filter_app, filter_cons, decide_False, filter_nil, app_nil_r; [done|].
  intros H'. by apply H'.
Qed.
End DebugConsoleLog.

(** X27. [debugConsole.log] isolates its listeners: when the listeners are host
    callbacks, [log] returns, every listener has been called once with the
    joined message, in the order of subscription, whether or not earlier
    ones threw, and what they threw has been handed to [console.warn], in
    that order. *)
Theorem debug_log_isolates_errors
        (store_set : string -> value -> World -> outcome)
        (args : list string) (c : DebugConsole) (w : World) :
  Forall (isHost w) (listeners c) ->
  let msg := String.concat " " args in
  exists w',
    log store_set args c w
    = Some (w', omap (thrown w (VStr msg)) (listeners c))
    /\ calls w' = calls w ++ ((fun l => Invoked l (VStr msg)) <$> listeners c)
    /\ heap w' = heap w /\ store w' = store w.
Proof.
  intros Hall msg. eexists. split.
  - unfold log. fold msg. by rewrite log_each_hosts.
  - done.
Qed.

(** X28. The listeners form a set: however often a listener subscribes, [log]
    calls it once per message, and once the function returned by
    [subscribe] has run [log] does not call it, while it calls the other
    listeners as before. *)
Theorem debug_subscription_is_a_set
        (store_set : string -> value -> World -> outcome)
        (args : list string) (c : DebugConsole) (w : World) (l : nat) :
  NoDup (listeners c) ->
  Forall (isHost w) (listeners c) -> isHost w l ->
  (exists w' warned,
     log store_set args (subscribe l (subscribe l c)) w = Some (w', warned)
     /\ length (filter (fun e => callee e = l) (newCalls w w')) = 1%nat)
  /\ exists w' warned w0 warned0,
       log store_set args (unsubscribe l (subscribe l c)) w = Some (w', warned)
       /\ log store_set args c w = Some (w0, warned0)
       /\ filter (fun e => callee e = l) (newCalls w w') = []
       /\ filter (fun e => callee e ≠ l) (newCalls w w')
          = filter (fun e => callee e ≠ l) (newCalls w w0).
Proof.
  intros Hnd Hall Hl.
  assert (Forall (isHost w) (listeners (subscribe l c))) as Hall1.
  { rewrite subscribe_listeners. case_bool_decide; [done|].
    apply Forall_app. split; [done|]. by constructor. }
  assert (Forall (isHost w) (listeners (unsubscribe l (subscribe l c))))
    as Hall2.
  { rewrite unsubscribe_subscribe. apply Forall_forall. intros x Hx.
    apply list_elem_of_filter in Hx as [_ Hx].
    rewrite Forall_forall in Hall. by apply Hall. }
  split.
  - rewrite subscribe_twice.
    destruct (log_newCalls store_set args (subscribe l c) w Hall1)
      as (w' & warned & Hlog & Hnew).
    exists w', warned. split; [exact Hlog|].
    rewrite Hnew, callee_filter_eq, length_fmap.
    rewrite filter_eq_nat by by apply subscribe_NoDup.
    rewrite bool_decide_true; [done|].
    rewrite subscribe_listeners. case_bool_decide; [done|].
    apply elem_of_app. right. apply list_elem_of_here.
  - destruct (log_newCalls store_set args (unsubscribe l (subscribe l c))
                           w Hall2) as (w' & warned & Hlog & Hnew).
    destruct (log_newCalls store_set args c w Hall)
      as (w0 & warned0 & Hlog0 & Hnew0).
    exists w', warned, w0, warned0.
    split; [exact Hlog|]. split; [exact Hlog0|].
    rewrite Hnew, Hnew0, unsubscribe_subscribe. split.
    + rewrite callee_filter_eq, list_filter_filter.
      rewrite filter_none; [done|].
      apply Forall_forall. intros x _ [H1 H2]. done.
    + rewrite !callee_filter_ne. by rewrite filter_idem.
Qed.

(** ** The slider *)

Section Slider.
Local Open Scope R_scope.

Lemma jsdiv_nonzero (a b : R) : b <> 0 -> jsdiv a b = Some (a / b).
Proof. intros Hb. unfold jsdiv. by destruct (Req_dec_T b 0). Qed.

Lemma clamp_to_track (relX width : R) :
  0 < width ->
  0 <= Rmax 0 (Rmin relX width) <= width
  /\ (relX <= 0 -> Rmax 0 (Rmin relX width) = 0)
  /\ (width <= relX -> Rmax 0 (Rmin relX width) = width)
  /\ (0 <= relX <= width -> Rmax 0 (Rmin relX width) = relX).
Proof.
  intros Hw. unfold Rmax, Rmin. repeat destruct (Rle_dec _ _); lra.
Qed.
End Slider.

(** X29. The slider keeps its value in range and its thumb under the pointer:
    for a track of positive width and [min <= max], a click on the track
    or a drag of the thumb stores a value between [min] and [max], [min]
    when the pointer is left of the track and [max] when it is right of
    it; and when [min < max] the handler that reacts to the stored value
    puts the centre of the thumb at the pointer's x, cut to the track. *)
Theorem slider_value_in_range (min max width relX trackX thumbSize : R) :
  (0 < width)%R -> (min <= max)%R ->
  exists v,
    sliderValue min max width relX = Some v
    /\ (min <= v <= max)%R
    /\ ((relX <= 0)%R -> v = min)
    /\ ((width <= relX)%R -> v = max)
    /\ ((min < max)%R ->
        thumbX min max width trackX thumbSize v
        = Some (trackX + Rmax 0 (Rmin relX width) - thumbSize / 2)%R).
Proof.
  intros Hw Hrange.
  destruct (clamp_to_track relX width Hw) as (Hc & Hleft & Hright & _).
  unfold sliderValue, thumbX. cbv zeta.
  set (clampedX := Rmax 0 (Rmin relX width)) in *. clearbody clampedX.
  rewrite jsdiv_nonzero by lra.
  eexists. split; [reflexivity|].
  assert (0 <= clampedX / width <= 1)%R as Hp.
  { split.
    - apply Rmult_le_pos; [lra|]. apply Rlt_le, Rinv_0_lt_compat, Hw.
    - apply (Rmult_le_reg_r width); [exact Hw|].
      unfold Rdiv. rewrite Rmult_assoc, Rinv_l by lra. lra. }
  split_and!.
  - nra.
  - nra.
  - intros H. rewrite (Hleft H). unfold Rdiv. lra.
  - intros H. rewrite (Hright H). unfold Rdiv. rewrite Rinv_r by lra. lra.
  - intros Hlt. rewrite jsdiv_nonzero by lra. f_equal. field. lra.
Qed.

(** ** The bars of a bar chart *)

Section Bars.
Local Open Scope R_scope.
Variables baseY barHeight : R.

Lemma bar_observedMax (vals : list R) :
  let b := foldl (barDataChange baseY barHeight) (Bar_new baseY) vals in
  1 <= observedMax b /\ Forall (fun v => v <= observedMax b) vals.
Proof.
  induction vals as [|v vals IH] using rev_ind.
  - simpl. split; [lra|constructor].
  - rewrite foldl_app. simpl. destruct IH as [H1 Hall].
    set (b := foldl _ _ vals) in *. clearbody b.
    unfold barDataChange. cbn [observedMax]. unfold Rltb.
    destruct (Rlt_dec (observedMax b) v) as [Hlt|Hge].
    + split; [lra|]. apply Forall_app. split.
      * eapply Forall_impl; [exact Hall|]. simpl. intros x Hx. lra.
      * apply Forall_singleton. simpl. lra.
    + split; [exact H1|]. apply Forall_app. split; [exact Hall|].
      apply Forall_singleton. simpl. lra.
Qed.
End Bars.

(** X30. A bar stands on the baseline and stays inside the chart: after every
    value the bottom edge of the bar is at [baseY + barHeight]; the height
    is the value's share of the greatest value seen so far (or of 1, if
    none was greater), so for a value that is not negative it lies between
    0 and [barHeight], and it is [barHeight] for a value of at least 1
    that no earlier value exceeded. *)
Theorem bar_stays_in_chart (baseY barHeight : R) (vals : list R) (v : R) :
  let b := foldl (barDataChange baseY barHeight) (Bar_new baseY)
                 (vals ++ [v]) in
  (bar_y b + bar_height b = baseY + barHeight)%R
  /\ (1 <= observedMax b)%R
  /\ Forall (fun x => (x <= observedMax b)%R) (vals ++ [v])
  /\ bar_height b = (v / observedMax b * barHeight)%R
  /\ ((0 <= barHeight)%R -> (0 <= v)%R ->
      (0 <= bar_height b <= barHeight)%R)
  /\ ((1 <= v)%R -> Forall (fun x => (x <= v)%R) vals ->
      bar_height b = barHeight).
Proof.
  intros b.
  destruct (bar_observedMax baseY barHeight (vals ++ [v])) as [Hone Hall].
  fold b in Hone, Hall.
  destruct (bar_observedMax baseY barHeight vals) as [Hone0 Hall0].
  assert (bar_height b = (v / observedMax b * barHeight)%R
          /\ bar_y b = (baseY + (barHeight - bar_height b))%R
          /\ (observedMax b = v
              \/ observedMax b
                 = observedMax (foldl (barDataChange baseY barHeight)
                                      (Bar_new baseY) vals)))
    as (Hh & Hy & Hmax).
  { unfold b. rewrite foldl_app. simpl. unfold barDataChange.
    cbn [bar_height bar_y observedMax]. split; [done|]. split; [done|].
    unfold Rltb. destruct (Rlt_dec _ _); auto. }
  assert (v <= observedMax b)%R as Hv.
  { pose proof Hall as Hall'. rewrite Forall_app, Forall_singleton in Hall'.
    by destruct Hall' as [_ Hv]. }
  split_and!.
  - rewrite Hy. lra.
  - exact Hone.
  - exact Hall.
  - exact Hh.
  - intros HH Hv0. rewrite Hh.
    assert (0 <= v / observedMax b <= 1)%R as Hp.
    { split.
      - apply Rmult_le_pos; [lra|]. apply Rlt_le, Rinv_0_lt_compat. lra.
      - apply (Rmult_le_reg_r (observedMax b)); [lra|].
        unfold Rdiv. rewrite Rmult_assoc, Rinv_l by lra. lra. }
    split; nra.
  - intros Hv1 Hle. rewrite Hh.
    assert (observedMax b = v) as ->.
    { destruct Hmax as [H|H]; [exact H|].
      apply Rle_antisym; [|exact Hv].
      rewrite H. clear H Hh Hy Hv Hall Hone b.
      set (b0 := foldl _ _ vals) in *.
      assert (observedMax b0 = 1 \/ observedMax b0 ∈ vals)%R as [H|H].
      { unfold b0. clear. induction vals as [|x l IH] using rev_ind.
        - by left.
        - rewrite foldl_app. simpl. unfold barDataChange.
          cbn [observedMax]. unfold Rltb.
          destruct (Rlt_dec _ _).
          + right. apply elem_of_app. right. apply list_elem_of_here.
          + destruct IH as [IH|IH]; [by left|].
            right. apply elem_of_app. by left. }
      - lra.
      - rewrite Forall_forall in Hle. by apply Hle. }
    unfold Rdiv. rewrite Rinv_r by lra. lra.
Qed.

(** ** The further properties at concrete scenes *)

Section FurtherSchedulerScenes.
Local Open Scope Q_scope.

Lemma removed_never_called_witness :
  Forall (not_adding "tick") [Frame 200; Frame 300]
  /\ fireCount "tick"
       (performAll [Frame 200; Frame 300]
          (remove "tick" (performAll ticking TaskScheduler_new)))
     = fireCount "tick" (remove "tick" (performAll ticking TaskScheduler_new)).
Proof.
  assert (Forall (not_adding "tick") [Frame 200; Frame 300]) as Hu.
  { repeat constructor. }
  split; [exact Hu|].
  exact (proj2 (removed_never_called ticking [Frame 200; Frame 300] "tick" Hu)).
Defined.

Lemma stop_discards_witness :
  scheduled "tick" (performAll ticking TaskScheduler_new) = Some tick_task
  /\ "global" ∈ Task.channels tick_task
  /\ Forall (not_adding "tick") [Frame 200; Frame 300]
  /\ scheduled "tick"
       (performAll [Frame 200; Frame 300]
          (stop (Some "global") (performAll ticking TaskScheduler_new)))
     = None.
Proof.
  assert ("global" ∈ Task.channels tick_task) as Hch.
  { apply list_elem_of_here. }
  assert (Forall (not_adding "tick") [Frame 200; Frame 300]) as Hu.
  { repeat constructor. }
  split; [reflexivity|]. split; [exact Hch|]. split; [exact Hu|].
  exact (proj1 (stop_discards ticking [Frame 200; Frame 300] "tick" tick_task
                              (Some "global") eq_refl Hch Hu)).
Defined.

Lemma channel_pause_isolation_witness :
  scheduled "tick" (performAll ticking TaskScheduler_new) = Some tick_task
  /\ fireCount "tick"
       (loop 200 (pause "global" (performAll ticking TaskScheduler_new)))
     = fireCount "tick" (performAll ticking TaskScheduler_new).
Proof.
  split; [reflexivity|].
  pose proof (channel_pause_isolation ticking "tick" "global" tick_task 200
                                      eq_refl) as H.
  rewrite bool_decide_true in H by apply list_elem_of_here.
  exact (proj2 H).
Defined.

Lemma infinite_task_persists_witness :
  Forall (untouched "tick" ["global"]) [Start; Frame 10]
  /\ exists t,
      scheduled "tick"
        (performAll [Start; Frame 10]
           (add "tick" 100 INFINITE 0 ["global"] 0
                (performAll [] TaskScheduler_new))) = Some t
      /\ Task.remaining t = INFINITE.
Proof.
  assert (Forall (untouched "tick" ["global"]) [Start; Frame 10]) as Hu.
  { repeat constructor. }
  split; [exact Hu|].
  destruct (infinite_task_persists [] [Start; Frame 10] "tick" 100 0
                                   ["global"] 0 Hu)
    as (t & Hs & Hrem & _).
  exists t. split; [exact Hs|exact Hrem].
Defined.

Lemma calls_at_least_delay_apart_witness :
  scheduled "tick" (performAll ticking TaskScheduler_new) = Some tick_task
  /\ fireCount "tick" (loop 100 (performAll ticking TaskScheduler_new))
     = S (fireCount "tick" (performAll ticking TaskScheduler_new))
  /\ fireCount "tick"
       (loop 200 (loop 100 (performAll ticking TaskScheduler_new)))
     = S (S (fireCount "tick" (performAll ticking TaskScheduler_new)))
  /\ Task.delay tick_task <= 200 - 100.
Proof.
  split; [reflexivity|]. split; [reflexivity|]. split; [reflexivity|].
  exact (calls_at_least_delay_apart ticking "tick" tick_task 100 200
                                    eq_refl eq_refl eq_refl).
Defined.

Lemma animation_pause_correction_witness :
  scheduled "fade" (performAll fading TaskScheduler_new)
  = Some (Task.with_lastRun 50 fade_task)
  /\ Task.anim (Task.with_lastRun 50 fade_task) = Some fade_animation
  /\ "animation" ∈ Task.channels (Task.with_lastRun 50 fade_task)
  /\ fireCount "fade"
       (performAll (Frame <$> [60; 70])
          (pause "animation" (performAll fading TaskScheduler_new)))
     = fireCount "fade" (performAll fading TaskScheduler_new).
Proof.
  assert ("animation" ∈ Task.channels (Task.with_lastRun 50 fade_task))
    as Hch.
  { apply list_elem_of_further, list_elem_of_here. }
  split; [reflexivity|]. split; [reflexivity|]. split; [exact Hch|].
  exact (proj1 (animation_pause_correction
                  fading "fade" "animation" (Task.with_lastRun 50 fade_task)
                  fade_animation [60; 70] eq_refl eq_refl Hch)).
Defined.

Lemma repeated_pause_restarts_clock_witness :
  scheduled "tick" (performAll ticking TaskScheduler_new) = Some tick_task
  /\ Task.anim tick_task = None
  /\ "global" ∈ Task.channels tick_task
  /\ fireCount "tick"
       (performAll (Frame <$> [70; 80])
          (pause "global"
             (performAll (Frame <$> [60])
                (pause "global" (performAll ticking TaskScheduler_new)))))
     = fireCount "tick" (performAll ticking TaskScheduler_new).
Proof.
  assert ("global" ∈ Task.channels tick_task) as Hch.
  { apply list_elem_of_here. }
  split; [reflexivity|]. split; [reflexivity|]. split; [exact Hch|].
  exact (proj1 (repeated_pause_restarts_clock
                  ticking "tick" "global" tick_task [60] [70; 80]
                  eq_refl eq_refl Hch)).
Defined.

Lemma linear_interpolation_witness :
  Task.anim fade_task = Some fade_animation
  /\ (forall x, Task.curve fade_animation x == x)
  /\ 0 < Task.duration fade_animation
  /\ exists v,
      run fade_task 250
      = (Fired "fade" 7 (Some (Finite v)), Task.with_lastRun 250 fade_task,
         Qltb (elapsedAt fade_task fade_animation 250)
              (Task.duration fade_animation))
      /\ v == 0 + (10 - 0) * ((250 - 0 - 0) / 500).
Proof.
  assert (forall x, Task.curve fade_animation x == x) as Hcurve.
  { intros x. reflexivity. }
  assert (0 < Task.duration fade_animation) as HD.
  { reflexivity. }
  split; [reflexivity|]. split; [exact Hcurve|]. split; [exact HD|].
  destruct (linear_interpolation fade_task fade_animation 250 eq_refl
                                 Hcurve HD)
    as (v & Hrun & _ & Hmid & _).
  exists v. split; [exact Hrun|].
  apply Hmid; vm_compute; discriminate.
Defined.

Lemma zero_duration_animation_witness :
  Task.anim blink_task = Some blink_animation
  /\ Task.duration blink_animation == 0
  /\ 0 <= elapsedAt blink_task blink_animation 0
  /\ (forall x, Task.curve blink_animation x == x)
  /\ (run blink_task 0).2 = false
  /\ (run blink_task 0).1.1 = Fired "blink" 7 (Some NaN).
Proof.
  assert (0 <= elapsedAt blink_task blink_animation 0) as He.
  { vm_compute. discriminate. }
  assert (forall x, Task.curve blink_animation x == x) as Hcurve.
  { intros x. reflexivity. }
  split; [reflexivity|]. split; [reflexivity|]. split; [exact He|].
  split; [exact Hcurve|].
  destruct (zero_duration_animation blink_task blink_animation 0
                                    eq_refl (Qeq_refl _) He)
    as (Hdone & Hnan & _).
  split; [exact Hdone|]. apply Hnan; [exact Hcurve|reflexivity].
Defined.
End FurtherSchedulerScenes.

Lemma two_units_quiet (key : string) :
  Forall (quiet two_units) (listenersOf key (store two_units)).
Proof. unfold listenersOf. simpl. rewrite lookup_empty. constructor. Qed.

Lemma binding_follows_target_witness :
  heap two_units !! 0%nat = Some (Unit_new "A" 0)
  /\ heap two_units !! 1%nat = Some (Unit_new "B" 1)
  /\ 0%nat ≠ 1%nat
  /\ "A" ≠ "B"
  /\ (forall key, Forall (quiet two_units) (listenersOf key (store two_units)))
  /\ exists w1,
      Unit_bindPositionRelativeTo (DataStore_set 1) 1 0 "top"
                                  (mkOffset None (Some 5%R)) two_units
      = Done w1
      /\ exists w2,
          updateAll (DataStore_set 2) 0
                    [AttrSize (mkSize 40 30); AttrPos (mkPoint 7 8)] w1
          = Done w2
          /\ posOf w2 1%nat
             = Some (placed "top" 0 5 (Unit_new "B" 1)
                            (assignAll [AttrSize (mkSize 40 30);
                                        AttrPos (mkPoint 7 8)]
                                       (Unit_new "A" 0))).
Proof.
  split; [reflexivity|]. split; [reflexivity|]. split; [lia|].
  split; [discriminate|]. split; [exact two_units_quiet|].
  destruct (binding_follows_target
              two_units 0 1 (Unit_new "A" 0) (Unit_new "B" 1) "top"
              (mkOffset None (Some 5%R)) 0
              eq_refl eq_refl ltac:(lia) ltac:(discriminate) two_units_quiet)
    as (w1 & Hbind & _ & _ & Hall).
  exists w1. split; [exact Hbind|].
  destruct (Hall [AttrSize (mkSize 40 30); AttrPos (mkPoint 7 8)])
    as (w2 & Hup & _ & Hb).
  exists w2. split; [exact Hup|exact Hb].
Defined.

Lemma bound_unit_own_update_witness :
  heap two_units !! 0%nat = Some (Unit_new "A" 0)
  /\ heap two_units !! 1%nat = Some (Unit_new "B" 1)
  /\ 0%nat ≠ 1%nat
  /\ "A" ≠ "B"
  /\ (forall key, Forall (quiet two_units) (listenersOf key (store two_units)))
  /\ exists w1,
      Unit_bindPositionRelativeTo (DataStore_set 1) 1 0 "left"
                                  (mkOffset None None) two_units
      = Done w1
      /\ exists w2,
          Unit_update (DataStore_set 2) 1 (AttrSize (mkSize 40 30)) w1
          = Done w2
          /\ posOf w2 1%nat
             = Some (placed "left" 0 0
                            (assign (AttrSize (mkSize 40 30)) (Unit_new "B" 1))
                            (Unit_new "A" 0)).
Proof.
  split; [reflexivity|]. split; [reflexivity|]. split; [lia|].
  split; [discriminate|]. split; [exact two_units_quiet|].
  destruct (bound_unit_own_update
              two_units 0 1 (Unit_new "A" 0) (Unit_new "B" 1) "left"
              (mkOffset None None) 0
              eq_refl eq_refl ltac:(lia) ltac:(discriminate) two_units_quiet)
    as (w1 & Hbind & Hown).
  exists w1. split; [exact Hbind|].
  destruct (Hown (AttrSize (mkSize 40 30))) as (w2 & Hup & _ & Hb).
  exists w2. split; [exact Hup|exact Hb].
Defined.

Lemma unbind_round_trip_witness :
  heap two_units !! 0%nat = Some (Unit_new "A" 0)
  /\ heap two_units !! 1%nat = Some (Unit_new "B" 1)
  /\ 0%nat ≠ 1%nat
  /\ "A" ≠ "B"
  /\ (forall key, Forall (quiet two_units) (listenersOf key (store two_units)))
  /\ default [] (Unit._boundPositionListeners (Unit_new "B" 1)) = []
  /\ exists w1 w2,
      Unit_bindPositionRelativeTo (DataStore_set 1) 1 0 "bottom"
                                  (mkOffset None None) two_units
      = Done w1
      /\ Unit_unbindPositionRelativeTo 1 w1 = Done w2
      /\ listenersOf "A::pos" (store w2) = listenersOf "A::pos" (store two_units).
Proof.
  split; [reflexivity|]. split; [reflexivity|]. split; [lia|].
  split; [discriminate|]. split; [exact two_units_quiet|].
  split; [reflexivity|].
  destruct (unbind_round_trip
              two_units 0 1 (Unit_new "A" 0) (Unit_new "B" 1) "bottom"
              (mkOffset None None) 0
              eq_refl eq_refl ltac:(lia) ltac:(discriminate) two_units_quiet
              eq_refl)
    as (w1 & w2 & Hbind & Hunbind & Hls & _).
  exists w1, w2. split; [exact Hbind|]. split; [exact Hunbind|].
  exact (Hls "A::pos").
Defined.

Lemma delete_bound_unit_witness :
  heap two_units !! 0%nat = Some (Unit_new "A" 0)
  /\ heap two_units !! 1%nat = Some (Unit_new "B" 1)
  /\ 0%nat ≠ 1%nat
  /\ "A" ≠ "B"
  /\ (forall key, Forall (quiet two_units) (listenersOf key (store two_units)))
  /\ default [] (Unit._boundPositionListeners (Unit_new "B" 1)) = []
  /\ exists w1 w2,
      Unit_bindPositionRelativeTo (DataStore_set 1) 1 0 "bottom"
                                  (mkOffset None None) two_units
      = Done w1
      /\ Unit_delete 1 w1 = Done w2
      /\ 1%nat ∉ _units w2.
Proof.
  split; [reflexivity|]. split; [reflexivity|]. split; [lia|].
  split; [discriminate|]. split; [exact two_units_quiet|].
  split; [reflexivity|].
  destruct (delete_bound_unit
              two_units 0 1 (Unit_new "A" 0) (Unit_new "B" 1) "bottom"
              (mkOffset None None) 0
              eq_refl eq_refl ltac:(lia) ltac:(discriminate) two_units_quiet
              eq_refl)
    as (w1 & w2 & Hbind & Hdelete & Hgone & _).
  exists w1, w2. split; [exact Hbind|]. split; [exact Hdelete|exact Hgone].
Defined.

Lemma deleted_target_still_drives_witness :
  heap two_units !! 0%nat = Some (Unit_new "A" 0)
  /\ heap two_units !! 1%nat = Some (Unit_new "B" 1)
  /\ 0%nat ≠ 1%nat
  /\ "A" ≠ "B"
  /\ (forall key, Forall (quiet two_units) (listenersOf key (store two_units)))
  /\ Unit._boundPositionListeners (Unit_new "A" 0) = None
  /\ exists w1 w2,
      Unit_bindPositionRelativeTo (DataStore_set 1) 1 0 "right"
                                  (mkOffset None None) two_units
      = Done w1
      /\ Unit_delete 0 w1 = Done w2
      /\ (0%nat ∉ _units w2)
      /\ exists w3,
          updateAll (DataStore_set 2) 0 [AttrPos (mkPoint 7 8)] w2 = Done w3
          /\ posOf w3 1%nat
             = Some (placed "right" 0 0 (Unit_new "B" 1)
                            (assignAll [AttrPos (mkPoint 7 8)]
                                       (Unit_new "A" 0))).
Proof.
  split; [reflexivity|]. split; [reflexivity|]. split; [lia|].
  split; [discriminate|]. split; [exact two_units_quiet|].
  split; [reflexivity|].
  destruct (deleted_target_still_drives
              two_units 0 1 (Unit_new "A" 0) (Unit_new "B" 1) "right"
              (mkOffset None None) 0
              eq_refl eq_refl ltac:(lia) ltac:(discriminate) two_units_quiet
              eq_refl)
    as (w1 & w2 & Hbind & Hdelete & Hgone & _ & Hall).
  exists w1, w2. split; [exact Hbind|]. split; [exact Hdelete|].
  split; [exact Hgone|].
  destruct (Hall [AttrPos (mkPoint 7 8)]) as (w3 & Hup & Hb).
  exists w3. split; [exact Hup|exact Hb].
Defined.

Lemma mutual_binding_never_returns_witness :
  heap two_units !! 0%nat = Some (Unit_new "A" 0)
  /\ heap two_units !! 1%nat = Some (Unit_new "B" 1)
  /\ 0%nat ≠ 1%nat
  /\ "A" ≠ "B"
  /\ (forall key, Forall (quiet two_units) (listenersOf key (store two_units)))
  /\ exists w1,
      Unit_bindPositionRelativeTo (DataStore_set 1) 1 0 "right"
                                  (mkOffset None None) two_units
      = Done w1
      /\ Unit_bindPositionRelativeTo (DataStore_set 1000) 0 1 "left"
                                     (mkOffset None None) w1
         = OutOfFuel.
Proof.
  split; [reflexivity|]. split; [reflexivity|]. split; [lia|].
  split; [discriminate|]. split; [exact two_units_quiet|].
  destruct (mutual_binding_never_returns
              two_units 0 1 (Unit_new "A" 0) (Unit_new "B" 1) "right" "left"
              (mkOffset None None) (mkOffset None None) 0
              eq_refl eq_refl ltac:(lia) ltac:(discriminate) two_units_quiet)
    as (w1 & Hbind & Hloop).
  exists w1. split; [exact Hbind|exact (Hloop 1000%nat)].
Defined.

Lemma click_reaches_highest_zOrder_witness :
  Forall (fun r => is_Some (heap two_units !! r)) (_units two_units)
  /\ _units (Context_zSortUnits false two_units) ≡ₚ _units two_units.
Proof.
  assert (Forall (fun r => is_Some (heap two_units !! r)) (_units two_units))
    as H.
  { repeat constructor; eexists; reflexivity. }
  split; [exact H|].
  exact (proj1 (click_reaches_highest_zOrder (DataStore_set 1) two_units
                                             50 50 H)).
Defined.

Lemma add_then_remove_witness :
  heap two_units !! 1%nat = Some (Unit_new "B" 1)
  /\ Forall (fun r => nameOf (with_units [0%nat] two_units) r
                      ≠ Some (Unit.name (Unit_new "B" 1)))
            (_units (with_units [0%nat] two_units))
  /\ Context_removeUnit "B" (Context_addUnit 1 (with_units [0%nat] two_units))
     = with_units [0%nat] two_units.
Proof.
  assert (Forall (fun r => nameOf (with_units [0%nat] two_units) r
                           ≠ Some (Unit.name (Unit_new "B" 1)))
                 (_units (with_units [0%nat] two_units))) as H.
  { repeat constructor. discriminate. }
  split; [reflexivity|]. split; [exact H|].
  exact (add_then_remove (with_units [0%nat] two_units) 1 (Unit_new "B" 1)
                         eq_refl H).
Defined.

Lemma firstHit_two_units :
  firstHit two_units (px (_getMousePos 50 50 two_units))
           (py (_getMousePos 50 50 two_units)) (reverse (_units two_units))
  = Some 1%nat.
Proof.
  cbn [_getMousePos px py canvasRect two_units _units].
  change (reverse [0%nat; 1%nat]) with [1%nat; 0%nat].
  unfold firstHit. rewrite accepts_two_units; [done|].
  cbn [_units two_units]. apply list_elem_of_further, list_elem_of_here.
Qed.

Lemma move_and_poll_held : Forall held move_and_poll.
Proof. repeat constructor. Qed.

Lemma move_and_poll_no_timeout :
  Forall (fun e : World * gesture => e.2 ≠ TimeoutRuns (nextTimeout Gestures_new))
         move_and_poll.
Proof. repeat constructor; discriminate. Qed.

Lemma drag_goes_to_pressed_unit_witness :
  firstHit two_units (px (_getMousePos 50 50 two_units))
           (py (_getMousePos 50 50 two_units)) (reverse (_units two_units))
  = Some 1%nat
  /\ Forall held move_and_poll
  /\ handlerCalls
       (onMouseUp 80 90 two_units
          (reactAll move_and_poll (onMouseDown 50 50 two_units Gestures_new)))
     = handlerCalls
         (reactAll move_and_poll (onMouseDown 50 50 two_units Gestures_new))
       ++ [Handled 1 OnMouseUp (OfEvent 80 90);
           Handled 1 OnDrop
                   (OfDrag 80 90 (Some (_getMousePos 50 50 two_units))
                           (_getMousePos 80 90 two_units))].
Proof.
  split; [exact firstHit_two_units|]. split; [exact move_and_poll_held|].
  destruct (drag_goes_to_pressed_unit Gestures_new two_units 50%R 50%R 1%nat
              move_and_poll firstHit_two_units move_and_poll_held)
    as (_ & Hup).
  exact (proj1 (Hup two_units 80%R 90%R)).
Defined.

Lemma long_press_needs_held_button_witness :
  firstHit two_units (px (_getMousePos 50 50 two_units))
           (py (_getMousePos 50 50 two_units)) (reverse (_units two_units))
  = Some 1%nat
  /\ Forall held move_and_poll
  /\ Forall (fun e : World * gesture =>
               e.2 ≠ TimeoutRuns (nextTimeout Gestures_new)) move_and_poll
  /\ handlerCalls
       (onTimeout 0
          (reactAll move_and_poll (onMouseDown 50 50 two_units Gestures_new)))
     = handlerCalls
         (reactAll move_and_poll (onMouseDown 50 50 two_units Gestures_new))
       ++ [Handled 1 OnLongPress (OfEvent 50 50)].
Proof.
  split; [exact firstHit_two_units|]. split; [exact move_and_poll_held|].
  split; [exact move_and_poll_no_timeout|].
  exact (proj1 (long_press_needs_held_button
                  Gestures_new two_units 50%R 50%R 1%nat move_and_poll
                  firstHit_two_units move_and_poll_held
                  move_and_poll_no_timeout)).
Defined.

Lemma leaving_cancels_drag_witness :
  Forall notPress [(two_units, MouseUp 80 90)]
  /\ exists others,
      handlerCalls
        (reactAll [(two_units, MouseUp 80 90)]
           (onMouseLeave 300 300 (onMouseDown 50 50 two_units Gestures_new)))
      = handlerCalls
          (onMouseLeave 300 300 (onMouseDown 50 50 two_units Gestures_new))
        ++ others
      /\ filter (fun c => isDragCall c = true) others = [].
Proof.
  assert (Forall notPress [(two_units, MouseUp 80 90)]) as H.
  { repeat constructor. }
  split; [exact H|].
  exact (leaving_cancels_drag (onMouseDown 50 50 two_units Gestures_new)
                              300%R 300%R [(two_units, MouseUp 80 90)] H).
Defined.

Lemma second_press_leaks_timeout_witness :
  firstHit two_units (px (_getMousePos 50 50 two_units))
           (py (_getMousePos 50 50 two_units)) (reverse (_units two_units))
  = Some 1%nat
  /\ Forall held move_and_poll
  /\ Forall (fun e : World * gesture =>
               e.2 ≠ TimeoutRuns (nextTimeout Gestures_new)) move_and_poll
  /\ Gesture._isDragging
       (detector
          (onMouseUp 80 90 two_units
             (onMouseDown 50 50 two_units
                (reactAll move_and_poll
                   (onMouseDown 50 50 two_units Gestures_new)))))
     = false.
Proof.
  split; [exact firstHit_two_units|]. split; [exact move_and_poll_held|].
  split; [exact move_and_poll_no_timeout|].
  exact (proj1 (second_press_leaks_timeout
                  Gestures_new two_units two_units two_units
                  50%R 50%R 50%R 50%R 80%R 90%R 1%nat 1%nat move_and_poll
                  firstHit_two_units firstHit_two_units
                  move_and_poll_held move_and_poll_no_timeout)).
Defined.

Section FurtherGeometryScenes.
Local Open Scope R_scope.

Lemma measured_bounds_enclose_hits_witness :
  0 <= width (Unit.size (Unit_new "A" 0))
  /\ 0 <= height (Unit.size (Unit_new "A" 0))
  /\ measuredBoundsDefault (Unit_new "A" 0) = mkBounds 10 10 100 100.
Proof.
  assert (0 <= width (Unit.size (Unit_new "A" 0))) as Hw by (simpl; lra).
  assert (0 <= height (Unit.size (Unit_new "A" 0))) as Hh by (simpl; lra).
  split; [exact Hw|]. split; [exact Hh|].
  destruct (measured_bounds_enclose_hits (Unit_new "A" 0) 50 50 Hw Hh)
    as (_ & _ & Hplain).
  exact (Hplain eq_refl eq_refl).
Defined.

Lemma slider_value_in_range_witness :
  0 < 200 /\ 0 <= 10
  /\ exists v, sliderValue 0 10 200 300 = Some v /\ v = 10.
Proof.
  assert (0 < 200) as Hw by lra. assert (0 <= 10) as Hr by lra.
  split; [exact Hw|]. split; [exact Hr|].
  destruct (slider_value_in_range 0 10 200 300 0 18 Hw Hr)
    as (v & Hv & _ & _ & Hright & _).
  exists v. split; [exact Hv|]. apply Hright. lra.
Defined.
End FurtherGeometryScenes.

Lemma two_listeners_hosts :
  Forall (isHost two_listeners) (listeners (mkDebugConsole [0%nat; 1%nat])).
Proof. repeat constructor; eexists; reflexivity. Qed.

Lemma debug_log_isolates_errors_witness :
  Forall (isHost two_listeners) (listeners (mkDebugConsole [0%nat; 1%nat]))
  /\ exists w',
      log (DataStore_set 1) ["tick"; "1"] (mkDebugConsole [0%nat; 1%nat])
          two_listeners
      = Some (w', [boom])
      /\ calls w' = [Invoked 0 (VStr "tick 1"); Invoked 1 (VStr "tick 1")].
Proof.
  split; [exact two_listeners_hosts|].
  destruct (debug_log_isolates_errors
              (DataStore_set 1) ["tick"; "1"] (mkDebugConsole [0%nat; 1%nat])
              two_listeners two_listeners_hosts)
    as (w' & Hlog & Hcalls & _).
  exists w'. split; [exact Hlog|exact Hcalls].
Defined.

Lemma debug_subscription_is_a_set_witness :
  NoDup (listeners (mkDebugConsole [0%nat]))
  /\ Forall (isHost two_listeners) (listeners (mkDebugConsole [0%nat]))
  /\ isHost two_listeners 1
  /\ exists w' warned,
      log (DataStore_set 1) ["tick"]
          (subscribe 1 (subscribe 1 (mkDebugConsole [0%nat]))) two_listeners
      = Some (w', warned)
      /\ length (filter (fun e => callee e = 1%nat)
                        (newCalls two_listeners w')) = 1%nat.
Proof.
  assert (NoDup (listeners (mkDebugConsole [0%nat]))) as Hnd.
  { apply NoDup_singleton. }
  assert (Forall (isHost two_listeners) (listeners (mkDebugConsole [0%nat])))
    as Hall.
  { repeat constructor; eexists; reflexivity. }
  assert (isHost two_listeners 1) as Hl.
  { eexists; reflexivity. }
  split; [exact Hnd|]. split; [exact Hall|]. split; [exact Hl|].
  exact (proj1 (debug_subscription_is_a_set
                  (DataStore_set 1) ["tick"] (mkDebugConsole [0%nat])
                  two_listeners 1 Hnd Hall Hl)).
Defined.
